(** * masterapp: the EIS numeric pipeline

    A shallow embedding of the numeric core of the Go packages
    [pkg/config] (errors and configuration), [pkg/signal] (data model,
    validator and CSV loader), [pkg/fft] (mixed-radix FFT with direct-DFT
    fallback, frequency bins, half-spectrum extraction) and [pkg/impedance]
    (impedance calculator).

    Conventions of the embedding.
    - [float64] is the kernel's binary64 type ([PrimFloat.float]); every
      arithmetic operation is the IEEE 754 one, rounded to nearest even, applied
      in the evaluation order of the Go expression (no fused multiply-add, as
      on amd64).  All NaNs are identified, as in [PrimFloat].
    - [complex128] is a pair of [float64]; [+], [-], [*] and [/] on it are the
      ones the Go compiler and runtime implement.
    - a Go [int] is a [Z]; lengths and loop indices are [nat] (a slice length is
      below 2^63, where [float64_of_int] is the exact Go conversion).
    - a Go slice is a [list]; [make] gives zeros and an indexed store is
      [store]; an indexed load is [nth] (every load of the source is in range).
    - a function returning [error] returns [option error] ([None] is [nil]);
      a function returning [(T, error)] returns [res T].
    - [time.Time] is an instant in nanoseconds since the zero time (wall clock
      only), [time.Duration] a signed 64-bit count of nanoseconds.
    - [cmplx.Exp] and [math.Atan2] belong to the Go library and are kept
      abstract: they are the two variables of Section [Pipeline]. *)

From Stdlib Require Import String DecimalString.
From Stdlib Require Import Floats ZArith List Uint63 Bool Lia PeanoNat.
From Equations Require Import Equations.
Import ListNotations.

Set Implicit Arguments.

(* ===================================================================== *)
(** ** Go values: float64, complex128, int, time *)
(* ===================================================================== *)

Abbreviation float64 := PrimFloat.float.

(** [float64(i)] for a Go [int] [i] with |i| < 2^63. *)
Definition float64_of_int (z : Z) : float64 :=
  if (z <? 0)%Z then PrimFloat.opp (PrimFloat.of_uint63 (Uint63.of_Z (- z)))
  else PrimFloat.of_uint63 (Uint63.of_Z z).

Definition float64_of_nat (n : nat) : float64 := float64_of_int (Z.of_nat n).

(** [math.IsNaN(f)] and [math.IsInf(f, 0)]. *)
Definition math_IsNaN (f : float64) : bool := PrimFloat.is_nan f.
Definition math_IsInf (f : float64) : bool := PrimFloat.is_infinity f.

(** The untyped constant [-2 * math.Pi], rounded once to binary64. *)
Definition minus_two_pi : float64 := (-0x1.921fb54442d18p+2)%float.
(** The literals [1e-10], [0.1] and [1e9] as binary64 values. *)
Definition near_zero_current : float64 := 0x1.b7cdfd9d7bdbbp-34%float.
Definition drift_tolerance : float64 := 0x1.999999999999ap-4%float.
Definition nanos_per_second : float64 := 0x1.dcd65p+29%float.

(** [math.Hypot], the portable implementation of the Go library. *)
Definition math_Hypot (p q : float64) : float64 :=
  let p := PrimFloat.abs p in
  let q := PrimFloat.abs q in
  if (p =? infinity)%float || (q =? infinity)%float then infinity
  else if math_IsNaN p || math_IsNaN q then nan
  else
    let '(p, q) := if (p <? q)%float then (q, p) else (p, q) in
    if (p =? 0)%float then 0%float
    else
      let q := (q / p)%float in
      (p * PrimFloat.sqrt (1 + q * q))%float.

Record complex128 : Set := Cplx { re : float64; im : float64 }.

Definition czero : complex128 := Cplx 0%float 0%float.

Definition cadd (a b : complex128) : complex128 :=
  Cplx (re a + re b)%float (im a + im b)%float.

Definition csub (a b : complex128) : complex128 :=
  Cplx (re a - re b)%float (im a - im b)%float.

(** Complex multiplication as the compiler emits it. *)
Definition cmul (a b : complex128) : complex128 :=
  Cplx (re a * re b - im a * im b)%float (re a * im b + im a * re b)%float.

(** [a == b] on complex128: both parts compare equal as floats. *)
Definition ceqb (a b : complex128) : bool :=
  (re a =? re b)%float && (im a =? im b)%float.

Definition math_Copysign (f sign : float64) : float64 :=
  if PrimFloat.get_sign sign then PrimFloat.opp (PrimFloat.abs f) else PrimFloat.abs f.

Definition inf2one (f : float64) : float64 :=
  math_Copysign (if math_IsInf f then 1%float else 0%float) f.

(** Complex division: [runtime.complex128div] (Smith's algorithm followed by
    the C99 Annex G corrections when both parts came out NaN). *)
Definition cdiv (n m : complex128) : complex128 :=
  let '(e, f) :=
    if (PrimFloat.abs (im m) <=? PrimFloat.abs (re m))%float then
      let ratio := (im m / re m)%float in
      let denom := (re m + ratio * im m)%float in
      ((re n + im n * ratio) / denom, (im n - re n * ratio) / denom)%float
    else
      let ratio := (re m / im m)%float in
      let denom := (im m + ratio * re m)%float in
      ((re n * ratio + im n) / denom, (im n * ratio - re n) / denom)%float in
  if math_IsNaN e && math_IsNaN f then
    let a := re n in let b := im n in
    let c := re m in let d := im m in
    if ceqb m czero && (negb (math_IsNaN a) || negb (math_IsNaN b)) then
      Cplx (math_Copysign infinity c * a)%float (math_Copysign infinity c * b)%float
    else if (math_IsInf a || math_IsInf b)
            && PrimFloat.is_finite c && PrimFloat.is_finite d then
      let a := inf2one a in let b := inf2one b in
      Cplx (infinity * (a * c + b * d))%float (infinity * (b * c - a * d))%float
    else if (math_IsInf c || math_IsInf d)
            && PrimFloat.is_finite a && PrimFloat.is_finite b then
      let c := inf2one c in let d := inf2one d in
      Cplx (0 * (a * c + b * d))%float (0 * (b * c - a * d))%float
    else Cplx e f
  else Cplx e f.

(** [cmplx.Abs], [cmplx.IsNaN], [cmplx.IsInf]. *)
Definition cmplx_Abs (x : complex128) : float64 := math_Hypot (re x) (im x).

Definition cmplx_IsNaN (x : complex128) : bool :=
  if math_IsInf (re x) || math_IsInf (im x) then false
  else if math_IsNaN (re x) || math_IsNaN (im x) then true
  else false.

Definition cmplx_IsInf (x : complex128) : bool :=
  math_IsInf (re x) || math_IsInf (im x).

(** [time.Time] and [time.Duration]. *)
Abbreviation Time := Z (only parsing).
Abbreviation Duration := Z (only parsing).

Definition Time_IsZero (t : Time) : bool := (t =? 0)%Z.

Definition maxDuration : Duration := (2 ^ 63 - 1)%Z.
Definition minDuration : Duration := (- 2 ^ 63)%Z.

(** [t.Sub(u)]: the difference, saturated to the range of [Duration]. *)
Definition Time_Sub (t u : Time) : Duration :=
  let d := (t - u)%Z in
  if (d <? minDuration)%Z then minDuration
  else if (maxDuration <? d)%Z then maxDuration
  else d.

(** [d.Seconds()]. *)
Definition Duration_Seconds (d : Duration) : float64 :=
  let sec := Z.quot d 1000000000 in
  let nsec := Z.rem d 1000000000 in
  (float64_of_int sec + float64_of_int nsec / nanos_per_second)%float.

(** Slices. *)
Definition make (A : Type) (zero : A) (n : nat) : list A := repeat zero n.

(** [a[i] = v]; the source never stores out of range (Go would panic). *)
Fixpoint store (A : Type) (i : nat) (v : A) (a : list A) : list A :=
  match a, i with
  | [], _ => []
  | _ :: t, O => v :: t
  | h :: t, S i' => h :: store i' v t
  end.

(** [%d] of [fmt.Sprintf] on a non-negative int. *)
Definition fmt_d (n : nat) : string := NilZero.string_of_uint (Nat.to_uint n).

(* ===================================================================== *)
(** ** pkg/config: errors *)
(* ===================================================================== *)

Inductive error : Set :=
| ErrInvalidSignalLength
| ErrInvalidSampleRate
| ErrMismatchedSignalLength
| ErrMismatchedSampleRate
| Errorf (msg : string)
| ValidationError (Field Message : string)
| ProcessingError (Operation : string) (Cause : error).

Definition NewValidationError (field message : string) : error :=
  ValidationError field message.

Definition NewProcessingError (operation : string) (cause : error) : error :=
  ProcessingError operation cause.

(** The [Error()] method. *)
Fixpoint Error (e : error) : string :=
  match e with
  | ErrInvalidSignalLength => "signal length must be greater than 0"
  | ErrInvalidSampleRate => "sample rate must be greater than 0"
  | ErrMismatchedSignalLength =>
      "voltage and current signals must have the same length"
  | ErrMismatchedSampleRate =>
      "voltage and current signals must have the same sample rate"
  | Errorf msg => msg
  | ValidationError f m =>
      "validation error for field '" ++ f ++ "': " ++ m
  | ProcessingError op c =>
      "processing error in operation '" ++ op ++ "': " ++ Error c
  end%string.

Inductive res (A : Type) : Type :=
| Ok (a : A)
| Err (e : error).
Arguments Ok {A} a.
Arguments Err {A} e.

Definition is_ok (A : Type) (r : res A) : bool :=
  match r with Ok _ => true | Err _ => false end.

(** [for i := start; i < start+count; i++ { body }] over a loop state,
    leaving at the first [return ..., err]. *)
Fixpoint for_loop (S : Type) (start count : nat)
         (body : nat -> S -> res S) (s : S) : res S :=
  match count with
  | O => Ok s
  | Datatypes.S c =>
      match body start s with
      | Err e => Err e
      | Ok s' => for_loop (Datatypes.S start) c body s'
      end
  end.

(* ===================================================================== *)
(** ** pkg/signal: data model *)
(* ===================================================================== *)

Record Signal : Set := mkSignal {
  Timestamp : Time;
  Values : list float64;
  SampleRate : float64 }.

Record ComplexSignal : Set := mkComplexSignal {
  cTimestamp : Time;
  cValues : list complex128;
  cFrequencies : list float64 }.

Record ImpedanceData : Set := mkImpedanceData {
  zTimestamp : Time;
  Impedance : list complex128;
  zFrequencies : list float64;
  Magnitude : list float64;
  Phase : list float64 }.

(* ===================================================================== *)
(** ** pkg/signal: validator *)
(* ===================================================================== *)

(** The scan [for i, value := range signal.Values] of [ValidateSignal]. *)
Fixpoint scanValues (i : nat) (vs : list float64) : option error :=
  match vs with
  | [] => None
  | value :: rest =>
      if math_IsNaN value then
        Some (NewValidationError "Values" ("NaN value found at index " ++ fmt_d i))
      else if math_IsInf value then
        Some (NewValidationError "Values"
                ("infinite value found at index " ++ fmt_d i))
      else scanValues (S i) rest
  end.

Definition ValidateSignal (signal : Signal) : option error :=
  if (length (Values signal) =? 0)%nat then
    Some (NewValidationError "Values" "signal values cannot be empty")
  else if (SampleRate signal <=? 0)%float then
    Some (NewValidationError "SampleRate" "sample rate must be greater than 0")
  else if Time_IsZero (Timestamp signal) then
    Some (NewValidationError "Timestamp" "timestamp cannot be zero")
  else scanValues 0 (Values signal).

Fixpoint scanComplex (field nanmsg infmsg : string) (i : nat)
         (vs : list complex128) : option error :=
  match vs with
  | [] => None
  | value :: rest =>
      if cmplx_IsNaN value then
        Some (NewValidationError field (nanmsg ++ fmt_d i))
      else if cmplx_IsInf value then
        Some (NewValidationError field (infmsg ++ fmt_d i))
      else scanComplex field nanmsg infmsg (S i) rest
  end.

Fixpoint scanFrequencies (i : nat) (fs : list float64) : option error :=
  match fs with
  | [] => None
  | freq :: rest =>
      if math_IsNaN freq then
        Some (NewValidationError "Frequencies"
                ("NaN frequency found at index " ++ fmt_d i))
      else if math_IsInf freq then
        Some (NewValidationError "Frequencies"
                ("infinite frequency found at index " ++ fmt_d i))
      else scanFrequencies (S i) rest
  end.

Definition ValidateComplexSignal (signal : ComplexSignal) : option error :=
  if (length (cValues signal) =? 0)%nat then
    Some (NewValidationError "Values" "complex signal values cannot be empty")
  else if (length (cFrequencies signal) =? 0)%nat then
    Some (NewValidationError "Frequencies" "frequencies cannot be empty")
  else if negb (length (cValues signal) =? length (cFrequencies signal))%nat then
    Some (NewValidationError "Length"
            "values and frequencies must have the same length")
  else if Time_IsZero (cTimestamp signal) then
    Some (NewValidationError "Timestamp" "timestamp cannot be zero")
  else
    match scanComplex "Values" "NaN complex value found at index "
                      "infinite complex value found at index "
                      0 (cValues signal) with
    | Some e => Some e
    | None => scanFrequencies 0 (cFrequencies signal)
    end.

Fixpoint scanNegative (i : nat) (fs : list float64) : option error :=
  match fs with
  | [] => None
  | freq :: rest =>
      if (freq <? 0)%float then
        Some (NewValidationError "Frequencies"
                ("negative frequency found at index " ++ fmt_d i))
      else scanNegative (S i) rest
  end.

Definition ValidatePositiveFrequencySignal (signal : ComplexSignal)
  : option error :=
  match ValidateComplexSignal signal with
  | Some err => Some err
  | None => scanNegative 0 (cFrequencies signal)
  end.

Definition ValidateImpedanceData (data : ImpedanceData) : option error :=
  if (length (Impedance data) =? 0)%nat then
    Some (NewValidationError "Impedance" "impedance values cannot be empty")
  else if (length (zFrequencies data) =? 0)%nat then
    Some (NewValidationError "Frequencies" "frequencies cannot be empty")
  else if negb (length (Impedance data) =? length (zFrequencies data))%nat then
    Some (NewValidationError "Length"
            "impedance and frequencies must have the same length")
  else if (0 <? length (Magnitude data))%nat
          && negb (length (Magnitude data) =? length (Impedance data))%nat then
    Some (NewValidationError "Magnitude"
            "magnitude length must match impedance length")
  else if (0 <? length (Phase data))%nat
          && negb (length (Phase data) =? length (Impedance data))%nat then
    Some (NewValidationError "Phase" "phase length must match impedance length")
  else if Time_IsZero (zTimestamp data) then
    Some (NewValidationError "Timestamp" "timestamp cannot be zero")
  else
    scanComplex "Impedance" "NaN impedance value found at index "
                "infinite impedance value found at index " 0 (Impedance data).

Definition ValidateSignalsMatch (voltageSignal currentSignal : Signal)
  : option error :=
  if negb (length (Values voltageSignal) =? length (Values currentSignal))%nat
  then Some ErrMismatchedSignalLength
  else if negb (SampleRate voltageSignal =? SampleRate currentSignal)%float
  then Some ErrMismatchedSampleRate
  else
    let timeDiff := Time_Sub (Timestamp voltageSignal) (Timestamp currentSignal) in
    if (drift_tolerance <? PrimFloat.abs (Duration_Seconds timeDiff))%float then
      Some (NewValidationError "Timestamp"
        "voltage and current signals have significantly different timestamps")
    else None.

(** [CalculateMagnitudePhase], for a given [math.Atan2]. *)
Definition CalculateMagnitudePhase (math_Atan2 : float64 -> float64 -> float64)
           (z : ImpedanceData) : list float64 * list float64 :=
  let step (st : nat * (list float64 * list float64)) (imp : complex128) :=
    let '(i, (magnitude, phase)) := st in
    (S i, (store i (cmplx_Abs imp) magnitude,
           store i (math_Atan2 (im imp) (re imp)) phase)) in
  snd (fold_left step (Impedance z)
         (0, (make 0%float (length (Impedance z)),
              make 0%float (length (Impedance z))))).

(** [for i := start; i < start+count; i++ { body }] without early return. *)
Fixpoint for_each (S : Type) (start count : nat)
         (body : nat -> S -> S) (s : S) : S :=
  match count with
  | O => s
  | Datatypes.S c => for_each (Datatypes.S start) c body (body start s)
  end.

(** [for i, v := range l { a[i] = f v }] into [a := make(..., len(l))]. *)
Definition range_store (A B : Type) (zero : B) (f : A -> B) (l : list A)
  : list B :=
  snd (fold_left (fun (st : nat * list B) (v : A) =>
                    (S (fst st), store (fst st) (f v) (snd st)))
                 l (0, make zero (length l))).

(* ===================================================================== *)
(** ** pkg/fft and pkg/impedance *)
(* ===================================================================== *)

Section Pipeline.

(** [cmplx.Exp] and [math.Atan2] of the Go library. *)
Variable cmplx_Exp : complex128 -> complex128.
Variable math_Atan2 : float64 -> float64 -> float64.

(** The angle guard shared by the FFT butterfly and the direct DFT. *)
Definition invalid_angle (angle : float64) : bool :=
  math_IsNaN angle || math_IsInf angle.

(** [dft]: the inner loop over [j] for one output bin [k]. *)
Definition dft_bin (x : list complex128) (n k : nat) : res complex128 :=
  for_loop 0 n
    (fun j sum =>
       let angle := (minus_two_pi * float64_of_nat k * float64_of_nat j
                     / float64_of_nat n)%float in
       if invalid_angle angle then
         Err (NewProcessingError "DFT computation"
                (Errorf ("invalid angle at k=" ++ fmt_d k ++ ", j=" ++ fmt_d j)))
       else Ok (cadd sum (cmul (nth j x czero) (cmplx_Exp (Cplx 0%float angle)))))
    (Cplx 0%float 0%float).

Definition dft (x : list complex128) : res (list complex128) :=
  let n := length x in
  if (n <=? 0)%nat then Err ErrInvalidSignalLength
  else
    for_loop 0 n
      (fun k result =>
         match dft_bin x n k with
         | Err e => Err e
         | Ok sum => Ok (store k sum result)
         end)
      (make czero n).

(** The loop filling [even] and [odd] in [computeFFT]. *)
Definition split_even_odd (x : list complex128)
  : list complex128 * list complex128 :=
  let n := length x in
  for_each 0 (n / 2)
    (fun i eo => (store i (nth (2 * i) x czero) (fst eo),
                  store i (nth (2 * i + 1) x czero) (snd eo)))
    (make czero (n / 2), make czero (n / 2)).

(** The butterfly loop of [computeFFT]. *)
Definition butterfly (n : nat) (evenFFT oddFFT : list complex128)
  : res (list complex128) :=
  for_loop 0 (n / 2)
    (fun k result =>
       let angle := (minus_two_pi * float64_of_nat k / float64_of_nat n)%float in
       if invalid_angle angle then
         Err (NewProcessingError "FFT computation"
                (Errorf ("invalid angle at k=" ++ fmt_d k)))
       else
         let t := cmul (cmplx_Exp (Cplx 0%float angle)) (nth k oddFFT czero) in
         let result := store k (cadd (nth k evenFFT czero) t) result in
         Ok (store (k + n / 2) (csub (nth k evenFFT czero) t) result))
    (make czero n).

(** [computeFFT]: recursion on the length of [x]. *)
Equations? computeFFT (x : list complex128) : res (list complex128)
  by wf (length x) lt :=
  computeFFT x with le_lt_dec (length x) 1 := {
    | left _ =>
        if (length x <=? 0)%nat then Err ErrInvalidSignalLength else Ok x
    | right Hn =>
        if negb (length x mod 2 =? 0)%nat then dft x
        else
          match computeFFT (fst (split_even_odd x)) with
          | Err err => Err err
          | Ok evenFFT =>
              match computeFFT (snd (split_even_odd x)) with
              | Err err => Err err
              | Ok oddFFT => butterfly (length x) evenFFT oddFFT
              end
          end }.
Proof.
  all: assert (L : forall (c s : nat) (eo : list complex128 * list complex128),
         length (fst (for_each s c
           (fun i eo => (store i (nth (2 * i) x czero) (fst eo),
                         store i (nth (2 * i + 1) x czero) (snd eo))) eo))
         = length (fst eo)
         /\ length (snd (for_each s c
           (fun i eo => (store i (nth (2 * i) x czero) (fst eo),
                         store i (nth (2 * i + 1) x czero) (snd eo))) eo))
            = length (snd eo))
    by (assert (SL : forall (v : complex128) a i, length (store i v a) = length a)
          by (intros v a; induction a; intros [|i]; simpl; auto);
        induction c as [|c IH]; intros s eo; simpl; [auto|];
        destruct (IH (S s) (store s (nth (2 * s) x czero) (fst eo),
                            store s (nth (2 * s + 1) x czero) (snd eo)))
          as [E1 E2]; simpl in E1, E2; rewrite SL in E1, E2; auto).
  all: unfold split_even_odd;
    destruct (L (length x / 2) 0
                (make czero (length x / 2), make czero (length x / 2))) as [E1 E2];
    cbn [fst snd] in E1, E2; unfold make in *;
    rewrite repeat_length in E1, E2.
  - rewrite E1. apply Nat.div_lt; lia.
  - rewrite E2. apply Nat.div_lt; lia.
Qed.

(** [generateFrequencies]. *)
Definition generateFrequencies (n : nat) (sampleRate : float64)
  : res (list float64) :=
  if (n <=? 0)%nat then Err ErrInvalidSignalLength
  else if (sampleRate <=? 0)%float then Err ErrInvalidSampleRate
  else
    Ok (for_each 0 n
          (fun i frequencies =>
             if (i <? n / 2)%nat then
               store i (float64_of_int (Z.of_nat i) * sampleRate
                        / float64_of_int (Z.of_nat n))%float frequencies
             else
               store i (float64_of_int (Z.of_nat i - Z.of_nat n) * sampleRate
                        / float64_of_int (Z.of_nat n))%float frequencies)
          (make 0%float n)).

(** [ProcessSignal]: the transform of the specification. *)
Definition ProcessSignal (sig : Signal) : res ComplexSignal :=
  match ValidateSignal sig with
  | Some err => Err (NewProcessingError "signal validation" err)
  | None =>
      let n := length (Values sig) in
      if (n =? 0)%nat then
        Err (NewProcessingError "FFT processing" ErrInvalidSignalLength)
      else
        let complexValues :=
          range_store czero (fun val => Cplx val 0%float) (Values sig) in
        match computeFFT complexValues with
        | Err err => Err (NewProcessingError "FFT computation" err)
        | Ok fftResult =>
            match generateFrequencies n (SampleRate sig) with
            | Err err => Err (NewProcessingError "frequency generation" err)
            | Ok frequencies =>
                let result := mkComplexSignal (Timestamp sig) fftResult frequencies in
                match ValidateComplexSignal result with
                | Some err => Err (NewProcessingError "result validation" err)
                | None => Ok result
                end
            end
        end
  end.

(** [GetPositiveFrequencies]: the half-spectrum extraction. *)
Definition GetPositiveFrequencies (complexSignal : ComplexSignal)
  : res ComplexSignal :=
  match ValidateComplexSignal complexSignal with
  | Some err => Err (NewProcessingError "input validation" err)
  | None =>
      let n := length (cValues complexSignal) in
      if (n =? 0)%nat then Err ErrInvalidSignalLength
      else
        let halfN := n / 2 in
        let halfN := if (halfN =? 0)%nat then 1 else halfN in
        let result := mkComplexSignal (cTimestamp complexSignal)
                        (firstn halfN (cValues complexSignal))
                        (firstn halfN (cFrequencies complexSignal)) in
        match ValidatePositiveFrequencySignal result with
        | Some err => Err (NewProcessingError "result validation" err)
        | None => Ok result
        end
  end.

(** [ValidateSignals] of the impedance calculator. *)
Definition ValidateSignals (voltageSignal currentSignal : Signal)
  : option error :=
  match ValidateSignal voltageSignal with
  | Some err => Some (NewValidationError "VoltageSignal" (Error err))
  | None =>
      match ValidateSignal currentSignal with
      | Some err => Some (NewValidationError "CurrentSignal" (Error err))
      | None => ValidateSignalsMatch voltageSignal currentSignal
      end
  end.

(** The division loop of [CalculateImpedance]. *)
Definition impedance_loop (voltage current : list complex128)
  : res (list complex128) :=
  for_loop 0 (length voltage)
    (fun i impedance =>
       let currentMagnitude := cmplx_Abs (nth i current czero) in
       if (currentMagnitude <? near_zero_current)%float then
         Ok (store i (Cplx 0%float 0%float) impedance)
       else
         let z := cdiv (nth i voltage czero) (nth i current czero) in
         if cmplx_IsNaN z || cmplx_IsInf z then
           Err (NewProcessingError "impedance calculation"
                  (NewValidationError "Impedance"
                     ("invalid impedance value at frequency index " ++ fmt_d i)))
         else Ok (store i z impedance))
    (make czero (length voltage)).

(** [CalculateImpedance]: computeImpedance of the specification. *)
Definition CalculateImpedance (voltageSignal currentSignal : Signal)
  : res ImpedanceData :=
  match ValidateSignals voltageSignal currentSignal with
  | Some err => Err (NewProcessingError "signal validation" err)
  | None =>
  match ProcessSignal voltageSignal with
  | Err err => Err (NewProcessingError "voltage FFT processing" err)
  | Ok voltageFFT =>
  match ProcessSignal currentSignal with
  | Err err => Err (NewProcessingError "current FFT processing" err)
  | Ok currentFFT =>
  match GetPositiveFrequencies voltageFFT with
  | Err err => Err (NewProcessingError "voltage positive frequencies" err)
  | Ok voltageFFT =>
  match GetPositiveFrequencies currentFFT with
  | Err err => Err (NewProcessingError "current positive frequencies" err)
  | Ok currentFFT =>
      if negb (length (cValues voltageFFT) =? length (cValues currentFFT))%nat
      then Err (NewProcessingError "impedance calculation"
                  ErrMismatchedSignalLength)
      else
        match impedance_loop (cValues voltageFFT) (cValues currentFFT) with
        | Err err => Err err
        | Ok impedance =>
            let impedanceData :=
              mkImpedanceData (Timestamp voltageSignal) impedance
                              (cFrequencies voltageFFT) [] [] in
            let '(magnitude, phase) :=
              CalculateMagnitudePhase math_Atan2 impedanceData in
            let impedanceData :=
              mkImpedanceData (zTimestamp impedanceData) (Impedance impedanceData)
                              (zFrequencies impedanceData) magnitude phase in
            match ValidateImpedanceData impedanceData with
            | Some err =>
                Err (NewProcessingError "impedance data validation" err)
            | None => Ok impedanceData
            end
        end
  end end end end end.

End Pipeline.

(* ===================================================================== *)
(** ** A reference Go library

    [cmplx.Exp] on purely imaginary arguments and [math.Atan2], programmed over
    binary64 with truncated power series.  They stand for the Go library when
    the pipeline is run on concrete signals, and show that what the theorems
    below assume of the library can be met. *)
(* ===================================================================== *)

Module Reference.

Definition clamp_unit (y : float64) : float64 :=
  if (y <? -1)%float then (-1)%float
  else if (1 <? y)%float then 1%float
  else if math_IsNaN y then 0%float
  else y.

(** [1 - x2/(a1*b1) * (1 - x2/(a2*b2) * (...))], with [a = 2k+off-1] and
    [b = 2k+off]: the series of [sin x / x] ([off = 1]) and [cos x]
    ([off = 0]) in [x2 = x*x]. *)
Fixpoint series (x2 : float64) (k : nat) (off : Z) (acc : float64) : float64 :=
  match k with
  | O => acc
  | S k' =>
      let a := float64_of_int (2 * Z.of_nat k + off - 1) in
      let b := float64_of_int (2 * Z.of_nat k + off) in
      series x2 k' off (1 - x2 / (a * b) * acc)%float
  end.

Definition sin_series (x : float64) : float64 :=
  (x * series (x * x) 24 1 1)%float.

Definition cos_series (x : float64) : float64 :=
  series (x * x)%float 24 0 1%float.

(** [cmplx.Exp(complex(0, angle))]: [math.Exp(0)] is 1, and the sine and cosine
    of a finite angle lie in [[-1, 1]]. *)
Definition cmplx_Exp (z : complex128) : complex128 :=
  if PrimFloat.is_finite (im z) then
    Cplx (clamp_unit (cos_series (im z))) (clamp_unit (sin_series (im z)))
  else Cplx nan nan.

Definition Pi : float64 := 0x1.921fb54442d18p+1%float.

(** [u - u^3/3 + u^5/5 - ...] for small [u]. *)
Fixpoint atan_series (u2 : float64) (k : nat) (acc : float64) : float64 :=
  match k with
  | O => acc
  | S k' =>
      atan_series u2 k' (1 / float64_of_int (2 * Z.of_nat k' + 1) - u2 * acc)%float
  end.

Definition atan_half (t : float64) : float64 :=
  (t / (1 + PrimFloat.sqrt (1 + t * t)))%float.

Definition atan_unit (t : float64) : float64 :=
  let u := atan_half (atan_half t) in
  (4 * (u * atan_series (u * u) 20 0))%float.

Definition math_Atan (t : float64) : float64 :=
  if (1 <? PrimFloat.abs t)%float then
    (math_Copysign (Pi / 2) t - atan_unit (1 / t))%float
  else atan_unit t.

(** [math.Atan2], with the special cases of the Go library. *)
Definition math_Atan2 (y x : float64) : float64 :=
  if math_IsNaN x || math_IsNaN y then nan
  else if (y =? 0)%float then
    if (0 <=? x)%float && negb (PrimFloat.get_sign x) then math_Copysign 0 y
    else math_Copysign Pi y
  else if (x =? 0)%float then math_Copysign (Pi / 2) y
  else if math_IsInf x then
    if (x =? infinity)%float then
      if math_IsInf y then math_Copysign (Pi / 4) y else math_Copysign 0 y
    else
      if math_IsInf y then math_Copysign (3 * Pi / 4) y else math_Copysign Pi y
  else if math_IsInf y then math_Copysign (Pi / 2) y
  else
    let q := math_Atan (y / x) in
    if (x <? 0)%float then
      if (q <=? 0)%float then (q + Pi)%float else (q - Pi)%float
    else q.

End Reference.

(* ===================================================================== *)
(** ** Predicates and functions of the statements *)
(* ===================================================================== *)

(** One of the two zeros of binary64. *)
Definition is_zero_value (x : float64) : Prop := x = 0%float \/ x = (-0)%float.


(** NaN, or a value whose sign bit is clear. *)
Definition sign_clear (x : spec_float) : bool :=
  match x with
  | S754_nan => true
  | S754_zero s | S754_infinity s | S754_finite s _ _ => negb s
  end.

(** Both parts finite: what [cmplx.Exp] returns on a finite angle. *)
Definition cfinite (z : complex128) : Prop :=
  PrimFloat.is_finite (re z) = true /\ PrimFloat.is_finite (im z) = true.

Definition Exp_finite (cmplx_Exp : complex128 -> complex128) : Prop :=
  forall angle : float64,
    PrimFloat.is_finite angle = true -> cfinite (cmplx_Exp (Cplx 0%float angle)).

(** The value a sample or a bin is rejected for. *)
Definition bad_value (v : float64) : bool := math_IsNaN v || math_IsInf v.
Definition bad_complex (v : complex128) : bool := cmplx_IsNaN v || cmplx_IsInf v.

(** The error of [ValidateSignal] for the sample at index [i]. *)
Definition value_error (i : nat) (v : float64) : error :=
  if math_IsNaN v then
    NewValidationError "Values" ("NaN value found at index " ++ fmt_d i)
  else
    NewValidationError "Values" ("infinite value found at index " ++ fmt_d i).

(** The frequency of bin [i] in the layout of [generateFrequencies]. *)
Definition bin_frequency (n : nat) (sampleRate : float64) (i : nat) : float64 :=
  if (i <? n / 2)%nat then
    (float64_of_int (Z.of_nat i) * sampleRate / float64_of_int (Z.of_nat n))%float
  else
    (float64_of_int (Z.of_nat i - Z.of_nat n) * sampleRate
     / float64_of_int (Z.of_nat n))%float.

(** The number of bins [GetPositiveFrequencies] keeps out of [n]. *)
Definition half_length (n : nat) : nat :=
  if (n / 2 =? 0)%nat then 1 else n / 2.

Definition negative (f : float64) : bool := (f <? 0)%float.

(** The spectrum cut to its first [half_length] bins. *)
Definition truncate (cs : ComplexSignal) : ComplexSignal :=
  let h := half_length (length (cValues cs)) in
  mkComplexSignal (cTimestamp cs) (firstn h (cValues cs))
                  (firstn h (cFrequencies cs)).

(** Transform, then extraction: step 2 of the impedance computation. *)
Definition halfSpectrum (cmplx_Exp : complex128 -> complex128) (sig : Signal)
  : res ComplexSignal :=
  match ProcessSignal cmplx_Exp sig with
  | Err err => Err err
  | Ok full => GetPositiveFrequencies full
  end.

(** The value the division loop stores at bin [i]. *)
Definition impedance_bin (voltage current : list complex128) (i : nat)
  : complex128 :=
  if (cmplx_Abs (nth i current czero) <? near_zero_current)%float
  then Cplx 0%float 0%float
  else cdiv (nth i voltage czero) (nth i current czero).

(** The drift test of [ValidateSignalsMatch]: the difference of the two
    timestamps, in float64 seconds, is more than 0.1 in absolute value. *)
Definition timestamp_drift (voltageSignal currentSignal : Signal) : bool :=
  (drift_tolerance
   <? PrimFloat.abs (Duration_Seconds (Time_Sub (Timestamp voltageSignal)
                                                (Timestamp currentSignal))))%float.

Definition TimestampDrift : error :=
  ValidationError "Timestamp"
    "voltage and current signals have significantly different timestamps".

Definition czero_value (z : complex128) : Prop :=
  is_zero_value (re z) /\ is_zero_value (im z).

(** Real part 1 and imaginary part a zero: equal to [1+0i] for [==]. *)
Definition cone_value (z : complex128) : Prop :=
  re z = 1%float /\ is_zero_value (im z).

(** A value that is a zero, or finite with [|x| < 2^B]. *)
Definition mag_le (B : Z) (x : spec_float) : Prop :=
  match x with
  | S754_zero _ => True
  | S754_finite _ m e => (Z.pos (digits2_pos m) + e <= B)%Z
  | _ => False
  end.

(** A value that is not a zero, with [2^(B-1) <= |x|]. *)
Definition mag_ge (B : Z) (x : spec_float) : Prop :=
  match x with
  | S754_finite _ m e => (B <= Z.pos (digits2_pos m) + e)%Z
  | S754_infinity _ => True
  | _ => False
  end.

(** The mantissa and the exponent of the binary64 value of [0.1]. *)
Definition tolerance_mantissa : positive := 7205759403792794.
Definition tolerance_exponent : Z := (-56)%Z.

(** A value whose absolute value is above [0.1]. *)
Definition above_tolerance (x : spec_float) : Prop :=
  match x with
  | S754_infinity _ => True
  | S754_finite _ m e =>
      (tolerance_exponent < e)%Z
      \/ (e = tolerance_exponent /\ (Z.pos tolerance_mantissa < Z.pos m)%Z)
  | _ => False
  end.

Definition nanos_mantissa : positive := 8388608000000000.

(* ===================================================================== *)
(** ** Signals and spectra of the test suite *)
(* ===================================================================== *)

(** The DC measurement of the test suite: voltage [2,0,0,0], current
    [1,0,0,0], sample rate 4; the two timestamps are 100 ms apart. *)
Definition dc_voltage : Signal :=
  mkSignal 1700000000000000000 [2; 0; 0; 0]%float 4%float.
Definition dc_current : Signal :=
  mkSignal 1700000000100000000 [1; 0; 0; 0]%float 4%float.
Definition dc_impedance : ImpedanceData :=
  mkImpedanceData 1700000000000000000
    [Cplx 2 0; Cplx 2 0]%float [0; 1]%float [2; 2]%float [0; 0]%float.



(** The spectra of the test suite, of lengths 4 and 1. *)
Definition four_bins : ComplexSignal :=
  mkComplexSignal 1700000000000000000
    [Cplx 1 0; Cplx 2 1; Cplx 3 2; Cplx 4 3]%float
    [0; 100; 200; 300]%float.

(** A one-sample signal, and the spectrum [ProcessSignal] returns for it. *)
Definition one_sample : Signal :=
  mkSignal 1700000000000000000 [1]%float 4%float.
Definition one_sample_spectrum : ComplexSignal :=
  mkComplexSignal 1700000000000000000 [Cplx 1 0]%float [-4]%float.

(** One finite sample, a non-zero timestamp, and a sample rate that is not a
    number. *)
Definition nan_rate : Signal := mkSignal 1700000000000000000 [1]%float nan.

(** Two valid signals that differ in length and in sample rate, the length
    being checked first. *)
Definition two_at_4 : Signal :=
  mkSignal 1700000000000000000 [1; 2]%float 4%float.
Definition one_at_8 : Signal :=
  mkSignal 1700000000000000000 [1]%float 8%float.
(** Signals 100 ms + 1 ns apart, and exactly 100 ms apart. *)
Definition late_current : Signal :=
  mkSignal 1700000000100000001 [1; 2]%float 4%float.
Definition on_time_current : Signal :=
  mkSignal 1700000000100000000 [1; 2]%float 4%float.


(** The impulse of the test suite: [1,0,0,0] at sample rate 4. *)
Definition impulse : Signal :=
  mkSignal 1700000000000000000 [1; 0; 0; 0]%float 4%float.

(* ===================================================================== *)
(** ** pkg/signal, pkg/impedance and pkg/config: further functions *)
(* ===================================================================== *)

(** [(s *Signal) Duration()]. *)
Definition Signal_Duration (s : Signal) : float64 :=
  if (SampleRate s <=? 0)%float || (length (Values s) =? 0)%nat then 0%float
  else (float64_of_nat (length (Values s)) / SampleRate s)%float.

(** [signal.ImpedancePoint] and [signal.EISMeasurement]. *)
Record ImpedancePoint : Set := mkImpedancePoint {
  Frequency : float64;
  Real : float64;
  Imag : float64 }.

Abbreviation EISMeasurement := (list ImpedancePoint) (only parsing).

(** The conversion loop of [ProcessEISMeasurement],
    [for i, z := range impedanceData.Impedance]; the load
    [impedanceData.Frequencies[i]] panics out of range, and [None] is that
    panic. *)
Definition measurement_points (impedanceData : ImpedanceData)
  : option EISMeasurement :=
  snd (fold_left
         (fun (st : nat * option EISMeasurement) (z : complex128) =>
            (S (fst st),
             match snd st, nth_error (zFrequencies impedanceData) (fst st) with
             | Some measurement, Some frequency =>
                 Some (store (fst st)
                         (mkImpedancePoint frequency (re z) (im z)) measurement)
             | _, _ => None
             end))
         (Impedance impedanceData)
         (0, Some (make (mkImpedancePoint 0 0 0)
                        (length (Impedance impedanceData))))).

Section Measurement.

Variable cmplx_Exp : complex128 -> complex128.
Variable math_Atan2 : float64 -> float64 -> float64.

(** [ProcessEISMeasurement]; [None] is a run-time panic. *)
Definition ProcessEISMeasurement (voltageSignal currentSignal : Signal)
  : option (res EISMeasurement) :=
  match ValidateSignals voltageSignal currentSignal with
  | Some err => Some (Err (NewProcessingError "signal validation" err))
  | None =>
      match CalculateImpedance cmplx_Exp math_Atan2
                               voltageSignal currentSignal with
      | Err err => Some (Err (NewProcessingError "impedance calculation" err))
      | Ok impedanceData =>
          match measurement_points impedanceData with
          | Some measurement => Some (Ok measurement)
          | None => None
          end
      end
  end.

End Measurement.

Module config.

(** [config.Config]; [SamplesPerSecond] is a Go [int]. *)
Record Config : Set := mkConfig {
  TargetURL : string;
  SampleRate : float64;
  SamplesPerSecond : Z }.

(** The literal [1000000] as a binary64 value. *)
Definition sample_rate_limit : float64 := 0x1.e848p+19%float.

Definition NewConfig : Config :=
  mkConfig "http://localhost:8080/eis-data" 0x1.f4p+9%float 1000.

(** [(c *Config) Validate()]. *)
Definition Validate (c : Config) : option error :=
  if (SampleRate c <=? 0)%float then
    Some (NewValidationError "SampleRate" "sample rate must be greater than 0")
  else if (SamplesPerSecond c <=? 0)%Z then
    Some (NewValidationError "SamplesPerSecond"
            "samples per second must be greater than 0")
  else if String.eqb (TargetURL c) "" then
    Some (NewValidationError "TargetURL" "target URL cannot be empty")
  else if (sample_rate_limit <? SampleRate c)%float then
    Some (NewValidationError "SampleRate"
            "sample rate exceeds reasonable limit (1MHz)")
  else if (100000 <? SamplesPerSecond c)%Z then
    Some (NewValidationError "SamplesPerSecond"
            "samples per second exceeds reasonable limit (100k)")
  else None.

End config.

(* ===================================================================== *)
(** ** pkg/signal: the CSV loader *)
(* ===================================================================== *)

(** Conventions of this part.
    - the arithmetic of the chunking loop is on Go [int]s, 64 bits wide:
      [wrap_int] is the value a sum or difference wraps to, [/] truncates
      ([Z.quot]) and panics on a zero divisor; the limits of memory are not
      modelled;
    - a call either returns, panics or, in the model only, runs out of the
      rounds it was given: [outcome];
    - the file system and the parsers belong to the Go library and are the
      variables of Section [Loader]: [os.Open] and [ReadAll] of a
      [csv.Reader] as functions of the file name,
      [time.Parse(time.RFC3339Nano, _)] and [strconv.ParseFloat(_, 64)] as
      functions of the text; an error made by [fmt.Errorf] is the [Errorf] of
      its message. *)

(** The value of an [int] expression whose exact result is [z]. *)
Definition wrap_int (z : Z) : Z := ((z + 2 ^ 63) mod 2 ^ 64 - 2 ^ 63)%Z.

(** [int(f)]: the fraction is discarded (truncation towards zero); a value
    that does not fit an [int], an infinity or a NaN converts as the amd64
    instruction does, to the least [int]. *)
Definition int_of_float64 (f : float64) : Z :=
  match Prim2SF f with
  | S754_zero _ => 0%Z
  | S754_finite s m e =>
      let a := if (0 <=? e)%Z then (Z.pos m * 2 ^ e)%Z
               else (Z.pos m / 2 ^ (- e))%Z in
      let v := if s then (- a)%Z else a in
      if ((- 2 ^ 63 <=? v) && (v <? 2 ^ 63))%Z then v else (- 2 ^ 63)%Z
  | _ => (- 2 ^ 63)%Z
  end.

Inductive outcome (A : Type) : Type :=
| Returned (r : res A)
| Panicked
| OutOfFuel.
Arguments Returned {A} r.
Arguments Panicked {A}.
Arguments OutOfFuel {A}.

(** [a[i:e]]; [None] is the panic of a slice expression whose bounds are out
    of range (the upper bound is the capacity, which is at least the
    length; the loader never slices beyond the length). *)
Definition slice (A : Type) (a : list A) (i e : Z) : option (list A) :=
  if ((0 <=? i) && (i <=? e) && (e <=? Z.of_nat (length a)))%Z
  then Some (firstn (Z.to_nat (e - i)) (skipn (Z.to_nat i) a))
  else None.

Section Loader.

Variable os_Open : string -> option error.
Variable csv_ReadAll : string -> res (list (list string)).
Variable time_Parse : string -> res Time.
Variable strconv_ParseFloat : string -> res float64.

(** The loop [for i, record := range records] of [parseSignalChunk], from
    record [i] on. *)
Fixpoint parse_records (i : nat) (records : list (list string))
         (values : list float64) (timestamp : Time)
  : res (list float64 * Time) :=
  match records with
  | [] => Ok (values, timestamp)
  | record :: rest =>
      if (length record <? 3)%nat then
        Err (NewValidationError "Record"
               ("record " ++ fmt_d i ++ " must have at least 3 columns"))
      else
        match (if (i =? 0)%nat then
                 match time_Parse (nth 0 record ""%string) with
                 | Err err =>
                     Err (NewProcessingError "timestamp parsing"
                            (Errorf ("invalid timestamp format in record "
                                     ++ fmt_d i ++ ": " ++ Error err)))
                 | Ok parsedTime => Ok parsedTime
                 end
               else Ok timestamp) with
        | Err e => Err e
        | Ok timestamp' =>
            match strconv_ParseFloat (nth 2 record ""%string) with
            | Err err =>
                Err (NewProcessingError "value parsing"
                       (Errorf ("invalid value in record " ++ fmt_d i ++ ": "
                                ++ Error err)))
            | Ok value =>
                parse_records (S i) rest (store i value values) timestamp'
            end
        end
  end.

Definition parseSignalChunk (records : list (list string))
           (sampleRate : float64) : res Signal :=
  if (length records =? 0)%nat then
    Err (NewValidationError "Records" "empty record chunk")
  else
    match parse_records 0 records (make 0%float (length records)) 0%Z with
    | Err e => Err e
    | Ok (values, timestamp) => Ok (mkSignal timestamp values sampleRate)
    end.

(** The loop [for i := 0; i < len(records); i += samplesPerSecond] of
    [LoadSignalFromCSV], from index [i] on, for at most [fuel] rounds. *)
Fixpoint load_chunks (fuel : nat) (records : list (list string))
         (sampleRate : float64) (samplesPerSecond i : Z)
         (signals : list Signal) : outcome (list Signal) :=
  if negb (i <? Z.of_nat (length records))%Z then Returned (Ok signals)
  else
    match fuel with
    | O => OutOfFuel
    | S fuel' =>
        let end_ := wrap_int (i + samplesPerSecond) in
        let end_ := if (Z.of_nat (length records) <? end_)%Z
                    then Z.of_nat (length records) else end_ in
        match slice records i end_ with
        | None => Panicked
        | Some chunk =>
            match parseSignalChunk chunk sampleRate with
            | Err err =>
                Returned (Err (NewProcessingError "signal parsing" err))
            | Ok signal =>
                match ValidateSignal signal with
                | Some err =>
                    Returned (Err (NewProcessingError "signal validation" err))
                | None =>
                    load_chunks fuel' records sampleRate samplesPerSecond
                                (wrap_int (i + samplesPerSecond))
                                (signals ++ [signal])
                end
            end
        end
    end.

(** The signals of the consecutive chunks of [n] rows of [rest]: each chunk
    parses to its signal, and the signal is valid. *)
Fixpoint chunked (sampleRate : float64) (n : nat) (signals : list Signal)
         (rest : list (list string)) : Prop :=
  match signals with
  | [] => rest = []
  | signal :: signals' =>
      rest <> []
      /\ parseSignalChunk (firstn n rest) sampleRate = Ok signal
      /\ ValidateSignal signal = None
      /\ chunked sampleRate n signals' (skipn n rest)
  end.

(** [LoadSignalFromCSV]: the division panics on a zero divisor and
    [make([]Signal, 0, totalSignals)] on a negative capacity; the loop is
    given one round for each data row. *)
Definition LoadSignalFromCSV (filename : string) (sampleRate : float64)
  : outcome (list Signal) :=
  match os_Open filename with
  | Some err =>
      Returned (Err (NewProcessingError "file opening"
                       (Errorf ("failed to open " ++ filename ++ ": "
                                ++ Error err))))
  | None =>
      match csv_ReadAll filename with
      | Err err =>
          Returned (Err (NewProcessingError "CSV reading"
                           (Errorf ("failed to read CSV: " ++ Error err))))
      | Ok records =>
          if (length records <? 2)%nat then
            Returned (Err (NewValidationError "Data"
                        "CSV file must have at least header and one data row"))
          else
            let records := skipn 1 records in
            let samplesPerSecond := int_of_float64 sampleRate in
            if (samplesPerSecond =? 0)%Z then Panicked
            else
              let totalSignals :=
                wrap_int (Z.quot (wrap_int (wrap_int (Z.of_nat (length records)
                                                      + samplesPerSecond) - 1))
                                 samplesPerSecond) in
              if (totalSignals <? 0)%Z then Panicked
              else load_chunks (length records) records sampleRate
                               samplesPerSecond 0 []
      end
  end.

(** The loop [for i, voltageSignal := range voltageSignals] of
    [LoadVoltageAndCurrentFromCSV], from pair [i] on; [None] is the panic of
    the load [currentSignals[i]] out of range. *)
Fixpoint match_pairs (i : nat) (voltageSignals currentSignals : list Signal)
  : option (option error) :=
  match voltageSignals with
  | [] => Some None
  | voltageSignal :: rest =>
      match nth_error currentSignals i with
      | None => None
      | Some currentSignal =>
          match ValidateSignalsMatch voltageSignal currentSignal with
          | Some err =>
              Some (Some (NewProcessingError
                            ("signal pair " ++ fmt_d i ++ " validation") err))
          | None => match_pairs (S i) rest currentSignals
          end
      end
  end.

Definition LoadVoltageAndCurrentFromCSV (voltageFile currentFile : string)
           (sampleRate : float64) : outcome (list Signal * list Signal) :=
  match LoadSignalFromCSV voltageFile sampleRate with
  | Panicked => Panicked
  | OutOfFuel => OutOfFuel
  | Returned (Err err) => Returned (Err (NewProcessingError "voltage loading" err))
  | Returned (Ok voltageSignals) =>
      match LoadSignalFromCSV currentFile sampleRate with
      | Panicked => Panicked
      | OutOfFuel => OutOfFuel
      | Returned (Err err) =>
          Returned (Err (NewProcessingError "current loading" err))
      | Returned (Ok currentSignals) =>
          if negb (length voltageSignals =? length currentSignals)%nat then
            Returned (Err (NewValidationError "DataLength"
              ("voltage and current must have same number of signals: got "
               ++ fmt_d (length voltageSignals) ++ " voltage, "
               ++ fmt_d (length currentSignals) ++ " current")))
          else
            match match_pairs 0 voltageSignals currentSignals with
            | None => Panicked
            | Some (Some err) => Returned (Err err)
            | Some None => Returned (Ok (voltageSignals, currentSignals))
            end
      end
  end.

End Loader.

(** A file system with two files of five data rows each, at two rows a
    second, and parsers that read the texts of these files. *)
Module Files.

Definition header : list string := ["timestamp"; "time_offset"; "value"]%string.

Definition voltage_rows : list (list string) :=
  [["t0"; "0"; "1"]; ["t1"; "0.5"; "2"]; ["t2"; "1"; "3"];
   ["t3"; "1.5"; "4"]; ["t4"; "2"; "5"]]%string.

Definition current_rows : list (list string) :=
  [["t0"; "0"; "0.5"]; ["t1"; "0.5"; "1"]; ["t2"; "1"; "1.5"];
   ["t3"; "1.5"; "2"]; ["t4"; "2"; "0.5"]]%string.

Definition os_Open (filename : string) : option error :=
  if String.eqb filename "voltage.csv" || String.eqb filename "current.csv"
  then None
  else Some (Errorf ("open " ++ filename ++ ": no such file or directory")).

Definition csv_ReadAll (filename : string) : res (list (list string)) :=
  if String.eqb filename "voltage.csv" then Ok (header :: voltage_rows)
  else if String.eqb filename "current.csv" then Ok (header :: current_rows)
  else Err (Errorf "read: bad file descriptor").

Definition time_Parse (s : string) : res Time :=
  if String.eqb s "t0" then Ok 1700000000000000000%Z
  else if String.eqb s "t1" then Ok 1700000000500000000%Z
  else if String.eqb s "t2" then Ok 1700000001000000000%Z
  else if String.eqb s "t3" then Ok 1700000001500000000%Z
  else if String.eqb s "t4" then Ok 1700000002000000000%Z
  else Err (Errorf "parsing time: cannot parse").

Definition strconv_ParseFloat (s : string) : res float64 :=
  if String.eqb s "0" then Ok 0%float
  else if String.eqb s "0.5" then Ok 0.5%float
  else if String.eqb s "1" then Ok 1%float
  else if String.eqb s "1.5" then Ok 1.5%float
  else if String.eqb s "2" then Ok 2%float
  else if String.eqb s "3" then Ok 3%float
  else if String.eqb s "4" then Ok 4%float
  else if String.eqb s "5" then Ok 5%float
  else Err (Errorf "strconv.ParseFloat: invalid syntax").

(** The signals of the two files at 2 Hz. *)
Definition voltage_signals : list Signal :=
  [mkSignal 1700000000000000000 [1; 2] 2;
   mkSignal 1700000001000000000 [3; 4] 2;
   mkSignal 1700000002000000000 [5] 2]%float.

Definition current_signals : list Signal :=
  [mkSignal 1700000000000000000 [0.5; 1] 2;
   mkSignal 1700000001000000000 [1.5; 2] 2;
   mkSignal 1700000002000000000 [0.5] 2]%float.

End Files.

(* ===================================================================== *)
(** ** Further predicates and functions of the statements *)
(* ===================================================================== *)

(** The errors of [ValidateComplexSignal] for the value and for the frequency
    at index [i]. *)
Definition complex_value_error (i : nat) (v : complex128) : error :=
  if cmplx_IsNaN v then
    NewValidationError "Values" ("NaN complex value found at index " ++ fmt_d i)
  else
    NewValidationError "Values"
      ("infinite complex value found at index " ++ fmt_d i).

Definition frequency_error (i : nat) (f : float64) : error :=
  if math_IsNaN f then
    NewValidationError "Frequencies" ("NaN frequency found at index " ++ fmt_d i)
  else
    NewValidationError "Frequencies"
      ("infinite frequency found at index " ++ fmt_d i).

(** A value whose absolute value is at most [0.1]. *)
Definition within_tolerance (x : spec_float) : Prop :=
  match x with
  | S754_zero _ => True
  | S754_finite _ m e =>
      (e < tolerance_exponent)%Z
      \/ (e = tolerance_exponent /\ (Z.pos m <= Z.pos tolerance_mantissa)%Z)
  | _ => False
  end.

(** The mantissa of the binary64 value 1, whose exponent is -52. *)
Definition one_mantissa : positive := 4503599627370496.

(** The value or the error of the division loop at bin [i]. *)
Definition impedance_step (voltage current : list complex128) (i : nat)
  : res complex128 :=
  if (cmplx_Abs (nth i current czero) <? near_zero_current)%float
  then Ok (Cplx 0%float 0%float)
  else if bad_complex (cdiv (nth i voltage czero) (nth i current czero))
       then Err (NewProcessingError "impedance calculation"
              (NewValidationError "Impedance"
                 ("invalid impedance value at frequency index " ++ fmt_d i)))
       else Ok (cdiv (nth i voltage czero) (nth i current czero)).

(** The point of bin [i]. *)
Definition impedance_point (d : ImpedanceData) (i : nat) : ImpedancePoint :=
  mkImpedancePoint (nth i (zFrequencies d) 0%float)
                   (re (nth i (Impedance d) czero))
                   (im (nth i (Impedance d) czero)).

(** The twiddle angles [-2*pi*k*j/n] of the direct sum and [-2*pi*k/n] of
    the butterfly, as the source computes them. *)
Definition dft_angle (n k j : nat) : float64 :=
  (minus_two_pi * float64_of_nat k * float64_of_nat j / float64_of_nat n)%float.

Definition fft_angle (n k : nat) : float64 :=
  (minus_two_pi * float64_of_nat k / float64_of_nat n)%float.

(** The sum of bin [k] of the direct transform, added up from [j = 0]. *)
Definition dft_sum (cmplx_Exp : complex128 -> complex128)
           (x : list complex128) (k : nat) : complex128 :=
  fold_left
    (fun sum j =>
       cadd sum (cmul (nth j x czero)
                      (cmplx_Exp (Cplx 0%float (dft_angle (length x) k j)))))
    (seq 0 (length x)) (Cplx 0%float 0%float).

(** The samples of even and of odd index. *)
Definition even_samples (x : list complex128) : list complex128 :=
  map (fun i => nth (2 * i) x czero) (seq 0 (length x / 2)).

Definition odd_samples (x : list complex128) : list complex128 :=
  map (fun i => nth (2 * i + 1) x czero) (seq 0 (length x / 2)).

(** A spectrum whose second value and second frequency are NaN. *)
Definition nan_spectrum : ComplexSignal :=
  mkComplexSignal 1700000000000000000 [Cplx 1 0; Cplx nan 0]%float
                  [0; nan]%float.

(** Three and four complex samples. *)
Definition three_complex : list complex128 :=
  [Cplx 1 0; Cplx 2 0; Cplx 3 0]%float.
Definition four_complex : list complex128 :=
  [Cplx 1 0; Cplx 2 0; Cplx 3 0; Cplx 4 0]%float.

(* ===================================================================== *)
(** ** Slices and loops *)
(* ===================================================================== *)

Section SliceFacts.

Variable A : Type.

Lemma store_length (i : nat) (v : A) (a : list A) :
  length (store i v a) = length a.
Proof.
  revert i; induction a as [|h t IH]; intros [|i]; simpl; auto.
Qed.

Lemma nth_store_same (i : nat) (v d : A) (a : list A) :
  i < length a -> nth i (store i v a) d = v.
Proof.
  revert i; induction a as [|h t IH]; intros [|i] H; simpl in *;
    try lia; auto.
  apply IH; lia.
Qed.

Lemma nth_store_other (i j : nat) (v d : A) (a : list A) :
  i <> j -> nth j (store i v a) d = nth j a d.
Proof.
  revert i j; induction a as [|h t IH]; intros [|i] [|j] H; simpl;
    try reflexivity; try congruence.
  apply IH; congruence.
Qed.

Lemma make_length (z : A) (n : nat) : length (make z n) = n.
Proof. apply repeat_length. Qed.

(** Two slices of one length with the same elements are the same slice. *)
Lemma nth_ext_eq (d : A) (l l' : list A) :
  length l = length l' ->
  (forall i, i < length l -> nth i l d = nth i l' d) -> l = l'.
Proof.
  intros H1 H2. apply (nth_ext l l' d d); auto.
Qed.

End SliceFacts.

Section LoopFacts.

Variables S B : Type.

Lemma for_loop_ext (f g : nat -> S -> res S) :
  (forall i s, f i s = g i s) ->
  forall count start s, for_loop start count f s = for_loop start count g s.
Proof.
  intros E; induction count as [|c IH]; intros start s; simpl; auto.
  rewrite E. destruct (g start s); auto.
Qed.

(** A loop whose body stores one computed value at its own index. *)
Lemma for_loop_store (f : nat -> res B) (d : B) :
  forall count start (a r : list B),
    for_loop start count
      (fun i a => match f i with Err e => Err e | Ok v => Ok (store i v a) end)
      a = Ok r ->
    start + count <= length a ->
    length r = length a
    /\ (forall i, start <= i < start + count -> f i = Ok (nth i r d))
    /\ (forall i, i < start \/ start + count <= i -> nth i r d = nth i a d).
Proof.
  induction count as [|c IH]; intros start a r H L; simpl in H.
  - inversion H; subst. repeat split; auto. intros; lia.
  - destruct (f start) as [v|e] eqn:Ef; [|discriminate].
    apply IH in H; [|rewrite store_length; lia].
    destruct H as (H1 & H2 & H3). rewrite store_length in H1.
    repeat split; auto.
    + intros i Hi. destruct (Nat.eq_dec i start) as [->|Hne].
      * rewrite H3 by lia. rewrite nth_store_same by lia. assumption.
      * apply H2; lia.
    + intros i Hi. rewrite H3 by lia. apply nth_store_other; lia.
Qed.

(** The same loop never fails when its body never does. *)
Lemma for_loop_store_total (f : nat -> res B) :
  forall count start (a : list B),
    (forall i, start <= i < start + count -> exists v, f i = Ok v) ->
    exists r,
      for_loop start count
        (fun i a => match f i with Err e => Err e | Ok v => Ok (store i v a) end)
        a = Ok r.
Proof.
  induction count as [|c IH]; intros start a H; simpl.
  - eexists; reflexivity.
  - destruct (H start) as [v Hv]; [lia|]. rewrite Hv.
    apply IH. intros i Hi; apply H; lia.
Qed.

Lemma for_each_store (g : nat -> B) (d : B) :
  forall count start (a : list B),
    start + count <= length a ->
    let r := for_each start count (fun i a => store i (g i) a) a in
    length r = length a
    /\ (forall i, start <= i < start + count -> nth i r d = g i)
    /\ (forall i, i < start \/ start + count <= i -> nth i r d = nth i a d).
Proof.
  induction count as [|c IH]; intros start a L; simpl.
  - repeat split; auto. intros; lia.
  - destruct (IH (Datatypes.S start) (store start (g start) a)) as (H1 & H2 & H3);
      [rewrite store_length; lia|].
    rewrite store_length in H1. repeat split; auto.
    + intros i Hi. destruct (Nat.eq_dec i start) as [->|Hne].
      * rewrite H3 by lia. apply nth_store_same; lia.
      * apply H2; lia.
    + intros i Hi. rewrite H3 by lia. apply nth_store_other; lia.
Qed.

End LoopFacts.

(** [for i, v := range l { a[i] = f v }] computes [map f l]. *)
Lemma range_store_map (A B : Type) (zero : B) (f : A -> B) (l : list A) :
  range_store zero f l = map f l.
Proof.
  unfold range_store.
  assert (G : forall (l : list A) (pre post : list B),
             length post = length l ->
             snd (fold_left (fun (st : nat * list B) (v : A) =>
                               (S (fst st), store (fst st) (f v) (snd st)))
                            l (length pre, pre ++ post))
             = pre ++ map f l).
  { clear l. induction l as [|x l IH]; intros pre post H; simpl.
    - destruct post; [reflexivity|discriminate].
    - destruct post as [|p post]; [discriminate|]. simpl in H.
      replace (store (length pre) (f x) (pre ++ p :: post))
        with ((pre ++ [f x]) ++ post).
      + replace (S (length pre)) with (length (pre ++ [f x]))
          by (rewrite length_app; simpl; lia).
        rewrite IH by lia. rewrite <- app_assoc. reflexivity.
      + rewrite <- app_assoc. simpl. clear.
        induction pre as [|h t IHp]; simpl; [reflexivity|].
        now rewrite IHp. }
  apply (G l [] (make zero (length l))). apply make_length.
Qed.

Lemma CalculateMagnitudePhase_map (atan2 : float64 -> float64 -> float64)
      (z : ImpedanceData) :
  CalculateMagnitudePhase atan2 z
  = (map cmplx_Abs (Impedance z),
     map (fun imp => atan2 (im imp) (re imp)) (Impedance z)).
Proof.
  unfold CalculateMagnitudePhase.
  rewrite <- (range_store_map 0%float cmplx_Abs (Impedance z)).
  rewrite <- (range_store_map 0%float (fun imp => atan2 (im imp) (re imp))
                              (Impedance z)).
  unfold range_store.
  generalize (make 0%float (length (Impedance z))) at 1 3.
  generalize (make 0%float (length (Impedance z))).
  generalize 0%nat. generalize (Impedance z).
  induction l as [|x l IH]; intros n a b; simpl; [reflexivity|].
  rewrite IH. reflexivity.
Qed.

Lemma for_each_ext (S : Type) (f g : nat -> S -> S) :
  (forall i s, f i s = g i s) ->
  forall count start s, for_each start count f s = for_each start count g s.
Proof.
  intros E; induction count as [|c IH]; intros start s; simpl; auto.
  rewrite E. apply IH.
Qed.

(** A loop whose body keeps the length of the slice it updates. *)
Lemma for_loop_length (B : Type) (body : nat -> list B -> res (list B)) :
  (forall i a a', body i a = Ok a' -> length a' = length a) ->
  forall count start a r,
    for_loop start count body a = Ok r -> length r = length a.
Proof.
  intros Hb; induction count as [|c IH]; intros start a r H; simpl in H.
  - now inversion H.
  - destruct (body start a) as [a'|e] eqn:Eb; [|discriminate].
    rewrite (IH _ _ _ H). eauto.
Qed.

(** A loop whose body never fails returns a state. *)
Lemma for_loop_total (S : Type) (body : nat -> S -> res S) :
  forall count start s,
    (forall i s', start <= i < start + count -> exists s'', body i s' = Ok s'') ->
    exists r, for_loop start count body s = Ok r.
Proof.
  induction count as [|c IH]; intros start s H; simpl.
  - eexists; reflexivity.
  - destruct (H start s) as [s' Hs']; [lia|]. rewrite Hs'.
    apply IH. intros i s0 Hi; apply H; lia.
Qed.






Lemma for_each_invariant (S : Type) (P : S -> Prop) (body : nat -> S -> S) :
  (forall i s, P s -> P (body i s)) ->
  forall count start s, P s -> P (for_each start count body s).
Proof.
  intros Hb. induction count as [|c IH]; intros start s Hs; simpl; auto.
Qed.

Lemma existsb_firstn_false (A : Type) (p : A -> bool) (k : nat) (l : list A) :
  existsb p l = false -> existsb p (firstn k l) = false.
Proof.
  revert k; induction l as [|x l IH]; intros [|k]; simpl; auto.
  intros H. apply orb_false_elim in H as [H1 H2]. rewrite H1. simpl. auto.
Qed.

Lemma existsb_false_nth (A : Type) (p : A -> bool) (d : A) (l : list A) :
  existsb p l = false <-> (forall i, i < length l -> p (nth i l d) = false).
Proof.
  induction l as [|x l IH]; simpl.
  - split; [intros _ i Hi; lia|auto].
  - rewrite orb_false_iff, IH. split.
    + intros [H1 H2] [|i] Hi; [assumption|]. apply H2; lia.
    + intros H. split; [apply (H 0); lia|].
      intros i Hi. apply (H (S i)); lia.
Qed.

(* ===================================================================== *)
(** ** Facts about binary64 *)
(* ===================================================================== *)

Lemma SFcompare_refl_finite (s : bool) (m : positive) (e : Z) :
  SFcompare (S754_finite s m e) (S754_finite s m e) = Some Eq.
Proof.
  simpl. destruct s; rewrite Z.compare_refl, Pos.compare_cont_refl; reflexivity.
Qed.

Lemma is_nan_spec (x : float64) :
  PrimFloat.is_nan x
  = match Prim2SF x with S754_nan => true | _ => false end.
Proof.
  unfold PrimFloat.is_nan. rewrite FloatAxioms.eqb_spec. unfold SFeqb.
  destruct (Prim2SF x) as [s|s| |s m e]; try (destruct s; reflexivity);
    try reflexivity.
  now rewrite SFcompare_refl_finite.
Qed.

Lemma is_infinity_spec (x : float64) :
  PrimFloat.is_infinity x
  = match Prim2SF x with S754_infinity _ => true | _ => false end.
Proof.
  unfold PrimFloat.is_infinity. rewrite FloatAxioms.eqb_spec, FloatAxioms.abs_spec.
  change (Prim2SF infinity) with (S754_infinity false).
  destruct (Prim2SF x) as [s|s| |s m e]; reflexivity.
Qed.

Lemma is_finite_spec (x : float64) :
  PrimFloat.is_finite x
  = match Prim2SF x with S754_zero _ | S754_finite _ _ _ => true | _ => false end.
Proof.
  unfold PrimFloat.is_finite. rewrite is_nan_spec, is_infinity_spec.
  destruct (Prim2SF x); reflexivity.
Qed.

(** A float whose specification is a zero is one of the two zeros. *)
Lemma Prim2SF_zero (x : float64) (s : bool) :
  Prim2SF x = S754_zero s -> is_zero_value x.
Proof.
  intros H. rewrite <- (SF2Prim_Prim2SF x), H.
  destruct s; [right|left]; reflexivity.
Qed.

Lemma is_zero_value_sf (x : float64) :
  is_zero_value x -> exists s, Prim2SF x = S754_zero s.
Proof.
  intros [->| ->]; [exists false|exists true]; reflexivity.
Qed.








(** A finite factor times a zero is a zero. *)
Lemma finite_mul_zero_r (x z : float64) :
  PrimFloat.is_finite x = true -> is_zero_value z -> is_zero_value (x * z)%float.
Proof.
  rewrite is_finite_spec. intros Hx Hz.
  destruct (is_zero_value_sf Hz) as [s Hs].
  assert (H : exists s', Prim2SF (x * z)%float = S754_zero s').
  { rewrite FloatAxioms.mul_spec, Hs. unfold SF64mul.
    destruct (Prim2SF x); try discriminate; simpl; eauto. }
  destruct H as [s' H]. eapply Prim2SF_zero; eauto.
Qed.

Lemma zero_add_zero (a b : float64) :
  is_zero_value a -> is_zero_value b -> is_zero_value (a + b)%float.
Proof. intros [->| ->] [->| ->]; vm_compute; auto. Qed.

Lemma zero_sub_zero (a b : float64) :
  is_zero_value a -> is_zero_value b -> is_zero_value (a - b)%float.
Proof. intros [->| ->] [->| ->]; vm_compute; auto. Qed.

Lemma one_add_zero (z : float64) : is_zero_value z -> (1 + z)%float = 1%float.
Proof. intros [->| ->]; reflexivity. Qed.

Lemma one_sub_zero (z : float64) : is_zero_value z -> (1 - z)%float = 1%float.
Proof. intros [->| ->]; reflexivity. Qed.

Lemma binary_round_aux_sign (s : bool) (m e : Z) (l : location) :
  match binary_round_aux prec emax s m e l with
  | S754_nan => True
  | S754_zero s' | S754_infinity s' | S754_finite s' _ _ => s' = s
  end.
Proof.
  unfold binary_round_aux.
  destruct (shr_fexp prec emax m e l) as [mrs' e'].
  destruct (shr_fexp prec emax _ e' loc_Exact) as [mrs'' e''].
  destruct (shr_m mrs''); auto.
  destruct (Z.leb e'' (emax - prec)); auto.
Qed.

Lemma SFmul_sign_clear (x y : spec_float) :
  sign_clear x = true -> sign_clear y = true ->
  sign_clear (SFmul prec emax x y) = true.
Proof.
  destruct x as [[|]|[|]| |[|] mx ex], y as [[|]|[|]| |[|] my ey];
    simpl; try discriminate; auto.
  intros _ _.
  pose proof (binary_round_aux_sign false (Z.pos (mx * my)) (ex + ey) loc_Exact) as H.
  destruct (binary_round_aux prec emax false (Z.pos (mx * my)) (ex + ey) loc_Exact);
    simpl in *; subst; auto.
Qed.

Lemma SFdiv_sign_clear (x y : spec_float) :
  sign_clear x = true -> sign_clear y = true ->
  sign_clear (SFdiv prec emax x y) = true.
Proof.
  destruct x as [[|]|[|]| |[|] mx ex], y as [[|]|[|]| |[|] my ey];
    simpl; try discriminate; auto.
  intros _ _.
  destruct (SFdiv_core_binary prec emax (Z.pos mx) ex (Z.pos my) ey) as [[mz ez] lz].
  pose proof (binary_round_aux_sign false mz ez lz) as H.
  destruct (binary_round_aux prec emax false mz ez lz);
    simpl in *; subst; auto.
Qed.

Lemma of_uint63_sign_clear (n : int) :
  sign_clear (Prim2SF (PrimFloat.of_uint63 n)) = true.
Proof.
  rewrite FloatAxioms.of_uint63_spec.
  pose proof (Uint63.to_Z_bounded n) as B.
  destruct (Uint63.to_Z n) as [|p|p]; simpl; auto; [|lia].
  unfold binary_round.
  destruct (shl_align p 0 _) as [mz ez].
  pose proof (binary_round_aux_sign false (Z.pos mz) ez loc_Exact) as H.
  destruct (binary_round_aux prec emax false (Z.pos mz) ez loc_Exact);
    simpl in *; subst; auto.
Qed.

Lemma float64_of_nat_sign_clear (n : nat) :
  sign_clear (Prim2SF (float64_of_nat n)) = true.
Proof.
  unfold float64_of_nat, float64_of_int.
  destruct (Z.ltb_spec (Z.of_nat n) 0); [lia|]. apply of_uint63_sign_clear.
Qed.

(** What the guard [sampleRate <= 0] lets through. *)
Lemma leb_zero_false_sign_clear (x : float64) :
  (x <=? 0)%float = false -> sign_clear (Prim2SF x) = true.
Proof.
  rewrite FloatAxioms.leb_spec. change (Prim2SF 0) with (S754_zero false).
  destruct (Prim2SF x) as [[|]|[|]| |[|] m e]; unfold SFleb; simpl;
    auto; discriminate.
Qed.

Lemma sign_clear_not_negative (x : float64) :
  sign_clear (Prim2SF x) = true -> (x <? 0)%float = false.
Proof.
  rewrite FloatAxioms.ltb_spec. change (Prim2SF 0) with (S754_zero false).
  destruct (Prim2SF x) as [[|]|[|]| |[|] m e]; unfold SFltb; simpl;
    auto; discriminate.
Qed.

Lemma ltb_zero_leb_false (x : float64) :
  (0 <? x)%float = true -> (x <=? 0)%float = false.
Proof.
  rewrite FloatAxioms.ltb_spec, FloatAxioms.leb_spec. change (Prim2SF 0) with (S754_zero false).
  destruct (Prim2SF x) as [[|]|[|]| |[|] m e]; unfold SFltb, SFleb; simpl;
    auto; discriminate.
Qed.

Lemma leb_zero_false_not_nan (x : float64) :
  PrimFloat.is_nan x = false ->
  (x <=? 0)%float = false -> (0 <? x)%float = true.
Proof.
  rewrite is_nan_spec, FloatAxioms.ltb_spec, FloatAxioms.leb_spec.
  change (Prim2SF 0) with (S754_zero false).
  destruct (Prim2SF x) as [[|]|[|]| |[|] m e]; unfold SFltb, SFleb; simpl;
    auto; discriminate.
Qed.






Lemma cmul_finite_zero (w o : complex128) :
  cfinite w -> czero_value o -> czero_value (cmul w o).
Proof.
  intros [Hr Hi] [Zr Zi]. split; simpl.
  - apply zero_sub_zero; now apply finite_mul_zero_r.
  - apply zero_add_zero; now apply finite_mul_zero_r.
Qed.

Lemma cadd_zero_zero (a b : complex128) :
  czero_value a -> czero_value b -> czero_value (cadd a b).
Proof. intros [? ?] [? ?]. split; simpl; now apply zero_add_zero. Qed.

Lemma csub_zero_zero (a b : complex128) :
  czero_value a -> czero_value b -> czero_value (csub a b).
Proof. intros [? ?] [? ?]. split; simpl; now apply zero_sub_zero. Qed.

Lemma cadd_one_zero (a b : complex128) :
  cone_value a -> czero_value b -> cone_value (cadd a b).
Proof.
  intros [Hr Hi] [Zr Zi]. split; simpl.
  - rewrite Hr. now apply one_add_zero.
  - now apply zero_add_zero.
Qed.

Lemma csub_one_zero (a b : complex128) :
  cone_value a -> czero_value b -> cone_value (csub a b).
Proof.
  intros [Hr Hi] [Zr Zi]. split; simpl.
  - rewrite Hr. now apply one_sub_zero.
  - now apply zero_sub_zero.
Qed.

Lemma cone_value_eq (z : complex128) :
  cone_value z -> ceqb z (Cplx 1 0)%float = true /\ bad_complex z = false.
Proof.
  destruct z as [r i]. intros [Hr [Hi|Hi]]; simpl in *; subst; split; reflexivity.
Qed.

(* ===================================================================== *)
(** ** Exponent bounds for the rounding of binary64 *)
(* ===================================================================== *)

Section ExponentBounds.

Local Open Scope Z_scope.

Lemma digits2_pos_log2 (p : positive) :
  Z.pos (digits2_pos p) = Z.log2 (Z.pos p) + 1.
Proof.
  induction p as [p IH|p IH|]; simpl; try reflexivity.
  - rewrite Pos2Z.inj_succ, IH. destruct p; simpl; lia.
  - rewrite Pos2Z.inj_succ, IH. destruct p; simpl; lia.
Qed.

Lemma Zdigits2_log2 (m : Z) : 0 < m -> Zdigits2 m = Z.log2 m + 1.
Proof. destruct m; try lia. intros _. apply digits2_pos_log2. Qed.

Lemma Zdigits2_nonneg (m : Z) : 0 <= Zdigits2 m.
Proof. destruct m; simpl; lia. Qed.

Lemma Zdigits2_le (a b : Z) : 0 <= a <= b -> Zdigits2 a <= Zdigits2 b.
Proof.
  intros [Ha Hab]. destruct (Z.eq_dec a 0) as [->|Hn].
  - apply Zdigits2_nonneg.
  - rewrite !Zdigits2_log2 by lia. pose proof (Z.log2_le_mono a b Hab). lia.
Qed.

(** [m < 2^k] bounds the number of digits of [m] by [k]. *)
Lemma Zdigits2_lt_pow2 (m k : Z) : 0 <= m -> 0 <= k -> m < 2 ^ k -> Zdigits2 m <= k.
Proof.
  intros Hm Hk H. destruct (Z.eq_dec m 0) as [->|Hn]; [simpl; lia|].
  rewrite Zdigits2_log2 by lia.
  assert (Z.log2 m < k) by (apply Z.log2_lt_pow2; lia). lia.
Qed.

Lemma Zdigits2_bounds (m : Z) : 0 < m -> 2 ^ (Zdigits2 m - 1) <= m < 2 ^ Zdigits2 m.
Proof.
  intros Hm. rewrite Zdigits2_log2 by lia.
  replace (Z.log2 m + 1 - 1) with (Z.log2 m) by lia.
  replace (Z.log2 m + 1) with (Z.succ (Z.log2 m)) by lia.
  apply Z.log2_spec; lia.
Qed.

Lemma Zdigits2_upper (m : Z) : 0 <= m -> m < 2 ^ Zdigits2 m.
Proof.
  intros Hm. destruct (Z.eq_dec m 0) as [->|Hn]; [simpl; lia|].
  apply Zdigits2_bounds; lia.
Qed.

Lemma Zdigits2_succ (m : Z) : 0 <= m -> Zdigits2 (m + 1) <= Zdigits2 m + 1.
Proof.
  intros Hm. pose proof (Zdigits2_nonneg m).
  apply Zdigits2_lt_pow2; try lia.
  pose proof (Zdigits2_upper Hm).
  rewrite Z.pow_add_r by lia. lia.
Qed.

Lemma Zdigits2_div_pow2 (m p : Z) :
  0 <= m -> 0 <= p -> Zdigits2 (m / 2 ^ p) <= Z.max 0 (Zdigits2 m - p).
Proof.
  intros Hm Hp. pose proof (Zdigits2_nonneg m).
  assert (0 < 2 ^ p) by (apply Z.pow_pos_nonneg; lia).
  assert (0 <= m / 2 ^ p) by (apply Z.div_pos; lia).
  apply Zdigits2_lt_pow2; try lia.
  pose proof (Zdigits2_upper Hm) as Hu.
  apply Z.div_lt_upper_bound; [lia|].
  destruct (Z.le_gt_cases p (Zdigits2 m)).
  - rewrite Z.max_r by lia. rewrite <- Z.pow_add_r by lia.
    now replace (p + (Zdigits2 m - p)) with (Zdigits2 m) by lia.
  - rewrite Z.max_l by lia. simpl.
    assert (2 ^ Zdigits2 m <= 2 ^ p) by (apply Z.pow_le_mono_r; lia). lia.
Qed.

Lemma Zdigits2_mul (a b : Z) :
  0 <= a -> 0 <= b -> Zdigits2 (a * b) <= Zdigits2 a + Zdigits2 b.
Proof.
  intros Ha Hb. pose proof (Zdigits2_nonneg a). pose proof (Zdigits2_nonneg b).
  apply Zdigits2_lt_pow2; try lia.
  pose proof (Zdigits2_upper Ha). pose proof (Zdigits2_upper Hb).
  rewrite Z.pow_add_r by lia. nia.
Qed.

Lemma Zdigits2_shiftl (a s : Z) :
  0 < a -> 0 <= s -> Zdigits2 (Z.shiftl a s) = Zdigits2 a + s.
Proof.
  intros Ha Hs. rewrite Z.shiftl_mul_pow2 by lia.
  assert (0 < 2 ^ s) by (apply Z.pow_pos_nonneg; lia).
  rewrite !Zdigits2_log2 by nia.
  rewrite Z.log2_mul_pow2 by lia. lia.
Qed.

Lemma Zdigits2_div (a b : Z) :
  0 <= a -> 0 < b -> Zdigits2 (a / b) <= Z.max 0 (Zdigits2 a - Zdigits2 b + 1).
Proof.
  intros Ha Hb. pose proof (Zdigits2_nonneg a).
  assert (0 <= a / b) by (apply Z.div_pos; lia).
  apply Zdigits2_lt_pow2; try lia.
  apply Z.div_lt_upper_bound; [lia|].
  pose proof (Zdigits2_upper Ha) as Hu.
  destruct (Zdigits2_bounds Hb) as [Hl _].
  assert (1 <= Zdigits2 b) by (rewrite Zdigits2_log2 by lia; pose proof (Z.log2_nonneg b); lia).
  destruct (Z.le_gt_cases 0 (Zdigits2 a - Zdigits2 b + 1)).
  - rewrite Z.max_r by lia.
    assert (2 ^ Zdigits2 a = 2 ^ (Zdigits2 b - 1) * 2 ^ (Zdigits2 a - Zdigits2 b + 1)).
    { rewrite <- Z.pow_add_r by lia. f_equal. lia. }
    assert (0 < 2 ^ (Zdigits2 a - Zdigits2 b + 1)) by (apply Z.pow_pos_nonneg; lia).
    nia.
  - rewrite Z.max_l by lia. simpl.
    assert (2 ^ Zdigits2 a <= 2 ^ (Zdigits2 b - 1)) by (apply Z.pow_le_mono_r; lia).
    lia.
Qed.

(** One step of [shr_1] halves the mantissa. *)
Lemma shr_1_m (mrs : shr_record) :
  0 <= shr_m mrs -> shr_m (shr_1 mrs) = shr_m mrs / 2.
Proof.
  destruct mrs as [m r s]. simpl. intros Hm.
  destruct m as [|[p|p|]|p]; simpl; try lia; try reflexivity.
  - rewrite Pos2Z.inj_xI.
    apply Z.div_unique with (r := 1); lia.
  - apply Z.div_unique with (r := 0); lia.
Qed.

Lemma shr_1_nonneg (mrs : shr_record) : 0 <= shr_m mrs -> 0 <= shr_m (shr_1 mrs).
Proof.
  intros H. rewrite shr_1_m by assumption. apply Z.div_pos; lia.
Qed.

Lemma pow2_xI (p : positive) : 2 ^ Z.pos p~1 = 2 * (2 ^ Z.pos p * 2 ^ Z.pos p).
Proof.
  rewrite Pos2Z.inj_xI.
  replace (2 * Z.pos p + 1) with (Z.succ (Z.pos p + Z.pos p)) by lia.
  rewrite Z.pow_succ_r by lia. rewrite Z.pow_add_r by lia. reflexivity.
Qed.

Lemma pow2_xO (p : positive) : 2 ^ Z.pos p~0 = 2 ^ Z.pos p * 2 ^ Z.pos p.
Proof.
  replace (Z.pos p~0) with (Z.pos p + Z.pos p) by lia.
  rewrite Z.pow_add_r by lia. reflexivity.
Qed.

Lemma iter_pos_shr_1 (p : positive) (mrs : shr_record) :
  0 <= shr_m mrs ->
  shr_m (SpecFloat.iter_pos shr_1 p mrs) = shr_m mrs / 2 ^ Z.pos p.
Proof.
  revert mrs. induction p as [p IH|p IH|]; intros mrs Hm; simpl SpecFloat.iter_pos.
  - pose proof (shr_1_nonneg mrs Hm) as H1.
    assert (Hp : 0 < 2 ^ Z.pos p) by (apply Z.pow_pos_nonneg; lia).
    assert (H2 : 0 <= shr_m (SpecFloat.iter_pos shr_1 p (shr_1 mrs)))
      by (rewrite IH by assumption; apply Z.div_pos; assumption).
    rewrite IH by assumption. rewrite IH by assumption.
    rewrite shr_1_m by assumption.
    rewrite !Z.div_div by lia. now rewrite pow2_xI.
  - assert (Hp : 0 < 2 ^ Z.pos p) by (apply Z.pow_pos_nonneg; lia).
    assert (H2 : 0 <= shr_m (SpecFloat.iter_pos shr_1 p mrs))
      by (rewrite IH by assumption; apply Z.div_pos; assumption).
    rewrite IH by assumption. rewrite IH by assumption.
    rewrite !Z.div_div by lia. now rewrite pow2_xO.
  - rewrite shr_1_m by assumption. reflexivity.
Qed.

Lemma shr_record_of_loc_m (m : Z) (l : location) : shr_m (shr_record_of_loc m l) = m.
Proof. destruct l as [|[| |]]; reflexivity. Qed.

(** What [shr_fexp] does to the mantissa and the exponent. *)
Lemma shr_fexp_bounds (m e : Z) (l : location) :
  0 <= m ->
  let '(mrs, e') := shr_fexp prec emax m e l in
  0 <= shr_m mrs
  /\ e' = Z.max e (fexp prec emax (Zdigits2 m + e))
  /\ Zdigits2 (shr_m mrs) + e' <= Z.max (Zdigits2 m + e) e'.
Proof.
  intros Hm. unfold shr_fexp, shr.
  destruct (fexp prec emax (Zdigits2 m + e) - e) as [|p|p] eqn:En.
  - rewrite shr_record_of_loc_m. repeat split; lia.
  - rewrite iter_pos_shr_1 by (rewrite shr_record_of_loc_m; assumption).
    rewrite shr_record_of_loc_m.
    assert (0 < 2 ^ Z.pos p) by (apply Z.pow_pos_nonneg; lia).
    split; [apply Z.div_pos; lia|]. split; [lia|].
    pose proof (@Zdigits2_div_pow2 m (Z.pos p) Hm ltac:(lia)). lia.
  - rewrite shr_record_of_loc_m. repeat split; lia.
Qed.

Lemma round_nearest_even_bounds (m : Z) (l : location) :
  0 <= m ->
  0 <= round_nearest_even m l
  /\ Zdigits2 (round_nearest_even m l) <= Zdigits2 m + 1.
Proof.
  intros Hm. pose proof (Zdigits2_succ Hm).
  destruct l as [|[| |]]; simpl; try (destruct (Z.even m)); split; lia.
Qed.

(** Rounding neither overflows nor gains more than one binary digit. *)
Lemma binary_round_aux_mag_le (s : bool) (m e : Z) (l : location) (B : Z) :
  0 <= m -> e <= 971 -> e <= B -> Zdigits2 m + e <= B -> -1074 <= B -> B <= 1023 ->
  mag_le (B + 1) (binary_round_aux prec emax s m e l).
Proof.
  intros Hm He HeB HD Hlo Hhi. unfold binary_round_aux.
  pose proof (shr_fexp_bounds e l Hm) as H1.
  destruct (shr_fexp prec emax m e l) as [mrs' e'].
  destruct H1 as (Hm1 & He1 & HD1).
  pose proof (round_nearest_even_bounds (loc_of_shr_record mrs') Hm1) as [Hm2 Hd2].
  set (m2 := round_nearest_even (shr_m mrs') (loc_of_shr_record mrs')) in *.
  pose proof (shr_fexp_bounds e' loc_Exact Hm2) as H2.
  destruct (shr_fexp prec emax m2 e' loc_Exact) as [mrs'' e''].
  destruct H2 as (Hm3 & He2 & HD2).
  unfold fexp, SpecFloat.emin, prec, emax in *.
  destruct (shr_m mrs'') as [|m3|m3]; try lia; [exact I|].
  cbn [Zdigits2] in HD2.
  destruct (Z.leb_spec e'' (1024 - 53)); cbn [mag_le]; lia.
Qed.

Lemma Zdigits2_div_pow2_ge (m p : Z) :
  0 < m -> 0 <= p -> Zdigits2 m - p <= Zdigits2 (m / 2 ^ p).
Proof.
  intros Hm Hp.
  assert (H2 : 0 < 2 ^ p) by (apply Z.pow_pos_nonneg; lia).
  assert (Hq : 0 <= m / 2 ^ p) by (apply Z.div_pos; lia).
  destruct (Z.eq_dec (m / 2 ^ p) 0) as [E|E].
  - rewrite E. simpl.
    apply Z.div_small_iff in E; [|lia]. destruct E as [E|E]; [|lia].
    assert (Zdigits2 m <= p) by (apply Zdigits2_lt_pow2; lia). lia.
  - rewrite !Zdigits2_log2 by lia.
    rewrite <- Z.shiftr_div_pow2 by lia. rewrite Z.log2_shiftr by lia. lia.
Qed.

Lemma Zdigits2_pos (m : Z) : 0 < Zdigits2 m -> 0 <= m -> 0 < m.
Proof. destruct m; simpl; lia. Qed.

Lemma shr_fexp_mag_ge (m e : Z) (l : location) :
  0 < m -> -1074 + 53 <= Zdigits2 m + e ->
  let '(mrs, e') := shr_fexp prec emax m e l in
  0 < shr_m mrs /\ Zdigits2 m + e <= Zdigits2 (shr_m mrs) + e'.
Proof.
  intros Hm HD. unfold shr_fexp, shr.
  destruct (fexp prec emax (Zdigits2 m + e) - e) as [|p|p] eqn:En;
    try (rewrite shr_record_of_loc_m; split; lia).
  rewrite iter_pos_shr_1 by (rewrite shr_record_of_loc_m; lia).
  rewrite shr_record_of_loc_m.
  assert (H2 : 0 < 2 ^ Z.pos p) by (apply Z.pow_pos_nonneg; lia).
  pose proof (@Zdigits2_div_pow2_ge m (Z.pos p) Hm ltac:(lia)) as Hge.
  unfold fexp, SpecFloat.emin, prec, emax in En.
  split; [|lia].
  apply Zdigits2_pos; [lia|apply Z.div_pos; lia].
Qed.

Lemma round_nearest_even_ge (m : Z) (l : location) :
  0 < m ->
  0 < round_nearest_even m l /\ Zdigits2 m <= Zdigits2 (round_nearest_even m l).
Proof.
  intros Hm.
  assert (Zdigits2 m <= Zdigits2 (m + 1)) by (apply Zdigits2_le; lia).
  destruct l as [|[| |]]; simpl; try (destruct (Z.even m)); split; lia.
Qed.

(** Rounding a number of the normal range loses no binary digit. *)
Lemma binary_round_aux_mag_ge (s : bool) (m e : Z) (l : location) :
  0 < m -> -1074 + 53 <= Zdigits2 m + e ->
  mag_ge (Zdigits2 m + e) (binary_round_aux prec emax s m e l).
Proof.
  intros Hm HD. unfold binary_round_aux.
  pose proof (shr_fexp_mag_ge e l Hm HD) as H1.
  destruct (shr_fexp prec emax m e l) as [mrs' e'].
  destruct H1 as (Hm1 & HD1).
  pose proof (round_nearest_even_ge (loc_of_shr_record mrs') Hm1) as [Hm2 Hd2].
  set (m2 := round_nearest_even (shr_m mrs') (loc_of_shr_record mrs')) in *.
  pose proof (shr_fexp_mag_ge e' loc_Exact Hm2 ltac:(lia)) as H2.
  destruct (shr_fexp prec emax m2 e' loc_Exact) as [mrs'' e''].
  destruct H2 as (Hm3 & HD2).
  destruct (shr_m mrs'') as [|m3|m3]; try lia.
  cbn [Zdigits2] in HD2.
  destruct (Z.leb e'' (emax - prec)); cbn [mag_ge]; [lia|exact I].
Qed.

Lemma mag_ge_weaken (B B' : Z) (x : spec_float) :
  B <= B' -> mag_ge B' x -> mag_ge B x.
Proof. destruct x; simpl; auto; lia. Qed.

Lemma mag_le_weaken (B B' : Z) (x : spec_float) :
  B <= B' -> mag_le B x -> mag_le B' x.
Proof. destruct x; simpl; auto; lia. Qed.

(** The exponent of a valid finite value is determined by its magnitude. *)
Lemma valid_exponent (s : bool) (m : positive) (e : Z) :
  valid_binary (S754_finite s m e) = true ->
  e = Z.max (Z.pos (digits2_pos m) + e - 53) (-1074).
Proof.
  unfold SpecFloat.valid_binary, bounded, canonical_mantissa, fexp,
    SpecFloat.emin, prec, emax.
  intros H. apply andb_prop in H as [H _]. apply Z.eqb_eq in H. lia.
Qed.

Lemma SFmul_mag_le (x y : spec_float) (Bx By : Z) :
  valid_binary x = true -> valid_binary y = true ->
  mag_le Bx x -> mag_le By y ->
  -500 <= Bx -> -500 <= By -> Bx + By <= 1023 ->
  mag_le (Bx + By + 1) (SFmul prec emax x y).
Proof.
  intros Vx Vy Hx Hy Lx Ly Hs.
  destruct x as [sx|sx| |sx mx ex], y as [sy|sy| |sy my ey];
    cbn [mag_le] in Hx, Hy; try contradiction; try exact I.
  apply valid_exponent in Vx. apply valid_exponent in Vy.
  assert (Hd : Zdigits2 (Z.pos (mx * my))
               <= Z.pos (digits2_pos mx) + Z.pos (digits2_pos my)).
  { rewrite Pos2Z.inj_mul.
    apply (@Zdigits2_mul (Z.pos mx) (Z.pos my)); lia. }
  cbn [SFmul]. apply binary_round_aux_mag_le; lia.
Qed.

(** The dividend of [SFdiv_core_binary], shifted left by [sh] digits. *)
Lemma shifted_mantissa (mx : positive) (sh : Z) :
  0 <= sh ->
  let m' := match sh with
            | Z.pos _ => Z.shiftl (Z.pos mx) sh
            | 0 => Z.pos mx
            | Z.neg _ => 0
            end in
  0 < m' /\ Zdigits2 m' = Z.pos (digits2_pos mx) + sh.
Proof.
  intros Hsh. destruct sh as [|p|p]; cbv zeta; try lia.
  - split; [lia|cbn [Zdigits2]; lia].
  - rewrite Zdigits2_shiftl by lia. split; [|reflexivity].
    rewrite Z.shiftl_mul_pow2 by lia.
    assert (0 < 2 ^ Z.pos p) by (apply Z.pow_pos_nonneg; lia). nia.
Qed.

Lemma SFdiv_mag_le (x y : spec_float) (Bx : Z) :
  mag_le Bx x -> mag_ge 1 y ->
  -1021 <= Bx -> Bx <= 1023 ->
  mag_le (Bx + 1) (SFdiv prec emax x y).
Proof.
  intros Hx Hy Lx Ux.
  destruct x as [sx|sx| |sx mx ex], y as [sy|sy| |sy my ey];
    cbn [mag_le mag_ge] in Hx, Hy; try contradiction; try exact I.
  cbn [SFdiv]. unfold SFdiv_core_binary. cbn [Zdigits2].
  remember (Z.min (fexp prec emax (Z.pos (digits2_pos mx) + ex
                                   - (Z.pos (digits2_pos my) + ey))) (ex - ey))
    as e' eqn:He'.
  assert (Hsh : 0 <= ex - ey - e') by lia.
  pose proof (shifted_mantissa mx Hsh) as Hm'. cbv zeta in Hm'.
  remember (match ex - ey - e' with
            | Z.pos _ => Z.shiftl (Z.pos mx) (ex - ey - e')
            | 0 => Z.pos mx
            | Z.neg _ => 0
            end) as m' eqn:Em'.
  destruct Hm' as [Hm'pos Hm'd].
  destruct (Z.div_eucl m' (Z.pos my)) as [q r] eqn:Eq.
  assert (Hq : q = m' / Z.pos my) by (unfold Z.div; now rewrite Eq).
  assert (Hq0 : 0 <= q) by (subst q; apply Z.div_pos; lia).
  pose proof (@Zdigits2_div m' (Z.pos my) ltac:(lia) ltac:(lia)) as Hd.
  rewrite <- Hq in Hd. cbn [Zdigits2] in Hd. rewrite Hm'd in Hd.
  unfold fexp, SpecFloat.emin, prec, emax in He'.
  apply binary_round_aux_mag_le; lia.
Qed.

Lemma digits2_pos_iter_xO (d m : positive) :
  digits2_pos (Pos.iter xO m d) = (digits2_pos m + d)%positive.
Proof.
  induction d as [|d IH] using Pos.peano_ind.
  - simpl. lia.
  - rewrite Pos.iter_succ. simpl. rewrite IH. lia.
Qed.

Lemma shl_align_spec (mx : positive) (ex ex' : Z) :
  let '(mz, ez) := shl_align mx ex ex' in
  ez <= ex /\ Z.pos (digits2_pos mz) + ez = Z.pos (digits2_pos mx) + ex.
Proof.
  unfold shl_align. destruct (ex' - ex) as [|d|d] eqn:E; try (split; lia).
  rewrite digits2_pos_iter_xO. split; lia.
Qed.

(** The conversion of a non-negative integer below [2^63]. *)
Lemma binary_round_int (p : positive) :
  Z.pos p < 2 ^ 63 ->
  mag_le 64 (binary_round prec emax false p 0)
  /\ mag_ge 1 (binary_round prec emax false p 0).
Proof.
  intros Hp. unfold binary_round.
  pose proof (shl_align_spec p 0 (fexp prec emax (Z.pos (digits2_pos p) + 0))) as H.
  destruct (shl_align p 0 _) as [mz ez]. destruct H as [He Hd].
  assert (Hdp : Zdigits2 (Z.pos p) <= 63) by (apply Zdigits2_lt_pow2; lia).
  assert (H1 : 1 <= Zdigits2 (Z.pos p)) by (cbn [Zdigits2]; lia).
  cbn [Zdigits2] in Hdp, H1.
  split.
  - apply (@binary_round_aux_mag_le false (Z.pos mz) ez loc_Exact 63);
      cbn [Zdigits2]; lia.
  - apply (@mag_ge_weaken 1 (Zdigits2 (Z.pos mz) + ez));
      [cbn [Zdigits2]; lia|].
    apply binary_round_aux_mag_ge; cbn [Zdigits2]; lia.
Qed.

Lemma float64_of_nat_spec (n : nat) :
  Z.of_nat n < 2 ^ 63 ->
  Prim2SF (float64_of_nat n) = binary_normalize prec emax (Z.of_nat n) 0 false.
Proof.
  intros Hn. unfold float64_of_nat, float64_of_int.
  destruct (Z.ltb_spec (Z.of_nat n) 0) as [|_]; [lia|].
  rewrite FloatAxioms.of_uint63_spec, Uint63.of_Z_spec.
  rewrite Z.mod_small; [reflexivity|].
  change wB with (2 ^ 63). lia.
Qed.

(** [float64(n)] for a slice length or index [n]: at most [2^63], and at least
    1 when [n] is not 0. *)
Lemma float64_of_nat_mag (n : nat) :
  Z.of_nat n < 2 ^ 63 ->
  mag_le 64 (Prim2SF (float64_of_nat n))
  /\ (1 <= n -> mag_ge 1 (Prim2SF (float64_of_nat n)))%nat.
Proof.
  intros Hn. rewrite float64_of_nat_spec by assumption.
  destruct (Z.of_nat n) as [|p|p] eqn:E; try lia.
  - split; [exact I|lia].
  - cbn [binary_normalize]. destruct (binary_round_int Hn). auto.
Qed.

(** A zero or a finite value passes the angle guard. *)
Lemma mag_le_valid_angle (B : Z) (x : float64) :
  mag_le B (Prim2SF x) -> invalid_angle x = false.
Proof.
  unfold invalid_angle, math_IsNaN, math_IsInf.
  rewrite is_nan_spec, is_infinity_spec.
  destruct (Prim2SF x); simpl; tauto.
Qed.

Lemma minus_two_pi_mag : mag_le 3 (Prim2SF minus_two_pi).
Proof. vm_compute. discriminate. Qed.

(** The twiddle angles of the butterfly and of the direct sum are finite. *)
Lemma twiddle_angles_finite (n k j : nat) :
  (1 <= n)%nat -> Z.of_nat n < 2 ^ 63 -> (k < n)%nat -> (j < n)%nat ->
  invalid_angle (minus_two_pi * float64_of_nat k / float64_of_nat n)%float = false
  /\ invalid_angle (minus_two_pi * float64_of_nat k * float64_of_nat j
                    / float64_of_nat n)%float = false.
Proof.
  intros Hn Hb Hk Hj.
  destruct (@float64_of_nat_mag n Hb) as [_ Hn1]. specialize (Hn1 Hn).
  destruct (@float64_of_nat_mag k ltac:(lia)) as [Hk1 _].
  destruct (@float64_of_nat_mag j ltac:(lia)) as [Hj1 _].
  assert (H1 : mag_le 68 (Prim2SF (minus_two_pi * float64_of_nat k)%float)).
  { rewrite FloatAxioms.mul_spec.
    apply (@SFmul_mag_le _ _ 3 64); try apply Prim2SF_valid; try lia; auto.
    apply minus_two_pi_mag. }
  assert (H2 : mag_le 133 (Prim2SF (minus_two_pi * float64_of_nat k
                                    * float64_of_nat j)%float)).
  { rewrite FloatAxioms.mul_spec.
    apply (@SFmul_mag_le _ _ 68 64); try apply Prim2SF_valid; try lia; auto. }
  split.
  - apply (@mag_le_valid_angle 69). rewrite FloatAxioms.div_spec.
    apply (@SFdiv_mag_le _ _ 68); auto; lia.
  - apply (@mag_le_valid_angle 134). rewrite FloatAxioms.div_spec.
    apply (@SFdiv_mag_le _ _ 133); auto; lia.
Qed.

End ExponentBounds.

(* ===================================================================== *)
(** ** Durations above the drift tolerance *)
(* ===================================================================== *)

Section Drift.
Local Open Scope Z_scope.

Lemma drift_tolerance_spec :
  Prim2SF drift_tolerance = S754_finite false tolerance_mantissa tolerance_exponent.
Proof. reflexivity. Qed.

Lemma above_tolerance_ltb (x : float64) :
  above_tolerance (Prim2SF x) ->
  (drift_tolerance <? PrimFloat.abs x)%float = true.
Proof.
  rewrite FloatAxioms.ltb_spec, FloatAxioms.abs_spec, drift_tolerance_spec.
  destruct (Prim2SF x) as [s|s| |s m e]; cbn [above_tolerance SFabs];
    try contradiction; try reflexivity.
  unfold SFltb, SFcompare, tolerance_exponent, tolerance_mantissa.
  intros [H|[-> H]].
  - apply Z.compare_lt_iff in H. now rewrite H.
  - rewrite Z.compare_refl.
    apply Pos.compare_lt_iff in H. unfold Pos.compare in H. now rewrite H.
Qed.

Lemma mag_ge_above_tolerance (x : spec_float) :
  valid_binary x = true -> mag_ge (-2) x -> above_tolerance x.
Proof.
  destruct x as [s|s| |s m e]; cbn [mag_ge above_tolerance]; auto.
  intros V H. apply valid_exponent in V. unfold tolerance_exponent. lia.
Qed.

(** [shr_fexp] raises the exponent, or leaves mantissa and exponent alone. *)
Lemma shr_fexp_cases (m e : Z) (l : location) :
  let '(mrs, e') := shr_fexp prec emax m e l in
  e < e' \/ (e' = e /\ shr_m mrs = m).
Proof.
  unfold shr_fexp, shr.
  destruct (fexp prec emax (Zdigits2 m + e) - e) as [|p|p];
    try (right; split; [reflexivity|apply shr_record_of_loc_m]).
  left. lia.
Qed.

Lemma round_nearest_even_le (m : Z) (l : location) : m <= round_nearest_even m l.
Proof. destruct l as [|[| |]]; simpl; try (destruct (Z.even m)); lia. Qed.

(** The exponent of a rounded value is above the one given, or the mantissa
    has not decreased. *)
Lemma binary_round_aux_cases (s : bool) (m e : Z) (l : location) :
  0 <= m ->
  match binary_round_aux prec emax s m e l with
  | S754_finite _ m' e' => e < e' \/ (e' = e /\ m <= Z.pos m')
  | _ => True
  end.
Proof.
  intros Hm. unfold binary_round_aux.
  pose proof (shr_fexp_cases m e l) as H1.
  pose proof (shr_fexp_bounds e l Hm) as B1.
  destruct (shr_fexp prec emax m e l) as [mrs' e'].
  destruct B1 as (Hm1 & _).
  pose proof (round_nearest_even_le (shr_m mrs') (loc_of_shr_record mrs')) as Hr.
  set (m2 := round_nearest_even (shr_m mrs') (loc_of_shr_record mrs')) in *.
  pose proof (shr_fexp_cases m2 e' loc_Exact) as H2.
  destruct (shr_fexp prec emax m2 e' loc_Exact) as [mrs'' e''].
  destruct (shr_m mrs'') as [|m3|m3] eqn:E3; auto.
  destruct (Z.leb e'' (emax - prec)); auto.
  destruct H1 as [H1|[-> H1]], H2 as [H2|[-> H2]]; try (left; lia).
  right. split; [reflexivity|]. clearbody m2. lia.
Qed.

Lemma binary_round_aux_exact (s : bool) (m : positive) (e : Z) :
  Z.pos (digits2_pos m) = 53 -> -1074 <= e <= 971 ->
  binary_round_aux prec emax s (Z.pos m) e loc_Exact = S754_finite s m e.
Proof.
  intros Hd He. unfold binary_round_aux, shr_fexp. cbn [Zdigits2 shr_record_of_loc].
  rewrite Hd.
  replace (fexp prec emax (53 + e) - e) with 0
    by (unfold fexp, SpecFloat.emin, prec, emax; lia).
  cbn [shr shr_m loc_of_shr_record round_nearest_even Zdigits2 shr_record_of_loc].
  rewrite Hd.
  replace (fexp prec emax (53 + e) - e) with 0
    by (unfold fexp, SpecFloat.emin, prec, emax; lia).
  cbn [shr shr_m].
  destruct (Z.leb_spec e (emax - prec)) as [_|H]; [reflexivity|].
  unfold emax, prec in H. lia.
Qed.

Lemma iter_xO_value (d m : positive) :
  Z.pos (Pos.iter xO m d) = Z.pos m * 2 ^ Z.pos d.
Proof.
  induction d as [|d IH] using Pos.peano_ind.
  - simpl. lia.
  - rewrite Pos.iter_succ, Pos2Z.inj_succ, Z.pow_succ_r by lia.
    change (Z.pos (Pos.iter xO m d)~0) with (2 * Z.pos (Pos.iter xO m d)).
    rewrite IH. lia.
Qed.

(** The conversion of an integer of 27 binary digits is exact. *)
Lemma binary_round_27 (s : bool) (p : positive) :
  2 ^ 26 <= Z.pos p < 2 ^ 27 ->
  exists m, binary_round prec emax s p 0 = S754_finite s m (-26)
            /\ Z.pos m = Z.pos p * 2 ^ 26
            /\ Z.pos (digits2_pos m) = 53.
Proof.
  intros Hp.
  assert (Hd : Z.pos (digits2_pos p) = 27).
  { rewrite digits2_pos_log2. rewrite (Z.log2_unique (Z.pos p) 26); lia. }
  unfold binary_round. rewrite Hd.
  change (fexp prec emax (27 + 0)) with (-26).
  unfold shl_align. change (-26 - 0) with (Z.neg 26).
  exists (Pos.iter xO p 26).
  assert (Hd' : Z.pos (digits2_pos (Pos.iter xO p 26)) = 53)
    by (rewrite digits2_pos_iter_xO; lia).
  split; [apply binary_round_aux_exact; [assumption|lia]|].
  split; [apply iter_xO_value|assumption].
Qed.

Lemma Zdigits2_div_ge (a b : Z) :
  0 < a -> 0 < b -> Zdigits2 a - Zdigits2 b <= Zdigits2 (a / b).
Proof.
  intros Ha Hb.
  destruct (Zdigits2_bounds Ha) as [La _]. destruct (Zdigits2_bounds Hb) as [_ Ub].
  pose proof (Zdigits2_nonneg (a / b)) as Hn.
  destruct (Z.le_gt_cases (Zdigits2 a - Zdigits2 b) 0) as [|Hpos]; [lia|].
  assert (Hq : 2 ^ (Zdigits2 a - 1 - Zdigits2 b) <= a / b).
  { apply Z.div_le_lower_bound; [lia|].
    assert (E : 2 ^ (Zdigits2 a - 1)
                = 2 ^ Zdigits2 b * 2 ^ (Zdigits2 a - 1 - Zdigits2 b)).
    { rewrite <- Z.pow_add_r by (pose proof (Zdigits2_nonneg b); lia).
      f_equal. lia. }
    assert (0 < 2 ^ (Zdigits2 a - 1 - Zdigits2 b))
      by (apply Z.pow_pos_nonneg; lia).
    nia. }
  assert (Hq0 : 0 < a / b).
  { assert (0 < 2 ^ (Zdigits2 a - 1 - Zdigits2 b))
      by (apply Z.pow_pos_nonneg; lia). lia. }
  rewrite (Zdigits2_log2 Hq0).
  assert (Zdigits2 a - 1 - Zdigits2 b <= Z.log2 (a / b))
    by (apply Z.log2_le_pow2; lia).
  lia.
Qed.

(** The quotient of two finite values loses at most the magnitude of the
    divisor. *)
Lemma SFdiv_finite_mag_ge (sx sy : bool) (mx my : positive) (ex ey a : Z) :
  a <= Z.pos (digits2_pos mx) + ex - (Z.pos (digits2_pos my) + ey) ->
  -1021 <= a ->
  mag_ge a (SFdiv prec emax (S754_finite sx mx ex) (S754_finite sy my ey)).
Proof.
  intros Ha La.
  cbn [SFdiv]. unfold SFdiv_core_binary. cbn [Zdigits2].
  remember (Z.min (fexp prec emax (Z.pos (digits2_pos mx) + ex
                                   - (Z.pos (digits2_pos my) + ey))) (ex - ey))
    as e' eqn:He'.
  assert (Hsh : 0 <= ex - ey - e') by lia.
  pose proof (shifted_mantissa mx Hsh) as Hm'. cbv zeta in Hm'.
  remember (match ex - ey - e' with
            | Z.pos _ => Z.shiftl (Z.pos mx) (ex - ey - e')
            | 0 => Z.pos mx
            | Z.neg _ => 0
            end) as m' eqn:Em'.
  destruct Hm' as [Hm'pos Hm'd].
  destruct (Z.div_eucl m' (Z.pos my)) as [q r] eqn:Eq.
  assert (Hq : q = m' / Z.pos my) by (unfold Z.div; now rewrite Eq).
  pose proof (@Zdigits2_div_ge m' (Z.pos my) Hm'pos ltac:(lia)) as Hd.
  rewrite <- Hq in Hd. cbn [Zdigits2] in Hd. rewrite Hm'd in Hd.
  unfold fexp, SpecFloat.emin, prec, emax in He'.
  assert (Hq0 : 0 < q).
  { apply Zdigits2_pos; [lia|]. subst q. apply Z.div_pos; lia. }
  apply (@mag_ge_weaken a (Zdigits2 q + e')); [lia|].
  apply binary_round_aux_mag_ge; lia.
Qed.

Lemma binary_round_mag_ge (s : bool) (p : positive) (e : Z) :
  -1021 <= Z.pos (digits2_pos p) + e ->
  mag_ge (Z.pos (digits2_pos p) + e) (binary_round prec emax s p e).
Proof.
  intros H. unfold binary_round.
  pose proof (shl_align_spec p e (fexp prec emax (Z.pos (digits2_pos p) + e))) as Hs.
  destruct (shl_align p e _) as [mz ez]. destruct Hs as [_ Hd].
  rewrite <- Hd. apply (@binary_round_aux_mag_ge s (Z.pos mz) ez loc_Exact);
    cbn [Zdigits2]; lia.
Qed.

Lemma shl_align_fst (mx : positive) (ex ez : Z) :
  ez <= ex ->
  Z.pos (digits2_pos (fst (shl_align mx ex ez))) + ez = Z.pos (digits2_pos mx) + ex.
Proof.
  intros H. unfold shl_align.
  destruct (ez - ex) as [|d|d] eqn:E; cbn [fst]; try lia.
  rewrite digits2_pos_iter_xO. lia.
Qed.

(** Adding a value of the same sign does not lower the magnitude. *)
Lemma SFadd_same_sign_mag_ge (s : bool) (mx my : positive) (ex ey : Z) :
  -1021 <= Z.pos (digits2_pos mx) + ex ->
  mag_ge (Z.pos (digits2_pos mx) + ex)
         (SFadd prec emax (S754_finite s mx ex) (S754_finite s my ey)).
Proof.
  intros H. cbn [SFadd].
  set (ez := Z.min ex ey).
  pose proof (@shl_align_fst mx ex ez ltac:(unfold ez; lia)) as Hx.
  set (mx' := fst (shl_align mx ex ez)) in *.
  set (my' := fst (shl_align my ey ez)) in *.
  assert (Hd : Z.pos (digits2_pos mx') <= Z.pos (digits2_pos (mx' + my'))).
  { apply (@Zdigits2_le (Z.pos mx') (Z.pos (mx' + my'))). lia. }
  remember (Z.pos (digits2_pos mx) + ex) as M eqn:EM.
  destruct s; cbn [cond_Zopp Z.opp Z.add binary_normalize].
  - apply (@mag_ge_weaken _ (Z.pos (digits2_pos (mx' + my')) + ez)); [lia|].
    apply binary_round_mag_ge. lia.
  - apply (@mag_ge_weaken _ (Z.pos (digits2_pos (mx' + my')) + ez)); [lia|].
    apply binary_round_mag_ge. lia.
Qed.

Lemma binary_round_sign (s : bool) (p : positive) (e : Z) :
  match binary_round prec emax s p e with
  | S754_nan => True
  | S754_zero s' | S754_infinity s' | S754_finite s' _ _ => s' = s
  end.
Proof.
  unfold binary_round. destruct (shl_align p e _) as [mz ez].
  apply binary_round_aux_sign.
Qed.

(** The conversion of a positive integer below [2^63], with either sign. *)
Lemma float64_of_int_signed (sigma : bool) (z : Z) :
  0 < z < 2 ^ 63 ->
  exists m e,
    Prim2SF (float64_of_int (if sigma then - z else z)) = S754_finite sigma m e
    /\ binary_normalize prec emax z 0 false = S754_finite false m e
    /\ Zdigits2 z <= Z.pos (digits2_pos m) + e <= 64.
Proof.
  intros Hz. destruct z as [|p|p]; try lia.
  cbn [binary_normalize Zdigits2].
  destruct (binary_round_int (p := p) ltac:(lia)) as [Hle _].
  pose proof (@binary_round_mag_ge false p 0 ltac:(lia)) as Hge.
  pose proof (binary_round_sign false p 0) as Hs.
  assert (Hspec : Prim2SF (PrimFloat.of_uint63 (Uint63.of_Z (Z.pos p)))
                  = binary_round prec emax false p 0).
  { rewrite FloatAxioms.of_uint63_spec, Uint63.of_Z_spec.
    rewrite Z.mod_small by (change wB with (2 ^ 63); lia). reflexivity. }
  destruct (binary_round prec emax false p 0) as [s|s| |s m e];
    cbn [mag_le mag_ge] in Hle, Hge; try contradiction.
  subst s. exists m, e. split; [|split; [reflexivity|lia]].
  unfold float64_of_int. destruct sigma.
  - destruct (Z.ltb_spec (- Z.pos p) 0) as [_|]; [|lia].
    rewrite FloatAxioms.opp_spec, Z.opp_involutive, Hspec. reflexivity.
  - destruct (Z.ltb_spec (Z.pos p) 0) as [|_]; [lia|]. exact Hspec.
Qed.

Lemma nanos_per_second_spec :
  Prim2SF nanos_per_second = S754_finite false nanos_mantissa (-23).
Proof. reflexivity. Qed.

(** A quotient whose mantissa is above that of [0.1], at the exponent of
    [0.1], rounds to a value above [0.1]. *)
Lemma binary_round_aux_above (s : bool) (q : Z) (l : location) :
  Z.pos tolerance_mantissa < q ->
  above_tolerance (binary_round_aux prec emax s q tolerance_exponent l).
Proof.
  intros Hq. unfold tolerance_mantissa, tolerance_exponent in *.
  assert (Hq0 : 0 < q) by lia.
  assert (Hd : 53 <= Zdigits2 q).
  { rewrite (Zdigits2_log2 Hq0).
    assert (52 <= Z.log2 q) by (apply Z.log2_le_pow2; lia). lia. }
  pose proof (@binary_round_aux_mag_ge s q (-56) l Hq0 ltac:(lia)) as Hge.
  pose proof (@binary_round_aux_cases s q (-56) l ltac:(lia)) as Hc.
  destruct (binary_round_aux prec emax s q (-56) l) as [s'|s'| |s' m' e'];
    cbn [mag_ge above_tolerance] in *; try contradiction; auto.
  unfold tolerance_mantissa, tolerance_exponent. lia.
Qed.

(** The quotient by [1e9] of a count of nanoseconds between 100 ms and
    [2^27] ns, of either sign. *)
Lemma SFdiv_nanos_27 (sigma : bool) (m : positive) (B : Z) :
  100000000 < B < 2 ^ 27 ->
  Z.pos m = B * 2 ^ 26 -> Z.pos (digits2_pos m) = 53 ->
  above_tolerance (SFdiv prec emax (S754_finite sigma m (-26))
                         (S754_finite false nanos_mantissa (-23))).
Proof.
  intros HB Hm Hd. cbn [SFdiv]. unfold SFdiv_core_binary. cbn [Zdigits2].
  rewrite Hd.
  change (Z.pos (digits2_pos nanos_mantissa)) with 53.
  change (Z.min (fexp prec emax (53 + -26 - (53 + -23))) (-26 - -23))
    with tolerance_exponent.
  change (-26 - -23 - tolerance_exponent) with 53.
  cbv iota.
  destruct (Z.div_eucl (Z.shiftl (Z.pos m) 53) (Z.pos nanos_mantissa))
    as [q r] eqn:Eq.
  assert (Hq : q = Z.shiftl (Z.pos m) 53 / Z.pos nanos_mantissa)
    by (unfold Z.div; now rewrite Eq).
  apply binary_round_aux_above. subst q.
  rewrite Z.shiftl_mul_pow2, Hm by lia.
  unfold tolerance_mantissa, nanos_mantissa.
  apply Z.lt_le_trans with (100000001 * 2 ^ 26 * 2 ^ 53 / 8388608000000000);
    [reflexivity|].
  apply Z.div_le_mono; lia.
Qed.

(** Seconds and nanoseconds of a duration, by its sign and absolute value. *)
Lemma quot_rem_signed (d : Z) :
  Z.quot d 1000000000
  = (if d <? 0 then - (Z.abs d / 1000000000) else Z.abs d / 1000000000)
  /\ Z.rem d 1000000000
     = (if d <? 0 then - (Z.abs d mod 1000000000) else Z.abs d mod 1000000000).
Proof.
  destruct (Z.ltb_spec d 0) as [H|H].
  - replace d with (- Z.abs d) at 1 3 by lia.
    rewrite Z.quot_opp_l, Z.rem_opp_l by lia.
    rewrite Z.quot_div_nonneg, Z.rem_mod_nonneg by lia. auto.
  - rewrite Z.abs_eq by lia.
    rewrite Z.quot_div_nonneg, Z.rem_mod_nonneg by lia. auto.
Qed.

Lemma float64_of_int_signed_zero (sigma : bool) :
  Prim2SF (float64_of_int (if sigma then - 0 else 0)) = S754_zero false.
Proof. destruct sigma; reflexivity. Qed.

(** Adding a positive zero leaves a value that is above [0.1] above it. *)
Lemma SFadd_zero_above (y : spec_float) :
  above_tolerance y -> above_tolerance (SFadd prec emax (S754_zero false) y).
Proof. destruct y as [[|]|[|]| |]; cbn [above_tolerance SFadd]; tauto. Qed.

(** A duration of more than 100 ms, of either sign, is more than [0.1]
    seconds in binary64. *)
Lemma Duration_Seconds_above (d : Duration) :
  - 2 ^ 63 <= d < 2 ^ 63 -> 100000000 < Z.abs d ->
  (drift_tolerance <? PrimFloat.abs (Duration_Seconds d))%float = true.
Proof.
  intros Hd Ha. apply above_tolerance_ltb. unfold Duration_Seconds.
  destruct (quot_rem_signed d) as [-> ->].
  set (sigma := d <? 0).
  set (A := Z.abs d / 1000000000). set (B := Z.abs d mod 1000000000).
  assert (HB : 0 <= B < 1000000000) by (apply Z.mod_pos_bound; lia).
  assert (HA : 0 <= A) by (apply Z.div_pos; lia).
  assert (HA' : A < 2 ^ 63).
  { apply Z.div_lt_upper_bound; lia. }
  assert (Hsum : Z.abs d = 1000000000 * A + B)
    by (apply Z.div_mod; lia).
  pose proof (Prim2SF_valid
                (float64_of_int (if sigma then - A else A)
                 + float64_of_int (if sigma then - B else B) / nanos_per_second)%float)
    as Vsum.
  pose proof (Prim2SF_valid
                (float64_of_int (if sigma then - B else B) / nanos_per_second)%float)
    as VY.
  rewrite FloatAxioms.add_spec in *. rewrite FloatAxioms.div_spec in *.
  rewrite nanos_per_second_spec in *. unfold SF64add, SF64div in *.
  destruct (Z.eq_dec A 0) as [EA|NA].
  - (* less than a second *)
    rewrite EA. rewrite float64_of_int_signed_zero.
    apply SFadd_zero_above.
    assert (HB' : 100000000 < B) by lia.
    destruct (@float64_of_int_signed sigma B ltac:(lia)) as (m & e & Em & HN & Hmag).
    rewrite Em in *.
    destruct (Z.lt_ge_cases B (2 ^ 27)) as [Hlt|Hge].
    + destruct B as [|p|p]; try lia.
      destruct (@binary_round_27 false p ltac:(lia)) as (m' & E' & Hm' & Hd').
      cbn [binary_normalize] in HN. rewrite E' in HN. inversion HN; subst m' e.
      apply (@SFdiv_nanos_27 sigma m (Z.pos p)); auto; lia.
    + apply mag_ge_above_tolerance; [assumption|].
      apply SFdiv_finite_mag_ge; [|lia].
      change (Z.pos (digits2_pos nanos_mantissa) + -23) with 30.
      assert (28 <= Zdigits2 B).
      { rewrite Zdigits2_log2 by lia.
        assert (27 <= Z.log2 B) by (apply Z.log2_le_pow2; lia). lia. }
      lia.
  - (* a second or more *)
    apply mag_ge_above_tolerance; [assumption|].
    destruct (@float64_of_int_signed sigma A ltac:(lia)) as (mx & ex & Ex & _ & HmagA).
    rewrite Ex in *.
    assert (HdA : 1 <= Zdigits2 A) by (destruct A; simpl; lia).
    destruct (Z.eq_dec B 0) as [EB|NB].
    + rewrite EB, float64_of_int_signed_zero.
      cbn [SFdiv xorb SFadd mag_ge]. lia.
    + destruct (@float64_of_int_signed sigma B ltac:(lia)) as (my & ey & Ey & _ & HmagB).
      rewrite Ey in *.
      pose proof (@SFdiv_mag_le (S754_finite sigma my ey)
                    (S754_finite false nanos_mantissa (-23)) 64) as Hle.
      cbn [mag_le mag_ge] in Hle.
      specialize (Hle ltac:(lia) ltac:(change (Z.pos (digits2_pos nanos_mantissa)) with 53; lia)
                      ltac:(lia) ltac:(lia)).
      cbn [SFdiv] in *.
      destruct (SFdiv_core_binary prec emax (Z.pos my) ey (Z.pos nanos_mantissa) (-23))
        as [[q e'] l].
      pose proof (binary_round_aux_sign (xorb sigma false) q e' l) as Hs.
      rewrite xorb_false_r in *.
      destruct (binary_round_aux prec emax sigma q e' l) as [s|s| |s my' ey'];
        cbn [mag_le] in Hle; try contradiction.
      * cbn [SFadd mag_ge]. lia.
      * subst s. apply (@mag_ge_weaken _ (Z.pos (digits2_pos mx) + ex)); [lia|].
        apply SFadd_same_sign_mag_ge. lia.
Qed.

(** [t.Sub(u)] saturates, and more than 100 ms stays more than 100 ms. *)
Lemma Time_Sub_above (t u : Time) :
  100000000 < Z.abs (t - u) ->
  - 2 ^ 63 <= Time_Sub t u < 2 ^ 63 /\ 100000000 < Z.abs (Time_Sub t u).
Proof.
  intros H. unfold Time_Sub, minDuration, maxDuration.
  destruct (Z.ltb_spec (t - u) (- 2 ^ 63));
    [|destruct (Z.ltb_spec (2 ^ 63 - 1) (t - u))]; lia.
Qed.

(** Timestamps more than 100 ms apart fail the drift test of
    [ValidateSignalsMatch]. *)
Lemma timestamp_drift_above (voltageSignal currentSignal : Signal) :
  100000000 < Z.abs (Timestamp voltageSignal - Timestamp currentSignal) ->
  timestamp_drift voltageSignal currentSignal = true.
Proof.
  intros H. apply Time_Sub_above in H as [Hr Ha]. unfold timestamp_drift.
  now apply Duration_Seconds_above.
Qed.

End Drift.

(* ===================================================================== *)
(** ** The validator *)
(* ===================================================================== *)

Lemma scanValues_None (i : nat) (vs : list float64) :
  scanValues i vs = None <-> existsb bad_value vs = false.
Proof.
  revert i; induction vs as [|v vs IH]; intros i; simpl; [tauto|].
  unfold bad_value at 1.
  destruct (math_IsNaN v); simpl; [split; discriminate|].
  destruct (math_IsInf v); simpl; [split; discriminate|].
  apply IH.
Qed.

(** A failed scan reports the least index holding a NaN or an infinity. *)
Lemma scanValues_Some (i : nat) (vs : list float64) (e : error) :
  scanValues i vs = Some e ->
  exists k, k < length vs
    /\ (forall j, j < k -> bad_value (nth j vs 0%float) = false)
    /\ bad_value (nth k vs 0%float) = true
    /\ e = value_error (i + k) (nth k vs 0%float).
Proof.
  revert i; induction vs as [|v vs IH]; intros i; simpl; [discriminate|].
  destruct (math_IsNaN v) eqn:En.
  - intros H; inversion H; subst. exists 0. simpl.
    repeat split; try lia.
    + unfold bad_value; now rewrite En.
    + unfold value_error. rewrite En, Nat.add_0_r. reflexivity.
  - destruct (math_IsInf v) eqn:Ei.
    + intros H; inversion H; subst. exists 0. simpl.
      repeat split; try lia.
      * unfold bad_value; now rewrite En, Ei.
      * unfold value_error. rewrite En, Nat.add_0_r. reflexivity.
    + intros H. destruct (IH _ H) as (k & Hk & Hlt & Hbad & He).
      exists (S k). simpl. repeat split; try lia; auto.
      * intros [|j] Hj; [unfold bad_value; now rewrite En, Ei|].
        apply Hlt; lia.
      * rewrite He. f_equal. lia.
Qed.

Lemma scanComplex_None (f n m : string) (i : nat) (vs : list complex128) :
  scanComplex f n m i vs = None <-> existsb bad_complex vs = false.
Proof.
  revert i; induction vs as [|v vs IH]; intros i; simpl; [tauto|].
  unfold bad_complex at 1.
  destruct (cmplx_IsNaN v); simpl; [split; discriminate|].
  destruct (cmplx_IsInf v); simpl; [split; discriminate|].
  apply IH.
Qed.

Lemma scanFrequencies_None (i : nat) (fs : list float64) :
  scanFrequencies i fs = None <-> existsb bad_value fs = false.
Proof.
  revert i; induction fs as [|v fs IH]; intros i; simpl; [tauto|].
  unfold bad_value at 1.
  destruct (math_IsNaN v); simpl; [split; discriminate|].
  destruct (math_IsInf v); simpl; [split; discriminate|].
  apply IH.
Qed.

Lemma scanNegative_None (i : nat) (fs : list float64) :
  scanNegative i fs = None <-> existsb (fun f => (f <? 0)%float) fs = false.
Proof.
  revert i; induction fs as [|v fs IH]; intros i; simpl; [tauto|].
  destruct (v <? 0)%float; simpl; [split; discriminate|].
  apply IH.
Qed.

(** [ValidateComplexSignal] accepts exactly the well-formed spectra. *)
Lemma ValidateComplexSignal_None (cs : ComplexSignal) :
  ValidateComplexSignal cs = None <->
  (length (cValues cs) <> 0
   /\ length (cValues cs) = length (cFrequencies cs)
   /\ cTimestamp cs <> 0%Z
   /\ existsb bad_complex (cValues cs) = false
   /\ existsb bad_value (cFrequencies cs) = false).
Proof.
  unfold ValidateComplexSignal, Time_IsZero.
  destruct (Nat.eqb_spec (length (cValues cs)) 0) as [E0|E0];
    [split; [discriminate|intros (H & _); contradiction]|].
  destruct (Nat.eqb_spec (length (cFrequencies cs)) 0) as [E1|E1].
  { split; [discriminate|]. intros (_ & H & _). congruence. }
  destruct (Nat.eqb_spec (length (cValues cs)) (length (cFrequencies cs)))
    as [E2|E2]; simpl;
    [|split; [discriminate|intros (_ & H & _); contradiction]].
  destruct (Z.eqb_spec (cTimestamp cs) 0) as [E3|E3];
    [split; [discriminate|intros (_ & _ & H & _); contradiction]|].
  destruct (scanComplex _ _ _ 0 (cValues cs)) as [e|] eqn:Es.
  - split; [discriminate|]. intros (_ & _ & _ & H & _).
    rewrite (proj2 (scanComplex_None _ _ _ 0 _) H) in Es. discriminate.
  - apply scanComplex_None in Es. rewrite scanFrequencies_None. tauto.
Qed.

(** [ValidateSignal] on a sample rate that is a number. *)
Lemma ValidateSignal_None (s : Signal) :
  math_IsNaN (SampleRate s) = false ->
  (ValidateSignal s = None <->
   (length (Values s) <> 0
    /\ (0 <? SampleRate s)%float = true
    /\ Timestamp s <> 0%Z
    /\ existsb bad_value (Values s) = false)).
Proof.
  intros Hnan. unfold ValidateSignal, Time_IsZero.
  destruct (Nat.eqb_spec (length (Values s)) 0) as [E0|E0];
    [split; [discriminate|intros (H & _); contradiction]|].
  destruct (SampleRate s <=? 0)%float eqn:Er.
  { split; [discriminate|]. intros (_ & H & _).
    apply ltb_zero_leb_false in H. congruence. }
  apply (leb_zero_false_not_nan Hnan) in Er.
  destruct (Z.eqb_spec (Timestamp s) 0) as [E3|E3];
    [split; [discriminate|intros (_ & _ & H & _); contradiction]|].
  rewrite scanValues_None. tauto.
Qed.

(** A signal that passes [ValidateSignal]. *)
Lemma ValidateSignal_accepts (s : Signal) :
  ValidateSignal s = None ->
  length (Values s) <> 0
  /\ (SampleRate s <=? 0)%float = false
  /\ Timestamp s <> 0%Z
  /\ existsb bad_value (Values s) = false.
Proof.
  unfold ValidateSignal, Time_IsZero.
  destruct (Nat.eqb_spec (length (Values s)) 0) as [E0|E0]; [discriminate|].
  destruct (SampleRate s <=? 0)%float eqn:Er; [discriminate|].
  destruct (Z.eqb_spec (Timestamp s) 0) as [E3|E3]; [discriminate|].
  rewrite scanValues_None. tauto.
Qed.


(** A failed [ValidateSignal] on a signal that is not empty and has an accepted
    sample rate and timestamp reports the least index of a NaN or infinite
    sample. *)
Lemma ValidateSignal_first_violation (s : Signal) (e : error) :
  length (Values s) <> 0 -> (SampleRate s <=? 0)%float = false ->
  Timestamp s <> 0%Z ->
  ValidateSignal s = Some e ->
  exists k, k < length (Values s)
    /\ (forall j, j < k -> bad_value (nth j (Values s) 0%float) = false)
    /\ bad_value (nth k (Values s) 0%float) = true
    /\ e = value_error k (nth k (Values s) 0%float).
Proof.
  intros H0 Hr Ht. unfold ValidateSignal, Time_IsZero. rewrite Hr.
  destruct (Nat.eqb_spec (length (Values s)) 0); [contradiction|].
  destruct (Z.eqb_spec (Timestamp s) 0); [contradiction|].
  apply scanValues_Some.
Qed.

(* ===================================================================== *)
(** ** The transform *)
(* ===================================================================== *)

Lemma generateFrequencies_Ok (n : nat) (sampleRate : float64) :
  n <> 0 -> (sampleRate <=? 0)%float = false ->
  generateFrequencies n sampleRate
  = Ok (map (bin_frequency n sampleRate) (seq 0 n)).
Proof.
  intros Hn Hr. unfold generateFrequencies.
  destruct (Nat.leb_spec n 0) as [H|_]; [lia|]. rewrite Hr. f_equal.
  rewrite (for_each_ext _
             (fun i a => store i (bin_frequency n sampleRate i) a)).
  2:{ intros i a. unfold bin_frequency. destruct (i <? n / 2)%nat; reflexivity. }
  destruct (for_each_store (bin_frequency n sampleRate) 0%float n 0
                           (make 0%float n)) as (L & V & _).
  { rewrite make_length; lia. }
  rewrite make_length in L.
  apply (nth_ext_eq 0%float).
  - rewrite L, length_map, length_seq. reflexivity.
  - intros i Hi. rewrite V by lia.
    rewrite (nth_indep _ 0%float (bin_frequency n sampleRate 0))
      by (rewrite length_map, length_seq; lia).
    rewrite map_nth, seq_nth by lia. reflexivity.
Qed.

Lemma generateFrequencies_Ok_inv (n : nat) (sampleRate : float64)
      (fs : list float64) :
  generateFrequencies n sampleRate = Ok fs ->
  n <> 0 /\ (sampleRate <=? 0)%float = false
  /\ fs = map (bin_frequency n sampleRate) (seq 0 n).
Proof.
  intros H. assert (H' := H). unfold generateFrequencies in H'.
  destruct (Nat.leb_spec n 0) as [|Hn]; [discriminate|].
  destruct (sampleRate <=? 0)%float eqn:Er; [discriminate|].
  rewrite generateFrequencies_Ok in H by (auto; lia).
  inversion H. repeat split; auto; lia.
Qed.

Section PipelineFacts.

Variable cmplx_Exp : complex128 -> complex128.
Variable math_Atan2 : float64 -> float64 -> float64.

(** [computeFFT] as the source writes it. *)
Lemma computeFFT_source (x : list complex128) :
  computeFFT cmplx_Exp x =
  let n := length x in
  if (n <=? 0)%nat then Err ErrInvalidSignalLength
  else if (n <=? 1)%nat then Ok x
  else if negb (n mod 2 =? 0)%nat then dft cmplx_Exp x
  else
    match computeFFT cmplx_Exp (fst (split_even_odd x)) with
    | Err err => Err err
    | Ok evenFFT =>
        match computeFFT cmplx_Exp (snd (split_even_odd x)) with
        | Err err => Err err
        | Ok oddFFT => butterfly cmplx_Exp n evenFFT oddFFT
        end
    end.
Proof.
  rewrite computeFFT_equation_1. cbv zeta.
  destruct (le_lt_dec (length x) 1) as [H|H]; simpl.
  - destruct (Nat.leb_spec (length x) 0); [reflexivity|].
    destruct (Nat.leb_spec (length x) 1); [reflexivity|lia].
  - destruct (Nat.leb_spec (length x) 0); [lia|].
    destruct (Nat.leb_spec (length x) 1); [lia|reflexivity].
Qed.

Lemma dft_length (x y : list complex128) :
  dft cmplx_Exp x = Ok y -> length y = length x.
Proof.
  unfold dft. destruct (length x <=? 0)%nat; [discriminate|].
  intros H. apply for_loop_length in H.
  - now rewrite make_length in H.
  - intros i a a' Hb. destruct (dft_bin cmplx_Exp x (length x) i); inversion Hb.
    apply store_length.
Qed.

Lemma butterfly_length (n : nat) (e o r : list complex128) :
  butterfly cmplx_Exp n e o = Ok r -> length r = n.
Proof.
  unfold butterfly. intros H. apply for_loop_length in H.
  - now rewrite make_length in H.
  - intros i a a' Hb. destruct (invalid_angle _); inversion Hb.
    now rewrite !store_length.
Qed.

(** The transform returns as many bins as it is given samples. *)
Lemma computeFFT_length (x y : list complex128) :
  computeFFT cmplx_Exp x = Ok y -> length y = length x.
Proof.
  rewrite computeFFT_source. cbv zeta.
  destruct (length x <=? 0)%nat; [discriminate|].
  destruct (length x <=? 1)%nat; [intros H; now inversion H|].
  destruct (negb (length x mod 2 =? 0)%nat); [apply dft_length|].
  destruct (computeFFT cmplx_Exp (fst (split_even_odd x))); [|discriminate].
  destruct (computeFFT cmplx_Exp (snd (split_even_odd x))); [|discriminate].
  apply butterfly_length.
Qed.

(** What a successful [ProcessSignal] has gone through. *)
Lemma ProcessSignal_Ok (sig : Signal) (r : ComplexSignal) :
  ProcessSignal cmplx_Exp sig = Ok r ->
  ValidateSignal sig = None
  /\ (exists fftResult,
        computeFFT cmplx_Exp (map (fun val => Cplx val 0%float) (Values sig))
        = Ok fftResult
        /\ r = mkComplexSignal (Timestamp sig) fftResult
                 (map (bin_frequency (length (Values sig)) (SampleRate sig))
                      (seq 0 (length (Values sig)))))
  /\ ValidateComplexSignal r = None.
Proof.
  unfold ProcessSignal. rewrite range_store_map.
  destruct (ValidateSignal sig) eqn:Ev; [discriminate|].
  destruct (length (Values sig) =? 0)%nat; [discriminate|].
  destruct (computeFFT cmplx_Exp _) as [fftResult|] eqn:Ef; [|discriminate].
  destruct (generateFrequencies _ _) as [fs|] eqn:Eg; [|discriminate].
  apply generateFrequencies_Ok_inv in Eg as (_ & _ & ->).
  destruct (ValidateComplexSignal _) eqn:Ec; [discriminate|].
  intros H; inversion H; subst. repeat split; eauto.
Qed.

End PipelineFacts.

Lemma split_even_odd_length (x : list complex128) :
  length (fst (split_even_odd x)) = length x / 2
  /\ length (snd (split_even_odd x)) = length x / 2.
Proof.
  unfold split_even_odd.
  assert (G : length (fst (make czero (length x / 2), make czero (length x / 2)))
              = length x / 2
              /\ length (snd (make czero (length x / 2),
                              make czero (length x / 2))) = length x / 2)
    by (cbn [fst snd]; rewrite make_length; auto).
  revert G.
  apply (for_each_invariant
           (fun eo : list complex128 * list complex128 =>
              length (fst eo) = length x / 2 /\ length (snd eo) = length x / 2)).
  intros i [e o] [He Ho]; cbn [fst snd] in *. now rewrite !store_length.
Qed.

Section AngleGuard.

Variable cmplx_Exp : complex128 -> complex128.

Lemma dft_total (x : list complex128) :
  x <> [] -> (Z.of_nat (length x) < 2 ^ 63)%Z ->
  exists y, dft cmplx_Exp x = Ok y.
Proof.
  intros Hx Hb. unfold dft.
  assert (Hn : 1 <= length x) by (destruct x; [contradiction|simpl; lia]).
  destruct (Nat.leb_spec (length x) 0); [lia|].
  apply for_loop_total. intros k result Hk.
  assert (Hbin : exists sum, dft_bin cmplx_Exp x (length x) k = Ok sum).
  { unfold dft_bin. apply for_loop_total. intros j sum Hj.
    destruct (@twiddle_angles_finite (length x) k j) as [_ ->]; try lia.
    eexists; reflexivity. }
  destruct Hbin as [sum ->]. eexists; reflexivity.
Qed.

Lemma butterfly_total (n : nat) (evenFFT oddFFT : list complex128) :
  1 <= n -> (Z.of_nat n < 2 ^ 63)%Z ->
  exists r, butterfly cmplx_Exp n evenFFT oddFFT = Ok r.
Proof.
  intros Hn Hb. unfold butterfly. apply for_loop_total. intros k result Hk.
  assert (n / 2 <= n) by (apply Nat.Div0.div_le_upper_bound; lia).
  destruct (@twiddle_angles_finite n k 0) as [-> _]; try lia.
  eexists; reflexivity.
Qed.

(** [computeFFT] returns a spectrum for every slice that is not empty. *)
Lemma computeFFT_total (x : list complex128) :
  x <> [] -> (Z.of_nat (length x) < 2 ^ 63)%Z ->
  exists y, computeFFT cmplx_Exp x = Ok y.
Proof.
  funelim (computeFFT cmplx_Exp x); intros Hx Hb.
  - destruct (Nat.leb_spec (length x) 0) as [H0|_].
    + destruct x; [contradiction|simpl in H0; lia].
    + eexists; reflexivity.
  - destruct (negb (length x mod 2 =? 0)%nat); [now apply dft_total|].
    destruct (split_even_odd_length x) as [Le Lo].
    assert (1 <= length x / 2) by (apply Nat.div_le_lower_bound; lia).
    assert (length x / 2 <= length x)
      by (apply Nat.Div0.div_le_upper_bound; lia).
    destruct H as [evenFFT ->].
    { intros E0. rewrite E0 in Le. cbn [length] in Le. lia. }
    { rewrite Le. lia. }
    destruct (H0 evenFFT) as [oddFFT ->].
    { intros E0. rewrite E0 in Lo. cbn [length] in Lo. lia. }
    { rewrite Lo. lia. }
    apply butterfly_total; lia.
Qed.

End AngleGuard.

Section Radix2.

Variable cmplx_Exp : complex128 -> complex128.

(** The four-point transform: two levels of radix-2 butterflies, with the
    twiddles [cmplx.Exp(-0i)] and [cmplx.Exp(-2*pi*1/4 i)]. *)
Lemma computeFFT_4 (a b c d : complex128) :
  computeFFT cmplx_Exp [a; b; c; d] =
  let w0 := cmplx_Exp (Cplx 0 (-0))%float in
  let w1 := cmplx_Exp (Cplx 0%float
                         (minus_two_pi * float64_of_nat 1 / float64_of_nat 4)%float) in
  let e0 := cadd a (cmul w0 c) in
  let e1 := csub a (cmul w0 c) in
  let o0 := cadd b (cmul w0 d) in
  let o1 := csub b (cmul w0 d) in
  Ok [cadd e0 (cmul w0 o0); cadd e1 (cmul w1 o1);
      csub e0 (cmul w0 o0); csub e1 (cmul w1 o1)].
Proof. vm_compute. reflexivity. Qed.

End Radix2.

(* ===================================================================== *)
(** ** The half spectrum *)
(* ===================================================================== *)

Lemma half_length_max (n : nat) : half_length n = Nat.max 1 (n / 2).
Proof.
  unfold half_length. destruct (Nat.eqb_spec (n / 2) 0); lia.
Qed.

Lemma half_length_le (n : nat) : n <> 0 -> half_length n <= n.
Proof.
  intros H. rewrite half_length_max.
  assert (n / 2 <= n) by (apply Nat.Div0.div_le_upper_bound; lia). lia.
Qed.

Lemma truncate_valid (cs : ComplexSignal) :
  ValidateComplexSignal cs = None -> ValidateComplexSignal (truncate cs) = None.
Proof.
  rewrite !ValidateComplexSignal_None. intros (H0 & H1 & H2 & H3 & H4).
  unfold truncate; simpl.
  pose proof (half_length_le H0) as Hle.
  assert (Hpos : half_length (length (cValues cs)) <> 0)
    by (rewrite half_length_max; lia).
  rewrite !length_firstn.
  repeat split; auto using existsb_firstn_false; lia.
Qed.

Lemma GetPositiveFrequencies_spec (cs : ComplexSignal) :
  ValidateComplexSignal cs = None ->
  GetPositiveFrequencies cs =
  match scanNegative 0 (cFrequencies (truncate cs)) with
  | Some err => Err (NewProcessingError "result validation" err)
  | None => Ok (truncate cs)
  end.
Proof.
  intros Hv. unfold GetPositiveFrequencies. rewrite Hv.
  apply ValidateComplexSignal_None in Hv as Hv'. destruct Hv' as (H0 & _).
  destruct (Nat.eqb_spec (length (cValues cs)) 0); [contradiction|].
  cbv zeta. fold (half_length (length (cValues cs))). fold (truncate cs).
  unfold ValidatePositiveFrequencySignal.
  rewrite (truncate_valid cs Hv). reflexivity.
Qed.


(** The front bins of [generateFrequencies] are never negative. *)
Lemma bin_frequency_front (n : nat) (sampleRate : float64) (i : nat) :
  (sampleRate <=? 0)%float = false -> i < n / 2 ->
  negative (bin_frequency n sampleRate i) = false.
Proof.
  intros Hr Hi. unfold bin_frequency, negative.
  destruct (Nat.ltb_spec i (n / 2)) as [_|]; [|lia].
  apply sign_clear_not_negative.
  rewrite FloatAxioms.div_spec, FloatAxioms.mul_spec.
  apply SFdiv_sign_clear; [apply SFmul_sign_clear|].
  - apply (float64_of_nat_sign_clear i).
  - now apply leb_zero_false_sign_clear.
  - apply (float64_of_nat_sign_clear n).
Qed.

(* ===================================================================== *)
(** ** The impedance calculator *)
(* ===================================================================== *)

Section ImpedanceFacts.

Variable cmplx_Exp : complex128 -> complex128.
Variable math_Atan2 : float64 -> float64 -> float64.

Lemma impedance_loop_Ok (voltage current impedance : list complex128) :
  impedance_loop voltage current = Ok impedance ->
  length impedance = length voltage
  /\ forall i, i < length voltage ->
       nth i impedance czero = impedance_bin voltage current i.
Proof.
  unfold impedance_loop. intros H.
  rewrite (for_loop_ext _
    (fun i a =>
       match (if (cmplx_Abs (nth i current czero) <? near_zero_current)%float
              then Ok (Cplx 0%float 0%float)
              else if bad_complex (cdiv (nth i voltage czero) (nth i current czero))
                   then Err (NewProcessingError "impedance calculation"
                          (NewValidationError "Impedance"
                             ("invalid impedance value at frequency index "
                                ++ fmt_d i)))
                   else Ok (cdiv (nth i voltage czero) (nth i current czero)))
       with
       | Err e => Err e
       | Ok v => Ok (store i v a)
       end)) in H.
  2:{ intros i a. unfold bad_complex.
      destruct (cmplx_Abs _ <? _)%float; [reflexivity|].
      destruct (cmplx_IsNaN _ || cmplx_IsInf _); reflexivity. }
  apply (for_loop_store _ czero) in H; [|rewrite make_length; lia].
  destruct H as (L & V & _). rewrite make_length in L. split; [assumption|].
  intros i Hi. specialize (V i ltac:(lia)). unfold impedance_bin.
  destruct (cmplx_Abs _ <? _)%float; [now inversion V|].
  destruct (bad_complex _); [discriminate|now inversion V].
Qed.

(** What a successful [CalculateImpedance] has gone through. *)
Lemma CalculateImpedance_Ok (voltageSignal currentSignal : Signal)
      (d : ImpedanceData) :
  CalculateImpedance cmplx_Exp math_Atan2 voltageSignal currentSignal = Ok d ->
  exists voltageFFT currentFFT impedance,
    ValidateSignals voltageSignal currentSignal = None
    /\ halfSpectrum cmplx_Exp voltageSignal = Ok voltageFFT
    /\ halfSpectrum cmplx_Exp currentSignal = Ok currentFFT
    /\ length (cValues voltageFFT) = length (cValues currentFFT)
    /\ impedance_loop (cValues voltageFFT) (cValues currentFFT) = Ok impedance
    /\ d = mkImpedanceData (Timestamp voltageSignal) impedance
             (cFrequencies voltageFFT)
             (map cmplx_Abs impedance)
             (map (fun imp => math_Atan2 (im imp) (re imp)) impedance)
    /\ ValidateImpedanceData d = None.
Proof.
  unfold CalculateImpedance, halfSpectrum.
  destruct (ValidateSignals _ _); [discriminate|].
  destruct (ProcessSignal cmplx_Exp voltageSignal) as [V|]; [|discriminate].
  destruct (ProcessSignal cmplx_Exp currentSignal) as [C|]; [|discriminate].
  destruct (GetPositiveFrequencies V) as [V'|]; [|discriminate].
  destruct (GetPositiveFrequencies C) as [C'|]; [|discriminate].
  destruct (Nat.eqb_spec (length (cValues V')) (length (cValues C')));
    simpl; [|discriminate].
  destruct (impedance_loop _ _) as [imp|] eqn:El; [|discriminate].
  rewrite CalculateMagnitudePhase_map. cbn [Impedance zTimestamp zFrequencies].
  destruct (ValidateImpedanceData _) eqn:Ev; [discriminate|].
  intros H; inversion H; subst.
  exists V', C', imp. repeat split; auto.
Qed.

End ImpedanceFacts.

Section ZeroCurrent.

Variable cmplx_Exp : complex128 -> complex128.
Variable math_Atan2 : float64 -> float64 -> float64.








End ZeroCurrent.

(* ===================================================================== *)
(** ** The reference library and the test suite *)
(* ===================================================================== *)

(** The reference [cmplx.Exp] returns finite parts on finite angles. *)
Lemma clamp_unit_finite (y : float64) :
  PrimFloat.is_finite (Reference.clamp_unit y) = true.
Proof.
  unfold Reference.clamp_unit.
  destruct (y <? -1)%float eqn:E1; [reflexivity|].
  destruct (1 <? y)%float eqn:E2; [reflexivity|].
  unfold math_IsNaN.
  destruct (PrimFloat.is_nan y) eqn:E3; [reflexivity|].
  rewrite is_finite_spec.
  rewrite is_nan_spec in E3. rewrite FloatAxioms.ltb_spec in E1, E2.
  change (Prim2SF 1) with (S754_finite false 4503599627370496 (-52)) in E2.
  change (Prim2SF (-1)) with (S754_finite true 4503599627370496 (-52)) in E1.
  destruct (Prim2SF y) as [s|[|]| |s m e]; try reflexivity; discriminate.
Qed.

Lemma Reference_Exp_finite : Exp_finite Reference.cmplx_Exp.
Proof.
  intros angle Ha. unfold Reference.cmplx_Exp. cbn [im]. rewrite Ha.
  split; cbn [re im]; apply clamp_unit_finite.
Qed.

Lemma dc_measurement :
  CalculateImpedance Reference.cmplx_Exp Reference.math_Atan2
                     dc_voltage dc_current = Ok dc_impedance.
Proof. vm_compute. reflexivity. Qed.

(* ===================================================================== *)
(** ** The claims of the specification *)
(* ===================================================================== *)

(** *** C1: size of the half spectrum *)

(** C1 (half-spectrum size, as amended).  For every valid full spectrum of
    length [n] whose first [max(1, n/2)] frequency bins are not negative, and in
    particular for every spectrum that [ProcessSignal] returns for a signal of
    at least two samples, [GetPositiveFrequencies] succeeds and returns exactly
    the first [max(1, n/2)] values and frequencies; for [n] in 1..5 these are
    1, 1, 1, 2, 2 entries. *)
Theorem C1_half_spectrum_size (cs : ComplexSignal) :
  ValidateComplexSignal cs = None ->
  let n := length (cValues cs) in
  (existsb negative (firstn (Nat.max 1 (n / 2)) (cFrequencies cs)) = false
   \/ exists cmplx_Exp sig,
        2 <= length (Values sig) /\ ProcessSignal cmplx_Exp sig = Ok cs) ->
  exists r,
    GetPositiveFrequencies cs = Ok r
    /\ cValues r = firstn (Nat.max 1 (n / 2)) (cValues cs)
    /\ cFrequencies r = firstn (Nat.max 1 (n / 2)) (cFrequencies cs)
    /\ length (cValues r) = Nat.max 1 (n / 2)
    /\ length (cFrequencies r) = Nat.max 1 (n / 2)
    /\ (1 <= n <= 5 -> length (cValues r) = nth (n - 1) [1; 1; 1; 2; 2] 0).
Proof.
  intros Hv n Hfront.
  assert (Hneg : existsb negative
                   (firstn (Nat.max 1 (n / 2)) (cFrequencies cs)) = false).
  { destruct Hfront as [H|(E & sig & Hlen & Hp)]; [assumption|].
    apply ProcessSignal_Ok in Hp as (Hs & (fftResult & Hf & ->) & _).
    apply computeFFT_length in Hf. rewrite length_map in Hf.
    apply ValidateSignal_accepts in Hs as (_ & Hr & _).
    subst n. cbn [cValues cFrequencies]. rewrite Hf.
    set (m := length (Values sig)) in *.
    assert (1 <= m / 2) by (apply Nat.div_le_lower_bound; lia).
    assert (m / 2 <= m) by (apply Nat.Div0.div_le_upper_bound; lia).
    apply (existsb_false_nth negative 0%float). intros i Hi.
    rewrite length_firstn, length_map, length_seq in Hi.
    rewrite nth_firstn.
    destruct (Nat.ltb_spec i (Nat.max 1 (m / 2))) as [_|]; [|lia].
    rewrite (nth_indep _ 0%float (bin_frequency m (SampleRate sig) 0))
      by (rewrite length_map, length_seq; lia).
    rewrite map_nth, seq_nth by lia.
    apply bin_frequency_front; [assumption|lia]. }
  apply ValidateComplexSignal_None in Hv as Hv'.
  destruct Hv' as (H0 & Hl & _). fold n in H0, Hl.
  pose proof (half_length_le H0) as Hle. fold n in Hle.
  rewrite half_length_max in Hle.
  exists (truncate cs). unfold truncate. fold n.
  rewrite half_length_max. cbn [cValues cFrequencies].
  rewrite (GetPositiveFrequencies_spec cs Hv). unfold truncate. fold n.
  rewrite half_length_max. cbn [cFrequencies].
  rewrite (proj2 (scanNegative_None 0 _) Hneg).
  rewrite !length_firstn, <- Hl.
  repeat split; try lia.
  intros Hn. fold n.
  replace (Nat.min (Nat.max 1 (n / 2)) n) with (Nat.max 1 (n / 2)) by lia.
  clearbody n.
  assert (Hc : n = 1 \/ n = 2 \/ n = 3 \/ n = 4 \/ n = 5) by lia.
  destruct Hc as [->|[->|[->|[->| ->]]]]; reflexivity.
Qed.

Lemma C1_half_spectrum_size_witness :
  ValidateComplexSignal four_bins = None
  /\ exists r, GetPositiveFrequencies four_bins = Ok r /\ length (cValues r) = 2.
Proof.
  split; [reflexivity|].
  destruct (@C1_half_spectrum_size four_bins) as (r & H1 & _ & _ & H2 & _);
    [reflexivity|left; reflexivity|].
  exists r. split; [exact H1|exact H2].
Defined.

(** C1, as stated, fails: the spectrum that [ProcessSignal] returns for one
    sample at the positive sample rate 4 is a valid full spectrum of length 1,
    its only bin is labelled -4 Hz, and [GetPositiveFrequencies] rejects it
    instead of returning one entry. *)
Lemma C1_counterexample :
  (forall cmplx_Exp, ProcessSignal cmplx_Exp one_sample = Ok one_sample_spectrum)
  /\ ValidateComplexSignal one_sample_spectrum = None
  /\ GetPositiveFrequencies one_sample_spectrum
     = Err (ProcessingError "result validation"
              (ValidationError "Frequencies"
                 "negative frequency found at index 0")).
Proof.
  repeat split; intros; vm_compute; reflexivity.
Qed.

(** *** C2: the spectrum of an impulse *)

(** C2 (impulse, as amended).  When [cmplx.Exp] returns finite parts on finite
    angles, [ProcessSignal] on the impulse [1,0,0,0] at sample rate 4 returns a
    spectrum of 4 values, each equal to [1+0i], whose frequency sequence is
    [0, 1, -2, -1]. *)
Theorem C2_impulse_spectrum (cmplx_Exp : complex128 -> complex128) :
  Exp_finite cmplx_Exp ->
  exists r,
    ProcessSignal cmplx_Exp impulse = Ok r
    /\ length (cValues r) = 4
    /\ (forall v, In v (cValues r) -> ceqb v (Cplx 1 0)%float = true)
    /\ cFrequencies r = [0; 1; -2; -1]%float.
Proof.
  intros HE.
  pose proof (HE (-0)%float eq_refl) as H0.
  pose proof (HE (minus_two_pi * float64_of_nat 1 / float64_of_nat 4)%float
                 eq_refl) as H1.
  assert (Z : czero_value czero) by (split; left; reflexivity).
  assert (O : cone_value (Cplx 1 0)%float) by (split; [|left]; reflexivity).
  pose proof (computeFFT_4 cmplx_Exp (Cplx 1 0)%float czero czero czero) as Hf.
  cbv zeta in Hf.
  set (w0 := cmplx_Exp (Cplx 0 (-0))%float) in *.
  set (w1 := cmplx_Exp
               (Cplx 0%float
                  (minus_two_pi * float64_of_nat 1 / float64_of_nat 4)%float))
    in *.
  set (e0 := cadd (Cplx 1 0)%float (cmul w0 czero)) in *.
  set (e1 := csub (Cplx 1 0)%float (cmul w0 czero)) in *.
  set (o0 := cadd czero (cmul w0 czero)) in *.
  set (o1 := csub czero (cmul w0 czero)) in *.
  assert (He0 : cone_value e0) by (apply cadd_one_zero, cmul_finite_zero; auto).
  assert (He1 : cone_value e1) by (apply csub_one_zero, cmul_finite_zero; auto).
  assert (Ho0 : czero_value o0)
    by (apply cadd_zero_zero; [|apply cmul_finite_zero]; auto).
  assert (Ho1 : czero_value o1)
    by (apply csub_zero_zero; [|apply cmul_finite_zero]; auto).
  set (fftResult := [cadd e0 (cmul w0 o0); cadd e1 (cmul w1 o1);
                     csub e0 (cmul w0 o0); csub e1 (cmul w1 o1)]) in *.
  assert (Hall : forall v, In v fftResult -> cone_value v).
  { intros v [<-|[<-|[<-|[<-|[]]]]].
    - apply cadd_one_zero, cmul_finite_zero; auto.
    - apply cadd_one_zero, cmul_finite_zero; auto.
    - apply csub_one_zero, cmul_finite_zero; auto.
    - apply csub_one_zero, cmul_finite_zero; auto. }
  exists (mkComplexSignal (Timestamp impulse) fftResult [0; 1; -2; -1]%float).
  split; [|split; [reflexivity|split; [|reflexivity]]].
  - unfold ProcessSignal.
    change (ValidateSignal impulse) with (@None error). cbv iota.
    change (length (Values impulse) =? 0) with false. cbv iota zeta.
    rewrite range_store_map.
    change (map (fun val => Cplx val 0%float) (Values impulse))
      with [Cplx 1 0; czero; czero; czero]%float.
    rewrite Hf.
    change (generateFrequencies (length (Values impulse)) (SampleRate impulse))
      with (Ok [0; 1; -2; -1]%float).
    cbv iota beta.
    rewrite (proj2 (ValidateComplexSignal_None _)); [reflexivity|].
    cbn [cValues cFrequencies cTimestamp].
    repeat split; try discriminate; try reflexivity.
    apply (existsb_false_nth bad_complex czero). intros i Hi.
    apply cone_value_eq, Hall, nth_In, Hi.
  - intros v Hv. now apply cone_value_eq, Hall.
Qed.

Lemma C2_impulse_spectrum_witness :
  Exp_finite Reference.cmplx_Exp
  /\ exists r,
       ProcessSignal Reference.cmplx_Exp impulse = Ok r
       /\ length (cValues r) = 4
       /\ (forall v, In v (cValues r) -> ceqb v (Cplx 1 0)%float = true)
       /\ cFrequencies r = [0; 1; -2; -1]%float.
Proof.
  split; [exact Reference_Exp_finite|].
  exact (C2_impulse_spectrum Reference_Exp_finite).
Defined.

(** C2, as stated, fails on the frequency sequence: the bin at index 2 of the
    impulse's spectrum is labelled -2 Hz, not 2 Hz, whatever [cmplx.Exp]
    computes. *)
Lemma C2_counterexample :
  generateFrequencies 4 4%float = Ok [0; 1; -2; -1]%float
  /\ (nth 2 [0; 1; -2; -1] 0 =? 2)%float = false
  /\ forall cmplx_Exp r,
       ProcessSignal cmplx_Exp impulse = Ok r ->
       cFrequencies r = [0; 1; -2; -1]%float
       /\ cFrequencies r <> [0; 1; 2; -1]%float.
Proof.
  split; [reflexivity|]. split; [reflexivity|].
  intros E r H. apply ProcessSignal_Ok in H as (_ & (fftResult & _ & ->) & _).
  cbn [cFrequencies]. split; [reflexivity|].
  intros Heq.
  assert (Hc : (nth 2 [0; 1; 2; -1] 0 =? 2)%float = false);
    [rewrite <- Heq; reflexivity|discriminate Hc].
Qed.

(** *** C3: layout of the frequency bins *)

(** C3 (frequency layout).  For every signal length [n >= 1] and every sample
    rate [> 0], [generateFrequencies] returns [n] bins, and bin [i] is
    [i*sampleRate/n] when [i < n/2] (integer division) and
    [(i-n)*sampleRate/n] otherwise, each computed in binary64 in this order;
    and the frequency sequence of every spectrum that [ProcessSignal] returns
    for a signal of that length and rate is this sequence. *)
Theorem C3_frequency_layout (n : nat) (sampleRate : float64) :
  1 <= n -> (0 <? sampleRate)%float = true ->
  exists frequencies,
    generateFrequencies n sampleRate = Ok frequencies
    /\ length frequencies = n
    /\ (forall i, i < n ->
          nth i frequencies 0%float =
          if (i <? n / 2)%nat then
            (float64_of_int (Z.of_nat i) * sampleRate
             / float64_of_int (Z.of_nat n))%float
          else
            (float64_of_int (Z.of_nat i - Z.of_nat n) * sampleRate
             / float64_of_int (Z.of_nat n))%float)
    /\ (forall cmplx_Exp sig r,
          length (Values sig) = n -> SampleRate sig = sampleRate ->
          ProcessSignal cmplx_Exp sig = Ok r ->
          cFrequencies r = frequencies).
Proof.
  intros Hn Hr. apply ltb_zero_leb_false in Hr.
  exists (map (bin_frequency n sampleRate) (seq 0 n)).
  split; [apply generateFrequencies_Ok; auto; lia|].
  split; [now rewrite length_map, length_seq|].
  split.
  - intros i Hi.
    rewrite (nth_indep _ 0%float (bin_frequency n sampleRate 0))
      by (rewrite length_map, length_seq; lia).
    rewrite map_nth, seq_nth by lia. reflexivity.
  - intros E sig r Hl Hs H.
    apply ProcessSignal_Ok in H as (_ & (fftResult & _ & ->) & _).
    simpl. now rewrite Hl, Hs.
Qed.

Lemma C3_frequency_layout_witness :
  exists frequencies,
    generateFrequencies 5 0x1.4p+3%float = Ok frequencies
    /\ length frequencies = 5
    /\ nth 1 frequencies 0%float = 2%float
    /\ nth 2 frequencies 0%float = (-6)%float.
Proof.
  destruct (@C3_frequency_layout 5 0x1.4p+3%float) as (fs & H1 & H2 & H3 & _);
    [lia|reflexivity|].
  exists fs.
  split; [exact H1|]. split; [exact H2|].
  split; [exact (H3 1 ltac:(lia))|exact (H3 2 ltac:(lia))].
Defined.

(** *** C4: the near-zero-current guard *)



(** *** C5: compatibility of the two signals *)

(** C5 (signal compatibility).  For every pair of individually valid voltage
    and current signals, [ValidateSignals] makes its three checks in the order
    length, sample rate, timestamp and reports the first one that fails: it
    fails with [ErrMismatchedSignalLength] when the value sequences differ in
    length; with [ErrMismatchedSampleRate] when, the lengths agreeing, the
    sample rates differ; with the timestamp error when, lengths and rates
    agreeing, the timestamps are more than 100 ms (100 000 000 ns) apart; and
    [CalculateImpedance] returns whatever error [ValidateSignals] reports,
    wrapped as a "signal validation" processing error and without a result,
    whatever the transform of either signal would be. *)
Theorem C5_first_mismatch_reported
        (cmplx_Exp : complex128 -> complex128)
        (math_Atan2 : float64 -> float64 -> float64)
        (voltageSignal currentSignal : Signal) :
  ValidateSignal voltageSignal = None ->
  ValidateSignal currentSignal = None ->
  (length (Values voltageSignal) <> length (Values currentSignal) ->
   ValidateSignals voltageSignal currentSignal = Some ErrMismatchedSignalLength)
  /\ (length (Values voltageSignal) = length (Values currentSignal) ->
      (SampleRate voltageSignal =? SampleRate currentSignal)%float = false ->
      ValidateSignals voltageSignal currentSignal = Some ErrMismatchedSampleRate)
  /\ (length (Values voltageSignal) = length (Values currentSignal) ->
      (SampleRate voltageSignal =? SampleRate currentSignal)%float = true ->
      (100000000
       < Z.abs (Timestamp voltageSignal - Timestamp currentSignal))%Z ->
      ValidateSignals voltageSignal currentSignal = Some TimestampDrift)
  /\ (forall err,
        ValidateSignals voltageSignal currentSignal = Some err ->
        CalculateImpedance cmplx_Exp math_Atan2 voltageSignal currentSignal
        = Err (ProcessingError "signal validation" err)).
Proof.
  intros Hv Hc. unfold ValidateSignals, ValidateSignalsMatch. rewrite Hv, Hc.
  fold (timestamp_drift voltageSignal currentSignal).
  repeat split.
  - intros Hl. apply Nat.eqb_neq in Hl. now rewrite Hl.
  - intros Hl Hr. apply Nat.eqb_eq in Hl. now rewrite Hl, Hr.
  - intros Hl Hr Hd. apply Nat.eqb_eq in Hl.
    now rewrite Hl, Hr, (timestamp_drift_above _ _ Hd).
  - intros err He. unfold CalculateImpedance, ValidateSignals.
    rewrite Hv, Hc. unfold ValidateSignalsMatch.
    fold (timestamp_drift voltageSignal currentSignal). now rewrite He.
Qed.

Lemma C5_first_mismatch_reported_witness :
  ValidateSignal two_at_4 = None /\ ValidateSignal late_current = None
  /\ ValidateSignal one_at_8 = None
  /\ ValidateSignals two_at_4 one_at_8 = Some ErrMismatchedSignalLength
  /\ ValidateSignals two_at_4 late_current = Some TimestampDrift
  /\ ValidateSignals two_at_4 on_time_current = None
  /\ CalculateImpedance Reference.cmplx_Exp Reference.math_Atan2
                        two_at_4 late_current
     = Err (ProcessingError "signal validation" TimestampDrift).
Proof.
  destruct (@C5_first_mismatch_reported Reference.cmplx_Exp Reference.math_Atan2
              two_at_4 late_current eq_refl eq_refl) as (_ & _ & H3 & H4).
  destruct (@C5_first_mismatch_reported Reference.cmplx_Exp Reference.math_Atan2
              two_at_4 one_at_8 eq_refl eq_refl) as (H1 & _).
  split; [reflexivity|]. split; [reflexivity|]. split; [reflexivity|].
  split; [apply H1; discriminate|].
  split; [apply H3; reflexivity|]. split; [reflexivity|].
  apply H4. apply H3; reflexivity.
Defined.

(** *** C6: the signal validator *)

(** C6 (code defect).  [ValidateSignal] accepts [nan_rate]: the signal is not
    empty, its timestamp is not zero and its sample is finite, but its sample
    rate is NaN, which is not greater than 0; the guard [SampleRate <= 0] is
    false on NaN, so the validator that says "sample rate must be greater than
    0" lets it through. *)
Theorem C6_nan_sample_rate_accepted :
  length (Values nan_rate) = 1
  /\ (0 <? SampleRate nan_rate)%float = false
  /\ (SampleRate nan_rate <=? 0)%float = false
  /\ ValidateSignal nan_rate = None.
Proof. repeat split; reflexivity. Qed.

(** *** C7: magnitude and phase *)

(** C7 (magnitude and phase).  For every [ImpedanceData] that
    [CalculateImpedance] returns, the magnitude and phase sequences have the
    length of the impedance sequence and, at every bin [i], the stored
    magnitude is [cmplx.Abs] of the stored impedance and the stored phase is
    [math.Atan2] of its imaginary and real parts: recomputing them gives the
    stored binary64 values exactly, hence within any tolerance. *)
Theorem C7_magnitude_phase_recomputable
        (cmplx_Exp : complex128 -> complex128)
        (math_Atan2 : float64 -> float64 -> float64)
        (voltageSignal currentSignal : Signal) (d : ImpedanceData) :
  CalculateImpedance cmplx_Exp math_Atan2 voltageSignal currentSignal = Ok d ->
  length (Magnitude d) = length (Impedance d)
  /\ length (Phase d) = length (Impedance d)
  /\ forall i, i < length (Impedance d) ->
       nth i (Magnitude d) 0%float = cmplx_Abs (nth i (Impedance d) czero)
       /\ nth i (Phase d) 0%float
          = math_Atan2 (im (nth i (Impedance d) czero))
                       (re (nth i (Impedance d) czero)).
Proof.
  intros H.
  apply CalculateImpedance_Ok in H
    as (V & C & imp & _ & _ & _ & _ & _ & -> & _).
  simpl. rewrite !length_map. repeat split; auto.
  - rewrite (nth_indep _ 0%float (cmplx_Abs czero)) by (rewrite length_map; lia).
    apply map_nth.
  - rewrite (nth_indep _ 0%float (math_Atan2 (im czero) (re czero)))
      by (rewrite length_map; lia).
    apply (map_nth (fun imp => math_Atan2 (im imp) (re imp))).
Qed.

Lemma C7_magnitude_phase_recomputable_witness :
  CalculateImpedance Reference.cmplx_Exp Reference.math_Atan2
                     dc_voltage dc_current = Ok dc_impedance
  /\ nth 0 (Magnitude dc_impedance) 0%float
     = cmplx_Abs (nth 0 (Impedance dc_impedance) czero)
  /\ nth 1 (Phase dc_impedance) 0%float
     = Reference.math_Atan2 (im (nth 1 (Impedance dc_impedance) czero))
                            (re (nth 1 (Impedance dc_impedance) czero)).
Proof.
  split; [exact dc_measurement|].
  destruct (C7_magnitude_phase_recomputable _ _ _ _ dc_measurement)
    as (_ & _ & H).
  split; [apply (H 0)|apply (H 1)]; simpl; lia.
Defined.

(** *** C8: length of the transform *)




(** *** C9: the angle guard *)

(** C9 (angle guard).  For every input slice that is not empty (its length an
    [int]), whatever its values and whatever [cmplx.Exp] computes: every
    twiddle angle [-2*pi*k/n] and [-2*pi*k*j/n] with [0 <= k, j < n] and [n]
    between 1 and the length of the slice is neither NaN nor infinite, so
    the guard never fires; and [computeFFT] returns a spectrum of the length of
    the slice, never an error. *)
Theorem C9_angle_guard_unreachable
        (cmplx_Exp : complex128 -> complex128) (x : list complex128) :
  x <> [] -> (Z.of_nat (length x) < 2 ^ 63)%Z ->
  (forall n k j, 1 <= n <= length x -> k < n -> j < n ->
     invalid_angle (minus_two_pi * float64_of_nat k / float64_of_nat n)%float
     = false
     /\ invalid_angle (minus_two_pi * float64_of_nat k * float64_of_nat j
                       / float64_of_nat n)%float = false)
  /\ exists y, computeFFT cmplx_Exp x = Ok y /\ length y = length x.
Proof.
  intros Hx Hb. split.
  - intros n k j Hn Hk Hj. apply twiddle_angles_finite; lia.
  - destruct (computeFFT_total cmplx_Exp Hx Hb) as [y Hy].
    exists y. split; [assumption|]. eapply computeFFT_length; eauto.
Qed.

Lemma C9_angle_guard_unreachable_witness :
  invalid_angle (minus_two_pi * float64_of_nat 2 * float64_of_nat 1
                 / float64_of_nat 3)%float = false
  /\ exists y,
       computeFFT Reference.cmplx_Exp
                  [Cplx 1 0; Cplx 2 0; Cplx 3 0]%float = Ok y
       /\ length y = 3.
Proof.
  destruct (@C9_angle_guard_unreachable Reference.cmplx_Exp
              [Cplx 1 0; Cplx 2 0; Cplx 3 0]%float) as [Ha Hy];
    [discriminate|simpl; lia|].
  split; [|exact Hy].
  apply (Ha 3 2 1); simpl; lia.
Defined.

(** *** C10: timestamp of the result *)

(** C10 (timestamp of the result).  For every successful call of
    [CalculateImpedance], the timestamp of the returned [ImpedanceData] is the
    timestamp of the voltage signal, whatever the current signal's timestamp
    and every other field of the two inputs are. *)
Theorem C10_result_timestamp_is_voltage
        (cmplx_Exp : complex128 -> complex128)
        (math_Atan2 : float64 -> float64 -> float64)
        (voltageSignal currentSignal : Signal) (d : ImpedanceData) :
  CalculateImpedance cmplx_Exp math_Atan2 voltageSignal currentSignal = Ok d ->
  zTimestamp d = Timestamp voltageSignal.
Proof.
  intros H.
  apply CalculateImpedance_Ok in H
    as (V & C & imp & _ & _ & _ & _ & _ & -> & _).
  reflexivity.
Qed.

Lemma C10_result_timestamp_is_voltage_witness :
  CalculateImpedance Reference.cmplx_Exp Reference.math_Atan2
                     dc_voltage dc_current = Ok dc_impedance
  /\ Timestamp dc_voltage <> Timestamp dc_current
  /\ zTimestamp dc_impedance = Timestamp dc_voltage.
Proof.
  split; [exact dc_measurement|]. split; [discriminate|].
  exact (C10_result_timestamp_is_voltage _ _ _ _ dc_measurement).
Defined.

(* ===================================================================== *)
(** ** Further lemmas: validators *)
(* ===================================================================== *)

Lemma bad_value_finite (f : float64) :
  bad_value f = false <-> PrimFloat.is_finite f = true.
Proof.
  unfold bad_value, math_IsNaN, math_IsInf.
  rewrite is_nan_spec, is_infinity_spec, is_finite_spec.
  destruct (Prim2SF f); simpl; split; congruence.
Qed.

Lemma bad_complex_finite (v : complex128) :
  bad_complex v = false <-> cfinite v.
Proof.
  unfold bad_complex, cmplx_IsNaN, cmplx_IsInf, cfinite, math_IsNaN, math_IsInf.
  rewrite !is_nan_spec, !is_infinity_spec, !is_finite_spec.
  destruct (Prim2SF (re v)), (Prim2SF (im v)); simpl; split;
    try congruence; try tauto; intros [? ?]; congruence.
Qed.

Lemma existsb_false_In (A : Type) (p : A -> bool) (l : list A) :
  existsb p l = false <-> (forall x, In x l -> p x = false).
Proof.
  induction l as [|a l IH]; simpl; [tauto|].
  rewrite orb_false_iff, IH. split.
  - intros [Ha Hl] x [<-|Hx]; auto.
  - intros H. split; [apply H; auto|]. intros x Hx. apply H; auto.
Qed.

Lemma scanComplex_Some (f n m : string) (i : nat) (vs : list complex128)
      (e : error) :
  scanComplex f n m i vs = Some e ->
  exists k, k < length vs
    /\ (forall j, j < k -> bad_complex (nth j vs czero) = false)
    /\ bad_complex (nth k vs czero) = true
    /\ e = (if cmplx_IsNaN (nth k vs czero)
            then NewValidationError f (n ++ fmt_d (i + k))
            else NewValidationError f (m ++ fmt_d (i + k))).
Proof.
  revert i; induction vs as [|v vs IH]; intros i; simpl; [discriminate|].
  destruct (cmplx_IsNaN v) eqn:En.
  { intros H; inversion H; subst. exists 0. rewrite Nat.add_0_r.
    repeat split; try lia; [|now rewrite En].
    unfold bad_complex. now rewrite En. }
  destruct (cmplx_IsInf v) eqn:Ei.
  { intros H; inversion H; subst. exists 0. rewrite Nat.add_0_r.
    repeat split; try lia; [|now rewrite En].
    unfold bad_complex. now rewrite En, Ei. }
  intros H. apply IH in H as (k & Hk & Hb & Hbk & ->).
  exists (S k). repeat split; try lia.
  - intros [|j] Hj; [unfold bad_complex; now rewrite En, Ei|].
    apply Hb. lia.
  - exact Hbk.
  - simpl. now rewrite Nat.add_succ_r.
Qed.

Lemma scanFrequencies_Some (i : nat) (fs : list float64) (e : error) :
  scanFrequencies i fs = Some e ->
  exists k, k < length fs
    /\ (forall j, j < k -> bad_value (nth j fs 0%float) = false)
    /\ bad_value (nth k fs 0%float) = true
    /\ e = frequency_error (i + k) (nth k fs 0%float).
Proof.
  revert i; induction fs as [|v fs IH]; intros i; simpl; [discriminate|].
  destruct (math_IsNaN v) eqn:En.
  { intros H; inversion H; subst. exists 0. rewrite Nat.add_0_r.
    repeat split; try lia; [unfold bad_value; now rewrite En|].
    unfold frequency_error. simpl. now rewrite En. }
  destruct (math_IsInf v) eqn:Ei.
  { intros H; inversion H; subst. exists 0. rewrite Nat.add_0_r.
    repeat split; try lia; [unfold bad_value; now rewrite En, Ei|].
    unfold frequency_error. simpl. now rewrite En. }
  intros H. apply IH in H as (k & Hk & Hb & Hbk & ->).
  exists (S k). repeat split; try lia.
  - intros [|j] Hj; [unfold bad_value; now rewrite En, Ei|].
    apply Hb. lia.
  - exact Hbk.
  - simpl. now rewrite Nat.add_succ_r.
Qed.

(** No NaN and no infinity in a slice, element by element. *)
Lemma all_finite_complex (l : list complex128) :
  existsb bad_complex l = false
  <-> (forall v, In v l ->
         PrimFloat.is_finite (re v) = true /\ PrimFloat.is_finite (im v) = true).
Proof.
  rewrite existsb_false_In. split; intros H v Hv.
  - apply (proj1 (bad_complex_finite v)). apply H, Hv.
  - apply (proj2 (bad_complex_finite v)). exact (H v Hv).
Qed.

Lemma all_finite (l : list float64) :
  existsb bad_value l = false
  <-> (forall f, In f l -> PrimFloat.is_finite f = true).
Proof.
  rewrite existsb_false_In. split; intros H f Hf.
  - apply (proj1 (bad_value_finite f)). apply H, Hf.
  - apply (proj2 (bad_value_finite f)). exact (H f Hf).
Qed.

Lemma length_not_nil (A : Type) (l : list A) : length l <> 0 <-> l <> [].
Proof. destruct l; simpl; split; congruence. Qed.

(* ===================================================================== *)
(** ** Further lemmas: durations within the drift tolerance *)
(* ===================================================================== *)

Section Tolerance.
Local Open Scope Z_scope.

Lemma within_tolerance_ltb (x : float64) :
  within_tolerance (Prim2SF x) ->
  (drift_tolerance <? PrimFloat.abs x)%float = false.
Proof.
  rewrite FloatAxioms.ltb_spec, FloatAxioms.abs_spec, drift_tolerance_spec.
  destruct (Prim2SF x) as [s|s| |s m e]; cbn [within_tolerance SFabs];
    try contradiction; try reflexivity.
  unfold SFltb, SFcompare, tolerance_exponent, tolerance_mantissa.
  intros [H|[-> H]].
  - apply Z.compare_gt_iff in H. now rewrite H.
  - rewrite Z.compare_refl.
    change (PosDef.Pos.compare_cont Eq 7205759403792794 m)
      with (Pos.compare 7205759403792794 m).
    destruct (Pos.compare_spec 7205759403792794 m) as [E|L|G]; try reflexivity.
    lia.
Qed.

(** What [shr_fexp] leaves of the mantissa. *)
Lemma shr_fexp_m (m e : Z) (l : location) :
  0 <= m ->
  let '(mrs, e') := shr_fexp prec emax m e l in
  e <= e' /\ shr_m mrs = m / 2 ^ (e' - e).
Proof.
  intros Hm. unfold shr_fexp, shr.
  destruct (fexp prec emax (Zdigits2 m + e) - e) as [|p|p] eqn:E.
  - rewrite Z.sub_diag, Z.div_1_r, shr_record_of_loc_m. lia.
  - rewrite iter_pos_shr_1 by (rewrite shr_record_of_loc_m; lia).
    rewrite shr_record_of_loc_m. split; [lia|]. f_equal. f_equal. lia.
  - rewrite Z.sub_diag, Z.div_1_r, shr_record_of_loc_m. lia.
Qed.

Lemma round_nearest_even_succ (m : Z) (l : location) :
  round_nearest_even m l <= m + 1.
Proof. destruct l as [|[| |]]; simpl; try (destruct (Z.even m)); lia. Qed.

(** A quotient that, cut at the exponent of [0.1], is below the mantissa of
    [0.1], rounds to a value that is at most [0.1]. *)
Lemma binary_round_aux_within (s : bool) (q e : Z) (l : location) :
  0 <= q -> e <= tolerance_exponent ->
  q / 2 ^ (tolerance_exponent - e) + 1 <= Z.pos tolerance_mantissa ->
  within_tolerance (binary_round_aux prec emax s q e l).
Proof.
  unfold tolerance_exponent, tolerance_mantissa. intros Hq He Hb.
  assert (Hdq : Zdigits2 q <= 53 + (-56 - e)).
  { apply Zdigits2_lt_pow2; [lia|lia|].
    rewrite Z.pow_add_r by lia.
    assert (0 < 2 ^ (-56 - e)) by (apply Z.pow_pos_nonneg; lia).
    assert (q / 2 ^ (-56 - e) < 2 ^ 53) by lia.
    pose proof (Z.mul_succ_div_gt q (2 ^ (-56 - e)) H) as G.
    nia. }
  unfold binary_round_aux.
  pose proof (shr_fexp_m e l Hq) as M1.
  pose proof (shr_fexp_bounds e l Hq) as B1.
  destruct (shr_fexp prec emax q e l) as [mrs' e'].
  destruct M1 as [Le1 M1]. destruct B1 as (Hm1 & Ee1 & D1).
  pose proof (round_nearest_even_succ (shr_m mrs') (loc_of_shr_record mrs')) as Hr.
  pose proof (round_nearest_even_bounds (loc_of_shr_record mrs') Hm1) as [Hr0 _].
  set (m2 := round_nearest_even (shr_m mrs') (loc_of_shr_record mrs')) in *.
  clearbody m2.
  pose proof (shr_fexp_m e' loc_Exact Hr0) as M2.
  pose proof (shr_fexp_bounds e' loc_Exact Hr0) as B2.
  destruct (shr_fexp prec emax m2 e' loc_Exact) as [mrs'' e''].
  destruct M2 as [Le2 M2]. destruct B2 as (Hm2 & Ee2 & D2).
  unfold fexp, SpecFloat.emin, prec, emax in *.
  assert (He' : e' <= -56) by lia.
  assert (Hd1 : Zdigits2 (shr_m mrs') <= 53) by lia.
  assert (Hlt1 : shr_m mrs' < 2 ^ 53).
  { pose proof (Zdigits2_upper Hm1) as U.
    apply Z.lt_le_trans with (1 := U). apply Z.pow_le_mono_r; lia. }
  assert (He'' : e'' < -56 \/ (e'' = -56 /\ shr_m mrs'' <= 7205759403792794)).
  { destruct (Z.eq_dec e' (-56)) as [E56|N56].
    - right. rewrite E56 in *. rewrite M1 in Hr.
      assert (Hd2 : Zdigits2 m2 <= 53).
      { apply Zdigits2_lt_pow2; lia. }
      assert (E'' : e'' = -56) by lia. split; [assumption|].
      rewrite M2, E''. change (-56 - -56) with 0. rewrite Z.div_1_r. lia.
    - assert (Hd2 : Zdigits2 m2 <= 54).
      { apply Zdigits2_lt_pow2; lia. }
      destruct (Z.eq_dec e'' (-56)) as [E|N]; [|left; lia].
      right. split; [assumption|]. rewrite M2.
      assert (e'' - e' = 1) by lia. rewrite H.
      change (2 ^ 1) with 2.
      assert (m2 / 2 <= 2 ^ 52) by (apply Z.div_le_upper_bound; lia).
      lia. }
  destruct (shr_m mrs'') as [|m3|m3]; cbn [within_tolerance]; auto; try lia.
  destruct (Z.leb_spec e'' (1024 - 53)) as [_|H]; [|lia].
  cbn [within_tolerance]. unfold tolerance_exponent, tolerance_mantissa. lia.
Qed.

(** The conversion of a positive integer of at most 52 binary digits is
    exact. *)
Lemma binary_round_exact (s : bool) (p : positive) :
  Z.pos (digits2_pos p) <= 52 ->
  exists m, binary_round prec emax s p 0
            = S754_finite s m (Z.pos (digits2_pos p) - 53)
            /\ Z.pos m = Z.pos p * 2 ^ (53 - Z.pos (digits2_pos p))
            /\ Z.pos (digits2_pos m) = 53.
Proof.
  intros Hd. unfold binary_round, shl_align.
  replace (fexp prec emax (Z.pos (digits2_pos p) + 0))
    with (Z.pos (digits2_pos p) - 53)
    by (unfold fexp, SpecFloat.emin, prec, emax; lia).
  destruct (Z.pos (digits2_pos p) - 53 - 0) as [|k|k] eqn:E; try lia.
  exists (Pos.iter xO p k).
  assert (Hd' : Z.pos (digits2_pos (Pos.iter xO p k)) = 53)
    by (rewrite digits2_pos_iter_xO; lia).
  split; [apply binary_round_aux_exact; [assumption|lia]|].
  split; [|assumption].
  rewrite iter_xO_value. f_equal. f_equal. lia.
Qed.

(** The quotient by [1e9] of a count of at most [10^8] nanoseconds. *)
Lemma SFdiv_nanos_within (sigma : bool) (m : positive) (B d : Z) :
  0 < B <= 100000000 -> 1 <= d <= 27 ->
  Z.pos m = B * 2 ^ (53 - d) -> Z.pos (digits2_pos m) = 53 ->
  within_tolerance (SFdiv prec emax (S754_finite sigma m (d - 53))
                          (S754_finite false nanos_mantissa (-23))).
Proof.
  intros HB Hd Hm Hdm. cbn [SFdiv]. unfold SFdiv_core_binary. cbn [Zdigits2].
  rewrite Hdm.
  change (Z.pos (digits2_pos nanos_mantissa)) with 53.
  replace (Z.min (fexp prec emax (53 + (d - 53) - (53 + -23))) (d - 53 - -23))
    with (d - 83) by (unfold fexp, SpecFloat.emin, prec, emax; lia).
  replace (d - 53 - -23 - (d - 83)) with 53 by lia.
  cbv iota.
  destruct (Z.div_eucl (Z.shiftl (Z.pos m) 53) (Z.pos nanos_mantissa))
    as [q r] eqn:Eq.
  assert (Hq : q = Z.shiftl (Z.pos m) 53 / Z.pos nanos_mantissa)
    by (unfold Z.div; now rewrite Eq).
  rewrite Z.shiftl_mul_pow2, Hm in Hq by lia.
  assert (P1 : 0 < 2 ^ (53 - d)) by (apply Z.pow_pos_nonneg; lia).
  assert (P2 : 0 < 2 ^ (27 - d)) by (apply Z.pow_pos_nonneg; lia).
  assert (E1 : 2 ^ (53 - d) = 2 ^ 26 * 2 ^ (27 - d))
    by (rewrite <- Z.pow_add_r by lia; f_equal; lia).
  assert (Hq0 : 0 <= q).
  { subst q. apply Z.div_pos; [|reflexivity]. nia. }
  apply binary_round_aux_within; unfold tolerance_exponent, tolerance_mantissa;
    [assumption|lia|].
  replace (-56 - (d - 83)) with (27 - d) by lia.
  subst q. unfold nanos_mantissa.
  rewrite Z.div_div by lia.
  replace (B * 2 ^ (53 - d) * 2 ^ 53)
    with (B * 2 ^ 79 * 2 ^ (27 - d)) by (rewrite E1; ring).
  rewrite Z.div_mul_cancel_r by lia.
  assert (B * 2 ^ 79 / 8388608000000000 <= 100000000 * 2 ^ 79 / 8388608000000000)
    by (apply Z.div_le_mono; lia).
  change (100000000 * 2 ^ 79 / 8388608000000000) with 7205759403792793 in H.
  lia.
Qed.

Lemma SFadd_zero_within (y : spec_float) :
  within_tolerance y -> within_tolerance (SFadd prec emax (S754_zero false) y).
Proof. destruct y as [[|]|[|]| |]; cbn [within_tolerance SFadd]; tauto. Qed.

(** A duration of at most 100 ms, of either sign, is at most [0.1] seconds in
    binary64. *)
Lemma Duration_Seconds_within (d : Z) :
  Z.abs d <= 100000000 ->
  (drift_tolerance <? PrimFloat.abs (Duration_Seconds d))%float = false.
Proof.
  intros Ha. apply within_tolerance_ltb. unfold Duration_Seconds.
  destruct (quot_rem_signed d) as [-> ->].
  set (sigma := d <? 0).
  rewrite Z.div_small, Z.mod_small by lia.
  rewrite FloatAxioms.add_spec, FloatAxioms.div_spec, nanos_per_second_spec.
  unfold SF64add, SF64div.
  rewrite float64_of_int_signed_zero.
  apply SFadd_zero_within.
  destruct (Z.eq_dec (Z.abs d) 0) as [E0|N0].
  - rewrite E0, float64_of_int_signed_zero. exact I.
  - set (B := Z.abs d) in *.
    destruct (@float64_of_int_signed sigma B ltac:(lia)) as (m & e & Em & HN & _).
    rewrite Em.
    destruct B as [|p|p] eqn:EB; try lia.
    cbn [binary_normalize] in HN.
    assert (Hdp : Z.pos (digits2_pos p) <= 27).
    { apply (@Zdigits2_lt_pow2 (Z.pos p) 27); lia. }
    destruct (@binary_round_exact false p ltac:(lia)) as (m' & E' & Hm' & Hd').
    rewrite E' in HN. inversion HN; subst m' e.
    apply (@SFdiv_nanos_within sigma m (Z.pos p) (Z.pos (digits2_pos p)));
      auto; lia.
Qed.

Lemma Time_Sub_within (t u : Z) :
  Z.abs (t - u) <= 100000000 -> Time_Sub t u = t - u.
Proof.
  intros H. unfold Time_Sub, minDuration, maxDuration.
  destruct (Z.ltb_spec (t - u) (- 2 ^ 63)); [lia|].
  destruct (Z.ltb_spec (2 ^ 63 - 1) (t - u)); lia.
Qed.

(** The drift test of [ValidateSignalsMatch], in nanoseconds. *)
Lemma timestamp_drift_spec (voltageSignal currentSignal : Signal) :
  timestamp_drift voltageSignal currentSignal
  = (100000000 <? Z.abs (Timestamp voltageSignal - Timestamp currentSignal)).
Proof.
  destruct (Z.ltb_spec 100000000
              (Z.abs (Timestamp voltageSignal - Timestamp currentSignal)))
    as [H|H].
  - now apply timestamp_drift_above.
  - unfold timestamp_drift. rewrite Time_Sub_within by assumption.
    now apply Duration_Seconds_within.
Qed.

(** [==] on float64 is symmetric. *)
Lemma SFcompare_antisym (x y : spec_float) :
  SFcompare y x = option_map CompOpp (SFcompare x y).
Proof.
  destruct x as [sx|sx| |sx mx ex], y as [sy|sy| |sy my ey];
    try reflexivity;
    try (destruct sx; reflexivity); try (destruct sy; reflexivity);
    try (destruct sx, sy; reflexivity).
  cbn [SFcompare option_map].
  change (PosDef.Pos.compare_cont Eq my mx) with (Pos.compare my mx).
  change (PosDef.Pos.compare_cont Eq mx my) with (Pos.compare mx my).
  rewrite (Z.compare_antisym ex ey), (Pos.compare_antisym mx my).
  destruct sx, sy; try reflexivity;
    destruct (ex ?= ey); cbn [CompOpp]; try reflexivity.
Qed.

Lemma float_eqb_sym (x y : float64) : (x =? y)%float = (y =? x)%float.
Proof.
  rewrite !FloatAxioms.eqb_spec. unfold SFeqb.
  rewrite (SFcompare_antisym (Prim2SF x) (Prim2SF y)).
  destruct (SFcompare (Prim2SF x) (Prim2SF y)) as [[| |]|]; reflexivity.
Qed.

End Tolerance.

(* ===================================================================== *)
(** ** Further lemmas: exact binary64 operations *)
(* ===================================================================== *)

Section Exactness.
Local Open Scope Z_scope.

(** Rounding commutes with negation. *)
Lemma binary_round_aux_opp (s : bool) (m e : Z) (l : location) :
  binary_round_aux prec emax (negb s) m e l
  = SFopp (binary_round_aux prec emax s m e l).
Proof.
  unfold binary_round_aux.
  destruct (shr_fexp prec emax m e l) as [mrs' e'].
  destruct (shr_fexp prec emax _ e' loc_Exact) as [mrs'' e''].
  destruct (shr_m mrs''); try reflexivity.
  destruct (e'' <=? emax - prec); reflexivity.
Qed.

Lemma SFmul_opp_l (x y : spec_float) :
  SFmul prec emax (SFopp x) y = SFopp (SFmul prec emax x y).
Proof.
  destruct x as [sx|sx| |sx mx ex], y as [sy|sy| |sy my ey];
    cbn [SFmul SFopp]; try reflexivity;
    try (now rewrite negb_xorb_l).
  rewrite <- binary_round_aux_opp, negb_xorb_l. reflexivity.
Qed.

Lemma SFdiv_opp_l (x y : spec_float) :
  SFdiv prec emax (SFopp x) y = SFopp (SFdiv prec emax x y).
Proof.
  destruct x as [sx|sx| |sx mx ex], y as [sy|sy| |sy my ey];
    cbn [SFdiv SFopp]; try reflexivity;
    try (now rewrite negb_xorb_l).
  destruct (SFdiv_core_binary prec emax (Z.pos mx) ex (Z.pos my) ey)
    as [[q e'] l].
  rewrite <- binary_round_aux_opp, negb_xorb_l. reflexivity.
Qed.

Lemma float_mul_opp_l (x y : float64) : (- x * y = - (x * y))%float.
Proof.
  apply Prim2SF_inj.
  rewrite FloatAxioms.mul_spec, !FloatAxioms.opp_spec, FloatAxioms.mul_spec.
  apply SFmul_opp_l.
Qed.

Lemma float_div_opp_l (x y : float64) : (- x / y = - (x / y))%float.
Proof.
  apply Prim2SF_inj.
  rewrite FloatAxioms.div_spec, !FloatAxioms.opp_spec, FloatAxioms.div_spec.
  apply SFdiv_opp_l.
Qed.

(** [float64(-k)] is the negation of [float64(k)]. *)
Lemma float64_of_int_opp (k : Z) :
  0 < k -> float64_of_int (- k) = (- float64_of_int k)%float.
Proof.
  intros Hk. unfold float64_of_int.
  destruct (Z.ltb_spec (- k) 0); [|lia].
  destruct (Z.ltb_spec k 0); [lia|].
  now rewrite Z.opp_involutive.
Qed.


Lemma valid_digits (s : bool) (m : positive) (e : Z) :
  valid_binary (S754_finite s m e) = true ->
  fexp prec emax (Z.pos (digits2_pos m) + e) = e
  /\ -1074 <= e <= 971 /\ Z.pos (digits2_pos m) <= 53.
Proof.
  cbn [SpecFloat.valid_binary]. unfold bounded, canonical_mantissa.
  rewrite andb_true_iff, Z.eqb_eq, Z.leb_le.
  unfold fexp, SpecFloat.emin, prec, emax. lia.
Qed.

(** Rounding a mantissa that is already in canonical form changes nothing. *)
Lemma binary_round_aux_canonical (s : bool) (m : positive) (e : Z) :
  valid_binary (S754_finite s m e) = true ->
  binary_round_aux prec emax s (Z.pos m) e loc_Exact = S754_finite s m e.
Proof.
  intros V. destruct (valid_digits s m e V) as (Hf & He & Hd).
  unfold binary_round_aux, shr_fexp. cbn [Zdigits2 shr_record_of_loc].
  rewrite Hf, Z.sub_diag.
  cbn [shr shr_m loc_of_shr_record round_nearest_even Zdigits2
       shr_record_of_loc].
  rewrite Hf, Z.sub_diag. cbn [shr shr_m].
  destruct (Z.leb_spec e (emax - prec)) as [_|H]; [reflexivity|].
  unfold emax, prec in H. lia.
Qed.


(** Multiplying by [-1] negates, exactly. *)
Lemma SFmul_minus_one (x : spec_float) :
  valid_binary x = true ->
  SFmul prec emax (S754_finite true one_mantissa (-52)) x = SFopp x.
Proof.
  intros V. destruct x as [sx|sx| |sx m e]; try reflexivity.
  destruct (valid_digits sx m e V) as (Hf & He & Hd).
  cbn [SFmul SFopp xorb].
  change (one_mantissa * m)%positive with (Pos.iter xO m 52).
  unfold binary_round_aux, shr_fexp. cbn [Zdigits2].
  rewrite digits2_pos_iter_xO.
  replace (Z.pos (digits2_pos m + 52) + (-52 + e))
    with (Z.pos (digits2_pos m) + e) by lia.
  rewrite Hf. replace (e - (-52 + e)) with 52 by lia.
  cbn [shr].
  change (SpecFloat.iter_pos shr_1 52
            (shr_record_of_loc (Z.pos (Pos.iter xO m 52)) loc_Exact))
    with {| shr_m := Z.pos m; shr_r := false; shr_s := false |}.
  cbn [shr_m loc_of_shr_record round_nearest_even Zdigits2 shr_record_of_loc].
  replace (-52 + e + 52) with e by lia.
  rewrite Hf, Z.sub_diag. cbn [shr shr_m].
  destruct (Z.leb_spec e (emax - prec)) as [_|H];
    [destruct sx; reflexivity|].
  unfold emax, prec in H. lia.
Qed.

(** Dividing by [1] changes nothing. *)
Lemma SFdiv_one (x : spec_float) :
  valid_binary x = true ->
  SFdiv prec emax x (S754_finite false one_mantissa (-52)) = x.
Proof.
  intros V. destruct x as [sx|sx| |sx m e]; cbn [SFdiv];
    try (now rewrite xorb_false_r); try reflexivity.
  destruct (valid_digits sx m e V) as (Hf & He & Hd).
  rewrite xorb_false_r.
  unfold SFdiv_core_binary. cbn [Zdigits2].
  change (Z.pos (digits2_pos one_mantissa)) with 53.
  unfold fexp, SpecFloat.emin, prec, emax in Hf.
  destruct (Z.eq_dec e (-1074)) as [E|N].
  - (* the least exponent: shift by 52 *)
    subst e.
    replace (Z.min (fexp prec emax (Z.pos (digits2_pos m) + -1074 - (53 + -52)))
                   (-1074 - -52))
      with (-1074) by (unfold fexp, SpecFloat.emin, prec, emax; lia).
    change (-1074 - -52 - -1074) with 52. cbv iota.
    rewrite Z.shiftl_mul_pow2 by lia.
    destruct (Z.div_eucl (Z.pos m * 2 ^ 52) (Z.pos one_mantissa))
      as [q r] eqn:Eq.
    assert (Hq : q = Z.pos m * 2 ^ 52 / Z.pos one_mantissa)
      by (unfold Z.div; now rewrite Eq).
    assert (Hr : r = (Z.pos m * 2 ^ 52) mod Z.pos one_mantissa)
      by (unfold Z.modulo; now rewrite Eq).
    change (Z.pos one_mantissa) with (2 ^ 52) in Hq, Hr.
    rewrite Z.div_mul in Hq by lia. rewrite Z.mod_mul in Hr by lia.
    subst q r. change (new_location (Z.pos one_mantissa) 0) with loc_Exact.
    now apply binary_round_aux_canonical.
  - (* a normal number: shift by 53, then back by 1 *)
    assert (Hd53 : Z.pos (digits2_pos m) = 53) by lia.
    rewrite Hd53.
    replace (Z.min (fexp prec emax (53 + e - (53 + -52))) (e - -52))
      with (e - 1) by (unfold fexp, SpecFloat.emin, prec, emax; lia).
    replace (e - -52 - (e - 1)) with 53 by lia. cbv iota.
    rewrite Z.shiftl_mul_pow2 by lia.
    destruct (Z.div_eucl (Z.pos m * 2 ^ 53) (Z.pos one_mantissa))
      as [q r] eqn:Eq.
    assert (Hq : q = Z.pos m * 2 ^ 53 / Z.pos one_mantissa)
      by (unfold Z.div; now rewrite Eq).
    assert (Hr : r = (Z.pos m * 2 ^ 53) mod Z.pos one_mantissa)
      by (unfold Z.modulo; now rewrite Eq).
    change (Z.pos one_mantissa) with (2 ^ 52) in Hq, Hr.
    replace (Z.pos m * 2 ^ 53) with (Z.pos m~0 * 2 ^ 52) in Hq, Hr by lia.
    rewrite Z.div_mul in Hq by lia. rewrite Z.mod_mul in Hr by lia.
    subst q r. change (new_location (Z.pos one_mantissa) 0) with loc_Exact.
    unfold binary_round_aux, shr_fexp. cbn [Zdigits2 digits2_pos].
    replace (Z.pos (Pos.succ (digits2_pos m)) + (e - 1))
      with (Z.pos (digits2_pos m) + e) by lia.
    rewrite Hd53.
    replace (fexp prec emax (53 + e) - (e - 1)) with 1
      by (unfold fexp, SpecFloat.emin, prec, emax; lia).
    cbn [shr SpecFloat.iter_pos shr_record_of_loc shr_1 orb shr_m
         loc_of_shr_record round_nearest_even Zdigits2].
    rewrite Hd53.
    replace (fexp prec emax (53 + (e - 1 + 1)) - (e - 1 + 1)) with 0
      by (unfold fexp, SpecFloat.emin, prec, emax; lia).
    cbn [shr shr_m].
    replace (e - 1 + 1) with e by lia.
    destruct (Z.leb_spec e (emax - prec)) as [_|H]; [reflexivity|].
    unfold emax, prec in H. lia.
Qed.

Lemma float64_minus_one_spec :
  Prim2SF (float64_of_int (-1)) = S754_finite true one_mantissa (-52).
Proof. reflexivity. Qed.

Lemma float64_one_spec :
  Prim2SF (float64_of_int 1) = S754_finite false one_mantissa (-52).
Proof. reflexivity. Qed.

(** [float64(-1) * x / float64(1)] is [-x]. *)
Lemma minus_one_times_over_one (x : float64) :
  (float64_of_int (-1) * x / float64_of_int 1)%float = (- x)%float.
Proof.
  apply Prim2SF_inj.
  rewrite FloatAxioms.div_spec, float64_one_spec.
  unfold SF64div. rewrite SFdiv_one by apply Prim2SF_valid.
  rewrite FloatAxioms.mul_spec, float64_minus_one_spec, FloatAxioms.opp_spec.
  apply SFmul_minus_one, Prim2SF_valid.
Qed.

End Exactness.

Lemma float_leb_ltb_nan (x y : float64) :
  (x <=? y)%float = false -> (y <? x)%float = false ->
  PrimFloat.is_nan x = true \/ PrimFloat.is_nan y = true.
Proof.
  rewrite FloatAxioms.leb_spec, FloatAxioms.ltb_spec, !is_nan_spec.
  unfold SFleb, SFltb. rewrite (SFcompare_antisym (Prim2SF x) (Prim2SF y)).
  destruct (Prim2SF x) as [sx|sx| |sx mx ex] eqn:Ex; auto;
    destruct (Prim2SF y) as [sy|sy| |sy my ey] eqn:Ey; auto;
    destruct (SFcompare _ _) as [[| |]|] eqn:Ec; cbn; try discriminate;
    cbn in Ec; discriminate.
Qed.

Lemma float_ltb_leb_false (x y : float64) :
  (y <? x)%float = true -> (x <=? y)%float = false.
Proof.
  rewrite FloatAxioms.leb_spec, FloatAxioms.ltb_spec.
  unfold SFleb, SFltb. rewrite (SFcompare_antisym (Prim2SF y) (Prim2SF x)).
  destruct (SFcompare (Prim2SF y) (Prim2SF x)) as [[| |]|]; cbn; congruence.
Qed.

Lemma float_leb_ltb_false (x y : float64) :
  (x <=? y)%float = true -> (y <? x)%float = false.
Proof.
  rewrite FloatAxioms.leb_spec, FloatAxioms.ltb_spec.
  unfold SFleb, SFltb. rewrite (SFcompare_antisym (Prim2SF x) (Prim2SF y)).
  destruct (SFcompare (Prim2SF x) (Prim2SF y)) as [[| |]|]; cbn; congruence.
Qed.

Lemma float_nan_compare (x y : float64) :
  PrimFloat.is_nan x = true ->
  (x <=? y)%float = false /\ (y <? x)%float = false.
Proof.
  rewrite FloatAxioms.leb_spec, FloatAxioms.ltb_spec, is_nan_spec.
  unfold SFleb, SFltb.
  destruct (Prim2SF x); try discriminate.
  destruct (Prim2SF y); auto.
Qed.

Section Quotients.
Local Open Scope Z_scope.

Lemma binary_round_aux_not_nan (s : bool) (m e : Z) (l : location) :
  0 <= m -> binary_round_aux prec emax s m e l <> S754_nan.
Proof.
  intros Hm. unfold binary_round_aux.
  pose proof (shr_fexp_bounds e l Hm) as B1.
  destruct (shr_fexp prec emax m e l) as [mrs' e'].
  destruct B1 as (Hm1 & _).
  pose proof (round_nearest_even_bounds (loc_of_shr_record mrs') Hm1) as [Hr0 _].
  pose proof (shr_fexp_bounds e' loc_Exact Hr0) as B2.
  destruct (shr_fexp prec emax _ e' loc_Exact) as [mrs'' e''].
  destruct B2 as (Hm2 & _).
  destruct (shr_m mrs'') as [|p|p]; try discriminate; [|lia].
  destruct (e'' <=? emax - prec); discriminate.
Qed.

(** A finite dividend gives NaN only over NaN. *)
Lemma SFdiv_finite_nan (sx : bool) (mx : positive) (ex : Z) (y : spec_float) :
  SFdiv prec emax (S754_finite sx mx ex) y = S754_nan -> y = S754_nan.
Proof.
  destruct y as [sy|sy| |sy my ey]; cbn [SFdiv]; try discriminate; auto.
  unfold SFdiv_core_binary.
  set (e' := Z.min _ _). set (m' := match _ with 0 => _ | _ => _ end).
  assert (Hm' : 0 <= m').
  { unfold m'. destruct (ex - ey - e') as [|p|p]; try lia.
    rewrite Z.shiftl_mul_pow2 by lia.
    assert (0 < 2 ^ Z.pos p) by (apply Z.pow_pos_nonneg; lia). nia. }
  destruct (Z.div_eucl m' (Z.pos my)) as [q r] eqn:Eq.
  assert (Hq : q = m' / Z.pos my) by (unfold Z.div; now rewrite Eq).
  intros H. exfalso. revert H. apply binary_round_aux_not_nan.
  subst q. apply Z.div_pos; lia.
Qed.

End Quotients.

(* ===================================================================== *)
(** ** Further lemmas: the transform and the impedance calculator *)
(* ===================================================================== *)

Lemma ValidateSignals_None (voltageSignal currentSignal : Signal) :
  ValidateSignals voltageSignal currentSignal = None ->
  ValidateSignal voltageSignal = None
  /\ ValidateSignal currentSignal = None
  /\ length (Values voltageSignal) = length (Values currentSignal)
  /\ (SampleRate voltageSignal =? SampleRate currentSignal)%float = true.
Proof.
  unfold ValidateSignals, ValidateSignalsMatch.
  destruct (ValidateSignal voltageSignal); [discriminate|].
  destruct (ValidateSignal currentSignal); [discriminate|].
  destruct (Nat.eqb_spec (length (Values voltageSignal))
                         (length (Values currentSignal))); [|discriminate].
  destruct (SampleRate voltageSignal =? SampleRate currentSignal)%float;
    [|discriminate].
  auto.
Qed.

Lemma firstn_seq_le (k n start : nat) :
  k <= n -> firstn k (seq start n) = seq start k.
Proof.
  revert n start. induction k as [|k IH]; intros [|n] start H; simpl;
    try reflexivity; try lia.
  f_equal. apply IH. lia.
Qed.

Section TransformFacts.

Variable cmplx_Exp : complex128 -> complex128.



(** The half spectrum of a transform of two samples or more. *)
Lemma GetPositiveFrequencies_of_transform (sig : Signal) (cs : ComplexSignal) :
  ProcessSignal cmplx_Exp sig = Ok cs ->
  2 <= length (Values sig) ->
  let n := length (Values sig) in
  GetPositiveFrequencies cs = Ok (truncate cs)
  /\ cValues (truncate cs) = firstn (n / 2) (cValues cs)
  /\ length (cValues (truncate cs)) = n / 2
  /\ cFrequencies (truncate cs)
     = map (bin_frequency n (SampleRate sig)) (seq 0 (n / 2)).
Proof.
  intros Hp Hn n.
  apply ProcessSignal_Ok in Hp as (Hs & (fftResult & Hf & ->) & Hv).
  apply computeFFT_length in Hf. rewrite length_map in Hf. fold n in Hf.
  apply ValidateSignal_accepts in Hs as (_ & Hr & _).
  assert (H1 : 1 <= n / 2) by (apply Nat.div_le_lower_bound; lia).
  assert (H2 : n / 2 <= n) by (apply Nat.Div0.div_le_upper_bound; lia).
  assert (Hh : half_length n = n / 2)
    by (rewrite half_length_max; lia).
  assert (Ef : firstn (n / 2) (map (bin_frequency n (SampleRate sig)) (seq 0 n))
               = map (bin_frequency n (SampleRate sig)) (seq 0 (n / 2))).
  { now rewrite firstn_map, firstn_seq_le. }
  rewrite (GetPositiveFrequencies_spec _ Hv).
  unfold truncate. cbn [cValues cFrequencies cTimestamp]. rewrite Hf, Hh.
  fold n. rewrite Ef.
  assert (Hneg : existsb (fun f => (f <? 0)%float)
                   (map (bin_frequency n (SampleRate sig)) (seq 0 (n / 2)))
                 = false).
  { apply (existsb_false_nth _ 0%float). intros i Hi.
    rewrite length_map, length_seq in Hi.
    rewrite (nth_indep _ 0%float (bin_frequency n (SampleRate sig) 0))
      by (rewrite length_map, length_seq; lia).
    rewrite map_nth, seq_nth by lia.
    apply bin_frequency_front; [assumption|lia]. }
  rewrite (proj2 (scanNegative_None 0 _) Hneg).
  repeat split. rewrite length_firstn. lia.
Qed.

(** The single bin of a one-sample transform is labelled [-sampleRate], and
    the extraction of the half spectrum rejects it. *)
Lemma bin_frequency_one_sample (sampleRate : float64) :
  bin_frequency 1 sampleRate 0 = (- sampleRate)%float.
Proof. apply minus_one_times_over_one. Qed.

Lemma opp_rate_negative (sampleRate : float64) :
  (sampleRate <=? 0)%float = false ->
  bad_value (- sampleRate)%float = false ->
  (- sampleRate <? 0)%float = true.
Proof.
  unfold bad_value, math_IsNaN, math_IsInf.
  rewrite is_nan_spec, is_infinity_spec.
  rewrite FloatAxioms.leb_spec, FloatAxioms.ltb_spec, FloatAxioms.opp_spec.
  change (Prim2SF 0) with (S754_zero false).
  destruct (Prim2SF sampleRate) as [[|]|[|]| |[|] m e]; cbn; congruence.
Qed.

Lemma GetPositiveFrequencies_one_sample (sig : Signal) (cs : ComplexSignal) :
  ProcessSignal cmplx_Exp sig = Ok cs ->
  length (Values sig) = 1 ->
  cFrequencies cs = [(- SampleRate sig)%float]
  /\ GetPositiveFrequencies cs
     = Err (ProcessingError "result validation"
              (ValidationError "Frequencies"
                 "negative frequency found at index 0")).
Proof.
  intros Hp Hn.
  apply ProcessSignal_Ok in Hp as (Hs & (fftResult & Hf & ->) & Hv).
  apply computeFFT_length in Hf. rewrite length_map, Hn in Hf.
  apply ValidateSignal_accepts in Hs as (_ & Hr & _).
  rewrite Hn in *. cbn [seq map] in *. rewrite bin_frequency_one_sample in *.
  split; [reflexivity|].
  rewrite (GetPositiveFrequencies_spec _ Hv).
  unfold truncate. cbn [cValues cFrequencies cTimestamp]. rewrite Hf.
  cbn [half_length Nat.div Nat.divmod fst Nat.eqb firstn scanNegative].
  apply ValidateComplexSignal_None in Hv as (_ & _ & _ & _ & Hb).
  cbn [cFrequencies existsb] in Hb. rewrite orb_false_r in Hb.
  rewrite (opp_rate_negative Hr Hb). reflexivity.
Qed.

End TransformFacts.

Section LoopFailure.

Variable B : Type.


End LoopFailure.


Lemma impedance_loop_steps (voltage current : list complex128) :
  impedance_loop voltage current
  = for_loop 0 (length voltage)
      (fun i a => match impedance_step voltage current i with
                  | Err e => Err e
                  | Ok v => Ok (store i v a)
                  end)
      (make czero (length voltage)).
Proof.
  unfold impedance_loop. apply for_loop_ext. intros i a.
  unfold impedance_step, bad_complex.
  destruct (cmplx_Abs _ <? _)%float; [reflexivity|].
  destruct (cmplx_IsNaN _ || cmplx_IsInf _); reflexivity.
Qed.

(** Every bin of a finished division loop is a number. *)
Lemma impedance_loop_finite (voltage current impedance : list complex128) :
  impedance_loop voltage current = Ok impedance ->
  existsb bad_complex impedance = false.
Proof.
  rewrite impedance_loop_steps. intros H.
  apply (for_loop_store _ czero) in H; [|rewrite make_length; lia].
  destruct H as (L & V & _). rewrite make_length in L.
  apply (existsb_false_nth _ czero). intros i Hi.
  specialize (V i ltac:(lia)). unfold impedance_step in V.
  destruct (cmplx_Abs _ <? _)%float; [inversion V; reflexivity|].
  destruct (bad_complex (cdiv _ _)) eqn:Eb; [discriminate|].
  inversion V. congruence.
Qed.



Lemma store_app (A : Type) (pre post : list A) (p v : A) :
  store (length pre) v (pre ++ p :: post) = (pre ++ [v]) ++ post.
Proof.
  rewrite <- app_assoc. simpl.
  induction pre as [|h t IH]; simpl; [reflexivity|]. now rewrite IH.
Qed.

(** The conversion loop never panics when there is a frequency for every
    impedance, and then stores one point for each bin, in order. *)
Lemma measurement_points_Some (d : ImpedanceData) :
  length (Impedance d) <= length (zFrequencies d) ->
  measurement_points d
  = Some (map (impedance_point d) (seq 0 (length (Impedance d)))).
Proof.
  intros Hl. unfold measurement_points.
  set (fs := zFrequencies d) in *.
  assert (G : forall (l : list complex128) (pre post : list ImpedancePoint)
                     (done : list complex128),
             length post = length l -> length pre = length done ->
             length done + length l <= length fs ->
             snd (fold_left
                    (fun (st : nat * option (list ImpedancePoint))
                         (z : complex128) =>
                       (S (fst st),
                        match snd st, nth_error fs (fst st) with
                        | Some measurement, Some frequency =>
                            Some (store (fst st)
                                    (mkImpedancePoint frequency (re z) (im z))
                                    measurement)
                        | _, _ => None
                        end))
                    l (length pre, Some (pre ++ post)))
             = Some (pre
                     ++ map (fun i =>
                               mkImpedancePoint (nth i fs 0%float)
                                 (re (nth i (done ++ l) czero))
                                 (im (nth i (done ++ l) czero)))
                            (seq (length done) (length l)))).
  { induction l as [|z l IH]; intros pre post done Hp Hd Hb; simpl.
    - destruct post; [|discriminate]. reflexivity.
    - destruct post as [|p post]; [discriminate|]. simpl in Hp, Hb.
      destruct (nth_error fs (length pre)) as [f|] eqn:Ef.
      2:{ apply nth_error_None in Ef. lia. }
      rewrite store_app.
      replace (S (length pre))
        with (length (pre ++ [mkImpedancePoint f (re z) (im z)]))
        by (rewrite length_app; simpl; lia).
      rewrite (IH _ post (done ++ [z])); try lia.
      2:{ rewrite !length_app. simpl. lia. }
      2:{ rewrite length_app. simpl. lia. }
      rewrite <- !app_assoc. cbn [app]. f_equal. f_equal.
      rewrite length_app. cbn [length]. rewrite Nat.add_1_r. f_equal.
      rewrite app_nth2 by lia. rewrite Nat.sub_diag. cbn [nth].
      f_equal. rewrite Hd in Ef.
      now apply (nth_error_nth fs _ 0%float) in Ef. }
  specialize (G (Impedance d) [] (make (mkImpedancePoint 0 0 0)
                                       (length (Impedance d))) []).
  cbn [app length] in G. rewrite G; try (rewrite ?make_length; simpl; lia).
  reflexivity.
Qed.

Section LoopFolds.

Variable S : Type.

Lemma for_loop_ext_range (f g : nat -> S -> res S) :
  forall count start s,
    (forall i s', start <= i < start + count -> f i s' = g i s') ->
    for_loop start count f s = for_loop start count g s.
Proof.
  induction count as [|c IH]; intros start s E; simpl; auto.
  rewrite E by lia. destruct (g start s); auto.
  apply IH. intros i s' Hi. apply E. lia.
Qed.

(** A loop that never leaves early is a fold over its indices. *)
Lemma for_loop_fold (g : nat -> S -> S) :
  forall count start s,
    for_loop start count (fun i s => Ok (g i s)) s
    = Ok (fold_left (fun s i => g i s) (seq start count) s).
Proof.
  induction count as [|c IH]; intros start s; simpl; auto.
Qed.

Lemma for_each_pair (A B : Type) (f : nat -> A -> A) (g : nat -> B -> B) :
  forall count start (a : A) (b : B),
    for_each start count (fun i ab => (f i (fst ab), g i (snd ab))) (a, b)
    = (for_each start count f a, for_each start count g b).
Proof.
  induction count as [|c IH]; intros start a b; simpl; auto.
Qed.

End LoopFolds.

Lemma for_each_store_map (B : Type) (g : nat -> B) (zero : B) (n : nat) :
  for_each 0 n (fun i a => store i (g i) a) (make zero n) = map g (seq 0 n).
Proof.
  destruct (for_each_store g zero n 0 (make zero n)) as (L & V & _).
  { rewrite make_length. lia. }
  rewrite make_length in L.
  apply (nth_ext_eq zero).
  - now rewrite L, length_map, length_seq.
  - intros i Hi. rewrite L in Hi. rewrite V by lia.
    rewrite (nth_indep _ zero (g 0)) by (rewrite length_map, length_seq; lia).
    now rewrite map_nth, seq_nth.
Qed.

Lemma split_even_odd_samples (x : list complex128) :
  split_even_odd x = (even_samples x, odd_samples x).
Proof.
  unfold split_even_odd, even_samples, odd_samples.
  rewrite (for_each_pair (fun i a => store i (nth (2 * i) x czero) a)
                         (fun i a => store i (nth (2 * i + 1) x czero) a)).
  now rewrite !for_each_store_map.
Qed.

Section TransformSums.

Variable cmplx_Exp : complex128 -> complex128.

Lemma dft_bin_sum (x : list complex128) (k : nat) :
  x <> [] -> (Z.of_nat (length x) < 2 ^ 63)%Z -> k < length x ->
  dft_bin cmplx_Exp x (length x) k = Ok (dft_sum cmplx_Exp x k).
Proof.
  intros Hx Hb Hk. unfold dft_bin, dft_sum.
  rewrite <- for_loop_fold. apply for_loop_ext_range. intros j sum Hj.
  destruct (@twiddle_angles_finite (length x) k j) as [_ E]; try lia.
  rewrite E. reflexivity.
Qed.

Lemma dft_sums (x : list complex128) :
  x <> [] -> (Z.of_nat (length x) < 2 ^ 63)%Z ->
  dft cmplx_Exp x = Ok (map (dft_sum cmplx_Exp x) (seq 0 (length x))).
Proof.
  intros Hx Hb. destruct (dft_total cmplx_Exp Hx Hb) as [y Hy].
  rewrite Hy. f_equal. unfold dft in Hy.
  destruct (Nat.leb_spec (length x) 0); [discriminate|].
  apply (for_loop_store _ czero) in Hy; [|rewrite make_length; lia].
  destruct Hy as (L & V & _). rewrite make_length in L.
  apply (nth_ext_eq czero).
  - now rewrite L, length_map, length_seq.
  - intros i Hi. rewrite L in Hi.
    specialize (V i ltac:(lia)). rewrite dft_bin_sum in V by assumption.
    injection V as E. rewrite <- E.
    rewrite (nth_indep _ czero (dft_sum cmplx_Exp x 0))
      by (rewrite length_map, length_seq; lia).
    now rewrite map_nth, seq_nth.
Qed.

(** What the butterfly loop has stored when it returns. *)
Lemma butterfly_loop (n h : nat) (evenFFT oddFFT : list complex128) :
  forall count start (a r : list complex128),
    for_loop start count
      (fun k result =>
         let angle := (minus_two_pi * float64_of_nat k / float64_of_nat n)%float in
         if invalid_angle angle then
           Err (NewProcessingError "FFT computation"
                  (Errorf ("invalid angle at k=" ++ fmt_d k)))
         else
           let t := cmul (cmplx_Exp (Cplx 0%float angle)) (nth k oddFFT czero) in
           let result := store k (cadd (nth k evenFFT czero) t) result in
           Ok (store (k + h) (csub (nth k evenFFT czero) t) result))
      a = Ok r ->
    start + count <= h -> h + h <= length a ->
    length r = length a
    /\ (forall k, start <= k < start + count ->
          nth k r czero
          = cadd (nth k evenFFT czero)
                 (cmul (cmplx_Exp (Cplx 0%float (fft_angle n k)))
                       (nth k oddFFT czero))
          /\ nth (k + h) r czero
             = csub (nth k evenFFT czero)
                    (cmul (cmplx_Exp (Cplx 0%float (fft_angle n k)))
                          (nth k oddFFT czero)))
    /\ (forall i, ~ (start <= i < start + count) ->
                  ~ (start + h <= i < start + count + h) ->
                  nth i r czero = nth i a czero).
Proof.
  induction count as [|c IH]; intros start a r H Hc Ha; cbn [for_loop] in H.
  - inversion H; subst. repeat split; auto; intros; lia.
  - cbv zeta in H. fold (fft_angle n start) in H.
    destruct (invalid_angle (fft_angle n start)); [discriminate|].
    apply IH in H; [|lia|rewrite !store_length; lia].
    destruct H as (L & V & U). rewrite !store_length in L.
    split; [assumption|]. split.
    + intros k Hk. destruct (Nat.eq_dec k start) as [->|Hne].
      * rewrite !U by lia.
        rewrite nth_store_same by (rewrite store_length; lia).
        rewrite nth_store_other by lia.
        rewrite nth_store_same by lia. auto.
      * apply V. lia.
    + intros i H1 H2. rewrite U by lia.
      rewrite !nth_store_other by lia. reflexivity.
Qed.

Lemma butterfly_values (n : nat) (evenFFT oddFFT r : list complex128) :
  butterfly cmplx_Exp n evenFFT oddFFT = Ok r ->
  length r = n
  /\ forall k, k < n / 2 ->
       nth k r czero
       = cadd (nth k evenFFT czero)
              (cmul (cmplx_Exp (Cplx 0%float (fft_angle n k)))
                    (nth k oddFFT czero))
       /\ nth (k + n / 2) r czero
          = csub (nth k evenFFT czero)
                 (cmul (cmplx_Exp (Cplx 0%float (fft_angle n k)))
                       (nth k oddFFT czero)).
Proof.
  unfold butterfly. intros H.
  apply butterfly_loop in H;
    [|lia|rewrite make_length; pose proof (Nat.Div0.mul_div_le n 2); lia].
  destruct H as (L & V & _). rewrite make_length in L.
  split; [assumption|]. intros k Hk. apply V. lia.
Qed.

End TransformSums.

(* ===================================================================== *)
(** ** Further lemmas: the CSV loader *)
(* ===================================================================== *)

Lemma wrap_int_small (z : Z) :
  (- 2 ^ 63 <= z < 2 ^ 63)%Z -> wrap_int z = z.
Proof. intros H. unfold wrap_int. rewrite Z.mod_small; lia. Qed.

Lemma int_of_float64_range (f : float64) :
  (- 2 ^ 63 <= int_of_float64 f < 2 ^ 63)%Z.
Proof.
  unfold int_of_float64.
  destruct (Prim2SF f) as [s| | |s m e]; try lia.
  cbv zeta.
  set (v := if s then _ else _).
  destruct ((- 2 ^ 63 <=? v)%Z && (v <? 2 ^ 63)%Z) eqn:E; [|lia].
  apply andb_true_iff in E. destruct E as [E1 E2].
  apply Z.leb_le in E1. apply Z.ltb_lt in E2. lia.
Qed.

(** A sample rate that is not at least 1 has no positive integer part. *)
Lemma int_of_float64_below_one (rate : float64) :
  (1 <=? rate)%float = false -> (int_of_float64 rate <= 0)%Z.
Proof.
  intros H. rewrite FloatAxioms.leb_spec in H.
  pose proof (FloatAxioms.Prim2SF_valid rate) as V.
  assert (E1 : Prim2SF 1 = S754_finite false one_mantissa (-52))
    by reflexivity.
  rewrite E1 in H. unfold int_of_float64.
  destruct (Prim2SF rate) as [s|s| |s m e]; try lia.
  destruct (valid_digits s m e V) as (Hf & He & Hd).
  cbv zeta.
  assert (Ha : (0 <= (if 0 <=? e then Z.pos m * 2 ^ e
                      else Z.pos m / 2 ^ (- e)))%Z).
  { destruct (0 <=? e)%Z eqn:E0.
    - apply Z.leb_le in E0. apply Z.mul_nonneg_nonneg; [lia|].
      now apply Z.pow_nonneg.
    - apply Z.leb_gt in E0. apply Z.div_pos; [lia|].
      apply Z.pow_pos_nonneg; lia. }
  destruct s.
  - destruct (_ && _); lia.
  - unfold SFleb, SFcompare in H.
    assert (He' : (e <= -53)%Z).
    { destruct (Z.compare_spec (-52) e) as [E|E|E]; [|discriminate|lia].
      exfalso. subst e.
      change (PosDef.Pos.compare_cont Eq one_mantissa m)
        with (Pos.compare one_mantissa m) in H.
      destruct (Pos.compare_spec one_mantissa m) as [C|C|C];
        try discriminate.
      assert (D : (Zdigits2 (Z.pos m) <= 52)%Z).
      { apply Zdigits2_lt_pow2; [clear; lia|clear; lia|].
        change (2 ^ 52)%Z with (Z.pos one_mantissa).
        now apply Pos2Z.pos_lt_pos. }
      cbn [Zdigits2] in D.
      unfold fexp, prec, emax, SpecFloat.emin in Hf. clear - Hf D. lia. }
    assert (Hm : (Z.pos m < 2 ^ 53)%Z).
    { pose proof (@Zdigits2_upper (Z.pos m) (Pos2Z.is_nonneg m)) as U.
      cbn [Zdigits2] in U.
      apply Z.lt_le_trans with (2 ^ Z.pos (digits2_pos m))%Z; [exact U|].
      apply Z.pow_le_mono_r; clear - Hd; lia. }
    clear H V E1 Hf Ha.
    replace (0 <=? e)%Z with false by (symmetry; apply Z.leb_gt; lia).
    rewrite Z.div_small.
    + reflexivity.
    + split; [lia|].
      apply Z.lt_le_trans with (2 ^ 53)%Z; [exact Hm|].
      apply Z.pow_le_mono_r; lia.
Qed.

Lemma ceil_div_step (len n : nat) :
  1 <= n -> 1 <= len -> (len + n - 1) / n = S ((len - n + n - 1) / n).
Proof.
  intros Hn Hl.
  destruct (Nat.le_gt_cases n len) as [H|H].
  - replace (len + n - 1) with ((len - n + n - 1) + 1 * n) by lia.
    rewrite Nat.div_add by lia. lia.
  - replace (len - n + n - 1) with (n - 1) by lia.
    rewrite (Nat.div_small (n - 1)) by lia.
    symmetry. apply Nat.div_unique with (r := len - 1); lia.
Qed.

Lemma skipn_not_nil (A : Type) (k : nat) (l : list A) :
  skipn k l <> [] <-> k < length l.
Proof.
  split; intros H.
  - destruct (Nat.le_gt_cases (length l) k) as [Hk|Hk]; [|exact Hk].
    exfalso. apply H. now apply skipn_all2.
  - intros E. apply (f_equal (@length A)) in E.
    rewrite length_skipn in E. simpl in E. lia.
Qed.

Section LoaderFacts.

Variable os_Open : string -> option error.
Variable csv_ReadAll : string -> res (list (list string)).
Variable time_Parse : string -> res Time.
Variable strconv_ParseFloat : string -> res float64.

Local Abbreviation parse_from := (parse_records time_Parse strconv_ParseFloat).
Local Abbreviation parse_chunk := (parseSignalChunk time_Parse strconv_ParseFloat).
Local Abbreviation load_from := (load_chunks time_Parse strconv_ParseFloat).
Local Abbreviation chunks_of := (chunked time_Parse strconv_ParseFloat).
Local Abbreviation load_file :=
  (LoadSignalFromCSV os_Open csv_ReadAll time_Parse strconv_ParseFloat).
Local Abbreviation parsed :=
  (fun (record : list string) (value : float64) =>
     strconv_ParseFloat (nth 2 record ""%string) = Ok value).

Lemma parse_records_Ok (records : list (list string)) :
  forall (i : nat) (done tail : list float64) (ts : Time)
         (values : list float64) (ts' : Time),
    length done = i -> length tail = length records ->
    parse_from i records (done ++ tail) ts = Ok (values, ts') ->
    Forall (fun r => 3 <= length r) records
    /\ (exists vs, Forall2 parsed records vs /\ values = done ++ vs)
    /\ match i, records with
       | O, r :: _ => time_Parse (nth 0 r ""%string) = Ok ts'
       | _, _ => ts' = ts
       end.
Proof.
  induction records as [|r rest IH]; intros i done tail ts values ts' Hd Ht H.
  - destruct tail; [|discriminate]. simpl in H. injection H as E1 E2.
    split; [constructor|]. split.
    + exists []. split; [constructor|]. now rewrite <- E1.
    + destruct i; congruence.
  - destruct tail as [|p tail]; [discriminate|]. simpl in Ht.
    cbn [parse_records] in H.
    destruct (length r <? 3) eqn:E3; [discriminate|].
    apply Nat.ltb_ge in E3.
    subst i.
    destruct (length done =? 0) eqn:E0.
    + apply Nat.eqb_eq in E0.
      destruct (time_Parse (nth 0 r ""%string)) as [t|] eqn:Et; [|discriminate].
      destruct (strconv_ParseFloat (nth 2 r ""%string)) as [v|] eqn:Ev;
        [|discriminate].
      rewrite store_app in H.
      apply IH in H; [|rewrite length_app; simpl; lia|lia].
      destruct H as (F & (vs & F2 & Ev') & T).
      split; [constructor; assumption|]. split.
      * exists (v :: vs). split; [constructor; assumption|].
        rewrite Ev', <- app_assoc. reflexivity.
      * rewrite E0. destruct rest; congruence.
    + apply Nat.eqb_neq in E0.
      destruct (strconv_ParseFloat (nth 2 r ""%string)) as [v|] eqn:Ev;
        [|discriminate].
      rewrite store_app in H.
      apply IH in H; [|rewrite length_app; simpl; lia|lia].
      destruct H as (F & (vs & F2 & Ev') & T).
      split; [constructor; assumption|]. split.
      * exists (v :: vs). split; [constructor; assumption|].
        rewrite Ev', <- app_assoc. reflexivity.
      * destruct (length done); [contradiction|]. destruct rest; congruence.
Qed.

Lemma parse_records_complete (records : list (list string)) :
  forall (i : nat) (done tail : list float64) (ts : Time)
         (vs : list float64) (ts' : Time),
    length done = i -> length tail = length records ->
    Forall (fun r => 3 <= length r) records ->
    Forall2 parsed records vs ->
    match i, records with
    | O, r :: _ => time_Parse (nth 0 r ""%string) = Ok ts'
    | _, _ => ts' = ts
    end ->
    parse_from i records (done ++ tail) ts = Ok (done ++ vs, ts').
Proof.
  induction records as [|r rest IH]; intros i done tail ts vs ts' Hd Ht F F2 T.
  - destruct tail; [|discriminate]. inversion F2; subst.
    simpl. destruct (length done); congruence.
  - destruct tail as [|p tail]; [discriminate|]. simpl in Ht.
    inversion F as [|? ? Hr F']; subst. inversion F2 as [|? v ? vs' Hv F2']; subst.
    cbn [parse_records].
    destruct (length r <? 3) eqn:E3; [apply Nat.ltb_lt in E3; lia|].
    rewrite Hv. rewrite store_app.
    replace (done ++ v :: vs') with ((done ++ [v]) ++ vs')
      by (now rewrite <- app_assoc).
    destruct (length done =? 0) eqn:E0.
    + apply Nat.eqb_eq in E0. rewrite E0 in T. rewrite T.
      apply IH; try assumption; [rewrite length_app; simpl; lia|lia|].
      reflexivity.
    + apply Nat.eqb_neq in E0.
      apply IH; try assumption; [rewrite length_app; simpl; lia|lia|].
      destruct (length done); [contradiction|]. exact T.
Qed.

Lemma parseSignalChunk_values (records : list (list string))
      (rate : float64) (s : Signal) :
  parse_chunk records rate = Ok s ->
  Forall2 parsed records (Values s) /\ SampleRate s = rate.
Proof.
  unfold parseSignalChunk. intros H.
  destruct (length records =? 0) eqn:E0; [discriminate|].
  destruct (parse_from 0 records (make 0%float (length records)) 0%Z)
    as [[values ts]|] eqn:E; [|discriminate].
  injection H as <-.
  apply (@parse_records_Ok records 0 [] (make 0%float (length records)))
    in E; [|reflexivity|apply repeat_length].
  destruct E as (_ & (vs & F2 & ->) & _). split; [exact F2|reflexivity].
Qed.

Lemma chunked_length (rate : float64) (n : nat) :
  1 <= n ->
  forall (signals : list Signal) (rest : list (list string)),
    chunks_of rate n signals rest ->
    length signals = (length rest + n - 1) / n.
Proof.
  intros Hn. induction signals as [|s signals IH]; intros rest H; simpl in H.
  - subst rest. simpl. symmetry. apply Nat.div_small. lia.
  - destruct H as (Hne & _ & _ & H). apply IH in H.
    rewrite length_skipn in H. simpl.
    rewrite (@ceil_div_step (length rest) n); [lia|lia|].
    destruct rest; [contradiction|simpl; lia].
Qed.

Lemma chunked_nth (rate : float64) (n : nat) (d : Signal) :
  forall (signals : list Signal) (rest : list (list string)),
    chunks_of rate n signals rest ->
    forall k, k < length signals ->
      parse_chunk (firstn n (skipn (k * n) rest)) rate = Ok (nth k signals d)
      /\ ValidateSignal (nth k signals d) = None.
Proof.
  induction signals as [|s signals IH]; intros rest H k Hk; simpl in Hk;
    [lia|].
  destruct H as (_ & P & V & H). destruct k as [|k].
  - simpl. split; assumption.
  - cbn [nth].
    replace (skipn (S k * n) rest) with (skipn (k * n) (skipn n rest))
      by (rewrite skipn_skipn; f_equal; lia).
    apply IH; [assumption|lia].
Qed.

Lemma chunked_intro (rate : float64) (n : nat) (d : Signal) :
  1 <= n ->
  forall (signals : list Signal) (rest : list (list string)),
    length signals = (length rest + n - 1) / n ->
    (forall k, k < length signals ->
       parse_chunk (firstn n (skipn (k * n) rest)) rate = Ok (nth k signals d)
       /\ ValidateSignal (nth k signals d) = None) ->
    chunks_of rate n signals rest.
Proof.
  intros Hn. induction signals as [|s signals IH]; intros rest L H.
  - simpl. destruct rest as [|r rest]; [reflexivity|]. exfalso.
    rewrite ceil_div_step in L; [discriminate|lia|simpl; lia].
  - assert (Hl : 1 <= length rest).
    { destruct rest; [|simpl; lia]. exfalso. simpl in L.
      rewrite Nat.div_small in L by lia. discriminate. }
    cbn [chunked]. split; [destruct rest; [simpl in Hl; lia|discriminate]|].
    destruct (H 0) as [P V]; [simpl; lia|]. simpl in P, V.
    split; [exact P|]. split; [exact V|].
    apply IH.
    + rewrite length_skipn. rewrite ceil_div_step in L by lia.
      simpl in L. lia.
    + intros k Hk. specialize (H (S k)). cbn [nth] in H.
      replace (skipn (S k * n) rest) with (skipn (k * n) (skipn n rest)) in H
        by (rewrite skipn_skipn; f_equal; lia).
      apply H. simpl. lia.
Qed.

Lemma chunked_values (rate : float64) (n : nat) :
  1 <= n ->
  forall (signals : list Signal) (rest : list (list string)),
    chunks_of rate n signals rest ->
    Forall2 parsed rest (concat (map Values signals))
    /\ Forall (fun s => 1 <= length (Values s) <= n /\ SampleRate s = rate)
              signals.
Proof.
  intros Hn. induction signals as [|s signals IH]; intros rest H; simpl in H.
  - subst rest. split; constructor.
  - destruct H as (Hne & P & V & H).
    apply parseSignalChunk_values in P. destruct P as [F2 R].
    apply IH in H. destruct H as [G1 G2]. split.
    + simpl. rewrite <- (firstn_skipn n rest) at 1.
      apply Forall2_app; assumption.
    + constructor; [|assumption].
      apply Forall2_length in F2. rewrite length_firstn in F2.
      split; [|exact R].
      destruct rest; [contradiction|]. simpl in F2. lia.
Qed.

Lemma load_chunks_eq (fuel : nat) (records : list (list string))
      (rate : float64) (sps i : Z) (signals : list Signal) :
  load_from fuel records rate sps i signals
  = if negb (i <? Z.of_nat (length records))%Z then Returned (Ok signals)
    else
      match fuel with
      | O => OutOfFuel
      | S fuel' =>
          match slice records i
                      (if (Z.of_nat (length records) <? wrap_int (i + sps))%Z
                       then Z.of_nat (length records)
                       else wrap_int (i + sps)) with
          | None => Panicked
          | Some chunk =>
              match parse_chunk chunk rate with
              | Err err =>
                  Returned (Err (NewProcessingError "signal parsing" err))
              | Ok signal =>
                  match ValidateSignal signal with
                  | Some err =>
                      Returned (Err (NewProcessingError "signal validation"
                                                        err))
                  | None =>
                      load_from fuel' records rate sps (wrap_int (i + sps))
                                (signals ++ [signal])
                  end
              end
          end
      end.
Proof. destruct fuel; reflexivity. Qed.

Lemma slice_chunk (records : list (list string)) (n i : nat) :
  i < length records -> 1 <= n ->
  (Z.of_nat (length records) + Z.of_nat n < 2 ^ 63)%Z ->
  slice records (Z.of_nat i)
        (if (Z.of_nat (length records)
             <? wrap_int (Z.of_nat i + Z.of_nat n))%Z
         then Z.of_nat (length records)
         else wrap_int (Z.of_nat i + Z.of_nat n))
  = Some (firstn n (skipn i records)).
Proof.
  intros Hi Hn Hb. rewrite wrap_int_small by lia. unfold slice.
  destruct (Z.of_nat (length records) <? Z.of_nat i + Z.of_nat n)%Z eqn:E.
  - apply Z.ltb_lt in E.
    replace ((0 <=? Z.of_nat i)%Z) with true by (symmetry; apply Z.leb_le; lia).
    replace ((Z.of_nat i <=? Z.of_nat (length records))%Z) with true
      by (symmetry; apply Z.leb_le; lia).
    rewrite Z.leb_refl. cbn [andb]. rewrite Nat2Z.id. f_equal.
    rewrite !firstn_all2; [reflexivity| |]; rewrite length_skipn; lia.
  - apply Z.ltb_ge in E.
    replace ((0 <=? Z.of_nat i)%Z) with true by (symmetry; apply Z.leb_le; lia).
    replace ((Z.of_nat i <=? Z.of_nat i + Z.of_nat n)%Z) with true
      by (symmetry; apply Z.leb_le; lia).
    replace ((Z.of_nat i + Z.of_nat n <=? Z.of_nat (length records))%Z)
      with true by (symmetry; apply Z.leb_le; lia).
    cbn [andb]. rewrite Nat2Z.id. do 2 f_equal. lia.
Qed.

Section Chunking.

Variable records : list (list string).
Variable rate : float64.
Variable n : nat.
Hypothesis chunk_size : 1 <= n.
Hypothesis in_range : (Z.of_nat (length records) + Z.of_nat n < 2 ^ 63)%Z.

Lemma load_chunks_next (fuel i : nat) (signals : list Signal) :
  i < length records ->
  load_from (S fuel) records rate (Z.of_nat n) (Z.of_nat i) signals
  = match parse_chunk (firstn n (skipn i records)) rate with
    | Err err => Returned (Err (NewProcessingError "signal parsing" err))
    | Ok signal =>
        match ValidateSignal signal with
        | Some err =>
            Returned (Err (NewProcessingError "signal validation" err))
        | None =>
            load_from fuel records rate (Z.of_nat n) (Z.of_nat (i + n))
                      (signals ++ [signal])
        end
    end.
Proof.
  intros Hi. rewrite load_chunks_eq.
  replace (Z.of_nat i <? Z.of_nat (length records))%Z with true
    by (symmetry; apply Z.ltb_lt; lia).
  cbn [negb]. rewrite slice_chunk by assumption.
  rewrite wrap_int_small by lia.
  replace (Z.of_nat i + Z.of_nat n)%Z with (Z.of_nat (i + n)) by lia.
  reflexivity.
Qed.

Lemma load_chunks_done (fuel i : nat) (signals : list Signal) :
  length records <= i ->
  load_from fuel records rate (Z.of_nat n) (Z.of_nat i) signals
  = Returned (Ok signals).
Proof.
  intros Hi. rewrite load_chunks_eq.
  replace (Z.of_nat i <? Z.of_nat (length records))%Z with false
    by (symmetry; apply Z.ltb_ge; lia).
  reflexivity.
Qed.

Lemma load_chunks_Ok (fuel : nat) :
  forall (i : nat) (signals out : list Signal),
    load_from fuel records rate (Z.of_nat n) (Z.of_nat i) signals
    = Returned (Ok out) ->
    exists new, out = signals ++ new
                /\ chunks_of rate n new (skipn i records).
Proof.
  induction fuel as [|fuel IH]; intros i signals out H;
    destruct (Nat.le_gt_cases (length records) i) as [Hi|Hi].
  - rewrite load_chunks_done in H by assumption. injection H as <-.
    exists []. split; [now rewrite app_nil_r|]. simpl. now apply skipn_all2.
  - rewrite load_chunks_eq in H.
    replace (Z.of_nat i <? Z.of_nat (length records))%Z with true in H
      by (symmetry; apply Z.ltb_lt; lia).
    discriminate.
  - rewrite load_chunks_done in H by assumption. injection H as <-.
    exists []. split; [now rewrite app_nil_r|]. simpl. now apply skipn_all2.
  - rewrite load_chunks_next in H by assumption.
    destruct (parse_chunk (firstn n (skipn i records)) rate) as [s|] eqn:P;
      [|discriminate].
    destruct (ValidateSignal s) eqn:V; [discriminate|].
    apply IH in H. destruct H as (new & E & C).
    exists (s :: new). split; [rewrite E, <- app_assoc; reflexivity|].
    cbn [chunked]. split; [apply skipn_not_nil; exact Hi|].
    split; [exact P|]. split; [exact V|].
    rewrite skipn_skipn. replace (n + i) with (i + n) by lia. exact C.
Qed.

Lemma load_chunks_complete (new : list Signal) :
  forall (fuel i : nat) (signals : list Signal),
    chunks_of rate n new (skipn i records) ->
    length records - i <= fuel ->
    load_from fuel records rate (Z.of_nat n) (Z.of_nat i) signals
    = Returned (Ok (signals ++ new)).
Proof.
  induction new as [|s new IH]; intros fuel i signals C Hf.
  - simpl in C. rewrite app_nil_r. apply load_chunks_done.
    destruct (Nat.le_gt_cases (length records) i) as [Hi|Hi]; [exact Hi|].
    apply skipn_not_nil in Hi. contradiction.
  - cbn [chunked] in C. destruct C as (Hne & P & V & C).
    apply skipn_not_nil in Hne.
    destruct fuel as [|fuel]; [lia|].
    rewrite load_chunks_next by assumption. rewrite P, V.
    rewrite (IH fuel (i + n) (signals ++ [s])).
    + now rewrite <- app_assoc.
    + rewrite skipn_skipn in C. replace (i + n) with (n + i) by lia. exact C.
    + lia.
Qed.

Lemma load_chunks_returns (fuel : nat) :
  forall (i : nat) (signals : list Signal),
    length records - i <= fuel ->
    exists r, load_from fuel records rate (Z.of_nat n) (Z.of_nat i) signals
              = Returned r.
Proof.
  induction fuel as [|fuel IH]; intros i signals Hf;
    destruct (Nat.le_gt_cases (length records) i) as [Hi|Hi];
    try (rewrite load_chunks_done by assumption; eexists; reflexivity);
    [lia|].
  rewrite load_chunks_next by assumption.
  destruct (parse_chunk (firstn n (skipn i records)) rate) as [s|];
    [|eexists; reflexivity].
  destruct (ValidateSignal s); [eexists; reflexivity|].
  apply IH. lia.
Qed.

End Chunking.

Lemma load_chunks_valid (records : list (list string)) (rate : float64)
      (sps : Z) (fuel : nat) :
  forall (i : Z) (signals out : list Signal),
    load_from fuel records rate sps i signals = Returned (Ok out) ->
    Forall (fun s => ValidateSignal s = None) signals ->
    Forall (fun s => ValidateSignal s = None) out.
Proof.
  induction fuel as [|fuel IH]; intros i signals out H F;
    rewrite load_chunks_eq in H;
    destruct (negb (i <? Z.of_nat (length records))%Z);
    try (injection H as <-; exact F); try discriminate.
  destruct (slice records i _); [|discriminate].
  destruct (parse_chunk l rate) as [s|]; [|discriminate].
  destruct (ValidateSignal s) eqn:V; [discriminate|].
  apply IH in H; [exact H|].
  apply Forall_app. split; [exact F|]. constructor; [exact V|constructor].
Qed.

Lemma LoadSignalFromCSV_loop (filename : string) (rate : float64)
      (header : list string) (data : list (list string)) (n : nat) :
  os_Open filename = None ->
  csv_ReadAll filename = Ok (header :: data) ->
  data <> [] ->
  int_of_float64 rate = Z.of_nat n ->
  1 <= n ->
  (Z.of_nat (length data) + Z.of_nat n < 2 ^ 63)%Z ->
  load_file filename rate
  = load_from (length data) data rate (Z.of_nat n) 0 [].
Proof.
  intros Ho Hr Hd Hi Hn Hb. unfold LoadSignalFromCSV.
  rewrite Ho, Hr. cbn [length skipn].
  destruct data as [|r data]; [contradiction|].
  cbn [length Nat.ltb Nat.leb]. cbv zeta. rewrite Hi.
  replace (Z.of_nat n =? 0)%Z with false by (symmetry; apply Z.eqb_neq; lia).
  set (len := length data) in *.
  cbn [length] in Hb. fold len in Hb.
  rewrite (@wrap_int_small (Z.of_nat (S len) + Z.of_nat n)%Z) by lia.
  rewrite (@wrap_int_small (Z.of_nat (S len) + Z.of_nat n - 1)%Z) by lia.
  rewrite Z.quot_div_nonneg by lia.
  assert (B : (0 <= (Z.of_nat (S len) + Z.of_nat n - 1) / Z.of_nat n
               < 2 ^ 63)%Z).
  { split; [apply Z.div_pos; lia|].
    apply Z.div_lt_upper_bound; [lia|]. nia. }
  rewrite wrap_int_small by lia.
  replace (_ <? 0)%Z with false by (symmetry; apply Z.ltb_ge; lia).
  reflexivity.
Qed.

Lemma LoadSignalFromCSV_valid (filename : string) (rate : float64)
      (signals : list Signal) :
  load_file filename rate = Returned (Ok signals) ->
  Forall (fun s => ValidateSignal s = None) signals.
Proof.
  unfold LoadSignalFromCSV. intros H.
  destruct (os_Open filename); [discriminate|].
  destruct (csv_ReadAll filename) as [records|]; [|discriminate].
  destruct (length records <? 2); [discriminate|]. cbv zeta in H.
  destruct (int_of_float64 rate =? 0)%Z; [discriminate|].
  destruct (_ <? 0)%Z; [discriminate|].
  apply load_chunks_valid in H; [exact H|constructor].
Qed.

Lemma LoadSignalFromCSV_no_chunk (filename : string) (rate : float64)
      (records : list (list string)) :
  os_Open filename = None ->
  csv_ReadAll filename = Ok records ->
  2 <= length records ->
  (int_of_float64 rate <= 0)%Z ->
  load_file filename rate = Panicked.
Proof.
  intros Ho Hr Hl Hi. unfold LoadSignalFromCSV. rewrite Ho, Hr.
  destruct (length records <? 2) eqn:E2; [apply Nat.ltb_lt in E2; lia|].
  cbv zeta.
  destruct (int_of_float64 rate =? 0)%Z eqn:E0; [reflexivity|].
  apply Z.eqb_neq in E0.
  destruct (_ <? 0)%Z; [reflexivity|].
  pose proof (int_of_float64_range rate) as R.
  rewrite load_chunks_eq.
  assert (L : 1 <= length (skipn 1 records))
    by (rewrite length_skipn; lia).
  replace (0 <? Z.of_nat (length (skipn 1 records)))%Z with true
    by (symmetry; apply Z.ltb_lt; lia).
  cbn [negb].
  destruct (length (skipn 1 records)) as [|fuel] eqn:El; [lia|].
  rewrite Z.add_0_l, wrap_int_small by lia.
  replace (Z.of_nat (S fuel) <? int_of_float64 rate)%Z with false
    by (symmetry; apply Z.ltb_ge; lia).
  unfold slice.
  replace (0 <=? int_of_float64 rate)%Z with false
    by (symmetry; apply Z.leb_gt; lia).
  reflexivity.
Qed.

Lemma parseSignalChunk_not_empty (records : list (list string))
      (rate : float64) (s : Signal) :
  parse_chunk records rate = Ok s -> 1 <= length records.
Proof.
  unfold parseSignalChunk. destruct records; [discriminate|]. simpl. lia.
Qed.

Lemma load_chunks_rounds (records : list (list string)) (rate : float64)
      (sps : Z) (fuel : nat) :
  forall (i : Z) (signals : list Signal),
    (Z.of_nat (length records) - i <= Z.of_nat fuel)%Z ->
    load_from fuel records rate sps i signals <> OutOfFuel.
Proof.
  induction fuel as [|fuel IH]; intros i signals Hf;
    rewrite load_chunks_eq;
    destruct (i <? Z.of_nat (length records))%Z eqn:Ei; cbn [negb];
    try discriminate; apply Z.ltb_lt in Ei; [lia|].
  set (w := wrap_int (i + sps)).
  destruct (slice records i _) as [chunk|] eqn:Es; [|discriminate].
  destruct (parse_chunk chunk rate) as [s|] eqn:P; [|discriminate].
  destruct (ValidateSignal s); [discriminate|].
  apply IH.
  apply parseSignalChunk_not_empty in P.
  unfold slice in Es.
  destruct ((0 <=? i)%Z && (i <=? _)%Z && (_ <=? _)%Z) eqn:Eb;
    [|discriminate].
  injection Es as <-.
  apply andb_true_iff in Eb. destruct Eb as [Eb _].
  apply andb_true_iff in Eb. destruct Eb as [E1 E2].
  apply Z.leb_le in E1, E2.
  rewrite length_firstn in P.
  destruct (Z.of_nat (length records) <? w)%Z eqn:Ew;
    [apply Z.ltb_lt in Ew|apply Z.ltb_ge in Ew]; lia.
Qed.

Lemma LoadSignalFromCSV_rounds (filename : string) (rate : float64) :
  load_file filename rate <> OutOfFuel.
Proof.
  unfold LoadSignalFromCSV.
  destruct (os_Open filename); [discriminate|].
  destruct (csv_ReadAll filename) as [records|]; [|discriminate].
  destruct (length records <? 2); [discriminate|]. cbv zeta.
  destruct (int_of_float64 rate =? 0)%Z; [discriminate|].
  destruct (_ <? 0)%Z; [discriminate|].
  apply load_chunks_rounds. lia.
Qed.

End LoaderFacts.

Lemma match_pairs_None (voltageSignals currentSignals : list Signal)
      (d : Signal) :
  forall i : nat,
    match_pairs i voltageSignals currentSignals = Some None ->
    forall k, k < length voltageSignals ->
      exists c, nth_error currentSignals (i + k) = Some c
                /\ ValidateSignalsMatch (nth k voltageSignals d) c = None.
Proof.
  induction voltageSignals as [|v vs IH]; intros i H k Hk; simpl in Hk;
    [lia|].
  simpl in H.
  destruct (nth_error currentSignals i) as [c|] eqn:Ec; [|discriminate].
  destruct (ValidateSignalsMatch v c) eqn:Em; [discriminate|].
  destruct k as [|k].
  - exists c. rewrite Nat.add_0_r. split; assumption.
  - destruct (IH (S i) H k) as (c' & Ec' & Em'); [lia|].
    exists c'. split; [|exact Em'].
    replace (i + S k) with (S i + k) by lia. exact Ec'.
Qed.

(* ===================================================================== *)
(** ** Further properties of the code *)
(* ===================================================================== *)

(** X1 (what ValidateComplexSignal accepts).  [ValidateComplexSignal] returns
    [nil] exactly for the spectra that have at least one value, as many
    frequencies as values, a non-zero timestamp, both parts of every value
    finite (neither NaN nor infinite) and every frequency finite; the sign
    of a frequency is not looked at. *)
Theorem X1_ValidateComplexSignal_accepts_iff (cs : ComplexSignal) :
  ValidateComplexSignal cs = None
  <-> (cValues cs <> []
       /\ length (cValues cs) = length (cFrequencies cs)
       /\ cTimestamp cs <> 0%Z
       /\ (forall v, In v (cValues cs) ->
             PrimFloat.is_finite (re v) = true
             /\ PrimFloat.is_finite (im v) = true)
       /\ (forall f, In f (cFrequencies cs) -> PrimFloat.is_finite f = true)).
Proof.
  rewrite ValidateComplexSignal_None.
  rewrite all_finite_complex, all_finite, length_not_nil.
  reflexivity.
Qed.

(** X2 (first violation reported by ValidateComplexSignal).  On a spectrum that
    passes the length and timestamp checks, a failure of
    [ValidateComplexSignal] names the least index of a value that is NaN or
    infinite, with the NaN message when [cmplx.IsNaN] holds of it and the
    infinity message otherwise; a frequency is reported only when every
    value is a number, and then it is the least index of a NaN or infinite
    frequency. *)
Theorem X2_ValidateComplexSignal_first_violation (cs : ComplexSignal) (e : error) :
  cValues cs <> [] ->
  length (cValues cs) = length (cFrequencies cs) ->
  cTimestamp cs <> 0%Z ->
  ValidateComplexSignal cs = Some e ->
  (exists k, k < length (cValues cs)
     /\ (forall j, j < k -> bad_complex (nth j (cValues cs) czero) = false)
     /\ bad_complex (nth k (cValues cs) czero) = true
     /\ e = complex_value_error k (nth k (cValues cs) czero))
  \/ (existsb bad_complex (cValues cs) = false
      /\ exists k, k < length (cFrequencies cs)
           /\ (forall j, j < k ->
                 bad_value (nth j (cFrequencies cs) 0%float) = false)
           /\ bad_value (nth k (cFrequencies cs) 0%float) = true
           /\ e = frequency_error k (nth k (cFrequencies cs) 0%float)).
Proof.
  intros Hv Hl Ht. unfold ValidateComplexSignal, Time_IsZero.
  destruct (Nat.eqb_spec (length (cValues cs)) 0) as [E0|E0];
    [destruct (cValues cs); [contradiction|discriminate]|].
  destruct (Nat.eqb_spec (length (cFrequencies cs)) 0) as [E1|E1]; [lia|].
  destruct (Nat.eqb_spec (length (cValues cs)) (length (cFrequencies cs)));
    [|contradiction].
  destruct (Z.eqb_spec (cTimestamp cs) 0); [contradiction|]. cbn [negb].
  destruct (scanComplex _ _ _ 0 (cValues cs)) as [e'|] eqn:Es.
  - intros H; inversion H; subst e'. left.
    apply scanComplex_Some in Es as (k & Hk & Hb & Hbk & ->).
    exists k. repeat split; auto.
  - intros H. right. split; [now apply scanComplex_None in Es|].
    apply scanFrequencies_Some in H as (k & Hk & Hb & Hbk & ->).
    exists k. repeat split; auto.
Qed.

Lemma X2_ValidateComplexSignal_first_violation_witness :
  exists k, k < 2
    /\ ValidateComplexSignal nan_spectrum
       = Some (complex_value_error k (nth k (cValues nan_spectrum) czero)).
Proof.
  destruct (@X2_ValidateComplexSignal_first_violation nan_spectrum
              (ValidationError "Values" "NaN complex value found at index 1"))
    as [(k & Hk & _ & _ & He)|(Hb & _)];
    [discriminate|reflexivity|discriminate|reflexivity| |discriminate Hb].
  exists k. split; [exact Hk|]. rewrite <- He. reflexivity.
Defined.

(** X3 (what ValidatePositiveFrequencySignal accepts).
    [ValidatePositiveFrequencySignal] returns [nil] exactly for the spectra
    that [ValidateComplexSignal] accepts and whose frequencies all fail the
    test [freq < 0]: at least one value, as many frequencies as values, a
    non-zero timestamp, every value finite, and every frequency finite and
    not below zero (a negative zero passes). *)
Theorem X3_ValidatePositiveFrequencySignal_accepts_iff (cs : ComplexSignal) :
  ValidatePositiveFrequencySignal cs = None
  <-> (cValues cs <> []
       /\ length (cValues cs) = length (cFrequencies cs)
       /\ cTimestamp cs <> 0%Z
       /\ (forall v, In v (cValues cs) ->
             PrimFloat.is_finite (re v) = true
             /\ PrimFloat.is_finite (im v) = true)
       /\ (forall f, In f (cFrequencies cs) ->
             PrimFloat.is_finite f = true /\ (f <? 0)%float = false)).
Proof.
  unfold ValidatePositiveFrequencySignal.
  destruct (ValidateComplexSignal cs) as [e|] eqn:Ev.
  - split; [discriminate|]. intros (A & B & C & D & E).
    assert (H : ValidateComplexSignal cs = None).
    { apply ValidateComplexSignal_None.
      rewrite all_finite_complex, all_finite, length_not_nil.
      repeat split; auto; try (apply D; assumption).
      intros f Hf. apply E, Hf. }
    congruence.
  - apply ValidateComplexSignal_None in Ev.
    rewrite all_finite_complex, all_finite, length_not_nil in Ev.
    destruct Ev as (A & B & C & D & E).
    rewrite scanNegative_None, existsb_false_In. split.
    + intros H. repeat split; auto; try (apply D; assumption).
    + intros (_ & _ & _ & _ & H) f Hf. apply H, Hf.
Qed.

(** X4 (what ValidateImpedanceData accepts).  [ValidateImpedanceData] returns
    [nil] exactly when there is at least one impedance value, there are as
    many frequencies as impedance values, the magnitude and the phase
    sequences are each empty or as long as the impedance sequence, the
    timestamp is not zero and both parts of every impedance value are
    finite. The values of the frequencies, magnitudes and phases are never
    looked at. *)
Theorem X4_ValidateImpedanceData_accepts_iff (d : ImpedanceData) :
  ValidateImpedanceData d = None
  <-> (Impedance d <> []
       /\ length (Impedance d) = length (zFrequencies d)
       /\ (Magnitude d = [] \/ length (Magnitude d) = length (Impedance d))
       /\ (Phase d = [] \/ length (Phase d) = length (Impedance d))
       /\ zTimestamp d <> 0%Z
       /\ (forall z, In z (Impedance d) ->
             PrimFloat.is_finite (re z) = true
             /\ PrimFloat.is_finite (im z) = true)).
Proof.
  unfold ValidateImpedanceData, Time_IsZero.
  assert (HM : forall l : list float64, length l = 0 <-> l = [])
    by (intros [|]; simpl; split; congruence).
  destruct (Nat.eqb_spec (length (Impedance d)) 0) as [E0|E0].
  { split; [discriminate|]. intros (H & _).
    destruct (Impedance d); [contradiction|discriminate]. }
  assert (HI : Impedance d <> []) by (intros E; rewrite E in E0; auto).
  destruct (Nat.eqb_spec (length (zFrequencies d)) 0) as [E1|E1].
  { split; [discriminate|]. intros (_ & H & _). lia. }
  destruct (Nat.eqb_spec (length (Impedance d)) (length (zFrequencies d)))
    as [E2|E2]; cbn [negb];
    [|split; [discriminate|intros (_ & H & _); contradiction]].
  destruct (Nat.ltb_spec 0 (length (Magnitude d))) as [M0|M0];
    destruct (Nat.eqb_spec (length (Magnitude d)) (length (Impedance d)))
      as [M1|M1]; cbn [negb andb];
    try (split; [discriminate|];
         intros (_ & _ & [H|H] & _); [rewrite H in M0; simpl in M0; lia|lia]).
  all: destruct (Nat.ltb_spec 0 (length (Phase d))) as [P0|P0];
    destruct (Nat.eqb_spec (length (Phase d)) (length (Impedance d)))
      as [P1|P1]; cbn [negb andb];
    try (split; [discriminate|];
         intros (_ & _ & _ & [H|H] & _); [rewrite H in P0; simpl in P0; lia|lia]).
  all: destruct (Z.eqb_spec (zTimestamp d) 0) as [T|T];
    [split; [discriminate|intros (_ & _ & _ & _ & H & _); contradiction]|].
  all: rewrite scanComplex_None, existsb_false_In.
  all: split;
    [intros H; repeat split; auto;
     try (right; assumption); try (left; apply HM; lia);
     try (apply bad_complex_finite, H; assumption)
    |intros (_ & _ & _ & _ & _ & H) v Hv; apply bad_complex_finite, H, Hv].
Qed.

(** X5 (what ValidateSignalsMatch accepts).  [ValidateSignalsMatch] returns
    [nil] exactly when the two signals have the same number of samples,
    their sample rates compare equal as float64 values, and their timestamps
    are at most 100 000 000 ns apart: the float64 comparison
    [math.Abs(timeDiff.Seconds()) > 0.1] holds exactly for the differences
    of more than 100 ms, of either sign, also where [Time.Sub] saturates. *)
Theorem X5_ValidateSignalsMatch_accepts_iff (voltageSignal currentSignal : Signal) :
  ValidateSignalsMatch voltageSignal currentSignal = None
  <-> (length (Values voltageSignal) = length (Values currentSignal)
       /\ (SampleRate voltageSignal =? SampleRate currentSignal)%float = true
       /\ (Z.abs (Timestamp voltageSignal - Timestamp currentSignal)
           <= 100000000)%Z).
Proof.
  unfold ValidateSignalsMatch.
  fold (timestamp_drift voltageSignal currentSignal).
  rewrite timestamp_drift_spec.
  destruct (Nat.eqb_spec (length (Values voltageSignal))
                         (length (Values currentSignal))) as [El|El];
    cbn [negb]; [|split; [discriminate|tauto]].
  destruct (SampleRate voltageSignal =? SampleRate currentSignal)%float;
    cbn [negb]; [|split; [discriminate|intros (_ & H & _); discriminate]].
  destruct (Z.ltb_spec 100000000
              (Z.abs (Timestamp voltageSignal - Timestamp currentSignal)));
    [split; [discriminate|lia]|]. tauto.
Qed.

(** X6 (ValidateSignalsMatch is symmetric).  [ValidateSignalsMatch] returns the
    same result, [nil] or the same error, when voltage and current signal
    are exchanged. *)
Theorem X6_ValidateSignalsMatch_symmetric (voltageSignal currentSignal : Signal) :
  ValidateSignalsMatch voltageSignal currentSignal
  = ValidateSignalsMatch currentSignal voltageSignal.
Proof.
  unfold ValidateSignalsMatch.
  fold (timestamp_drift voltageSignal currentSignal).
  fold (timestamp_drift currentSignal voltageSignal).
  rewrite !timestamp_drift_spec.
  rewrite (Nat.eqb_sym (length (Values currentSignal))).
  rewrite (float_eqb_sym (SampleRate currentSignal)).
  replace (Timestamp currentSignal - Timestamp voltageSignal)%Z
    with (- (Timestamp voltageSignal - Timestamp currentSignal))%Z by lia.
  now rewrite Z.abs_opp.
Qed.

(** X7 (the spectrum ProcessSignal returns).  Every spectrum that
    [ProcessSignal] returns carries the timestamp of the signal, which is
    not zero, and holds no NaN and no infinity: both parts of every value
    and every frequency are finite. *)
Theorem X7_ProcessSignal_output_wellformed
        (cmplx_Exp : complex128 -> complex128)
        (sig : Signal) (r : ComplexSignal) :
  ProcessSignal cmplx_Exp sig = Ok r ->
  cTimestamp r = Timestamp sig
  /\ cTimestamp r <> 0%Z
  /\ (forall v, In v (cValues r) ->
        PrimFloat.is_finite (re v) = true /\ PrimFloat.is_finite (im v) = true)
  /\ (forall f, In f (cFrequencies r) -> PrimFloat.is_finite f = true).
Proof.
  intros H. apply ProcessSignal_Ok in H as (Hs & (y & _ & E) & Hv).
  apply ValidateComplexSignal_None in Hv as (_ & _ & Ht & Hb & Hf).
  split; [subst r; reflexivity|]. split; [assumption|]. split.
  - intros v Hin. apply bad_complex_finite.
    apply (proj1 (existsb_false_In bad_complex _) Hb). assumption.
  - intros f Hin. apply bad_value_finite.
    apply (proj1 (existsb_false_In bad_value _) Hf). assumption.
Qed.

Lemma X7_ProcessSignal_output_wellformed_witness :
  ProcessSignal Reference.cmplx_Exp one_sample = Ok one_sample_spectrum
  /\ cTimestamp one_sample_spectrum = Timestamp one_sample
  /\ cTimestamp one_sample_spectrum <> 0%Z.
Proof.
  assert (H : ProcessSignal Reference.cmplx_Exp one_sample
              = Ok one_sample_spectrum) by reflexivity.
  split; [exact H|].
  destruct (@X7_ProcessSignal_output_wellformed Reference.cmplx_Exp one_sample one_sample_spectrum H)
    as (H1 & H2 & _).
  split; [exact H1|exact H2].
Defined.

(** X8 (mirror symmetry of the frequency bins).  In the sequence
    [generateFrequencies] returns for [n] bins, the bin [n - i] carries
    exactly the negated frequency of the bin [i], for every [i] with [1 <= i
    < n/2]: the back half of the layout mirrors the front half, bit for bit
    in binary64. *)
Theorem X8_generateFrequencies_mirror (n : nat) (sampleRate : float64)
        (frequencies : list float64) (i : nat) :
  generateFrequencies n sampleRate = Ok frequencies ->
  1 <= i -> i < n / 2 ->
  nth (n - i) frequencies 0%float = (- nth i frequencies 0)%float.
Proof.
  intros H Hi1 Hi2. apply generateFrequencies_Ok_inv in H as (Hn & _ & ->).
  assert (Hh : n / 2 <= n) by (apply Nat.Div0.div_le_upper_bound; lia).
  assert (Hd : 2 * (n / 2) <= n) by (apply Nat.Div0.mul_div_le).
  rewrite !(nth_indep _ 0%float (bin_frequency n sampleRate 0))
    by (rewrite length_map, length_seq; lia).
  rewrite !map_nth, !seq_nth by lia. cbn [Nat.add].
  unfold bin_frequency.
  destruct (Nat.ltb_spec i (n / 2)) as [_|]; [|lia].
  destruct (Nat.ltb_spec (n - i) (n / 2)) as [|_]; [lia|].
  replace (Z.of_nat (n - i) - Z.of_nat n)%Z with (- Z.of_nat i)%Z by lia.
  rewrite float64_of_int_opp by lia.
  now rewrite float_mul_opp_l, float_div_opp_l.
Qed.

Lemma X8_generateFrequencies_mirror_witness :
  generateFrequencies 4 4%float = Ok [0; 1; -2; -1]%float
  /\ nth 3 [0; 1; -2; -1]%float 0%float
     = (- nth 1 [0; 1; -2; -1] 0)%float.
Proof.
  split; [reflexivity|].
  apply (@X8_generateFrequencies_mirror 4 4%float [0; 1; -2; -1]%float 1);
    [reflexivity|lia|simpl; lia].
Defined.

(** X9 (transform of a single sample).  For a valid signal of one sample [x] and
    a finite sample rate, [ProcessSignal] succeeds whatever [cmplx.Exp]
    computes, and returns the one value [x + 0i] labelled with the frequency
    [-sampleRate] (exactly: [float64(-1) * sampleRate / float64(1)] is the
    negated sample rate). *)
Theorem X9_ProcessSignal_one_sample
        (cmplx_Exp : complex128 -> complex128) (sig : Signal) (x : float64) :
  ValidateSignal sig = None ->
  Values sig = [x] ->
  PrimFloat.is_finite (SampleRate sig) = true ->
  ProcessSignal cmplx_Exp sig
  = Ok (mkComplexSignal (Timestamp sig) [Cplx x 0%float]
                        [(- SampleRate sig)%float]).
Proof.
  intros Hv Hx Hf.
  destruct (ValidateSignal_accepts sig Hv) as (_ & Hr & Ht & Hb).
  unfold ProcessSignal. rewrite Hv, range_store_map, Hx.
  cbn [length Nat.eqb map]. cbv zeta.
  rewrite (computeFFT_source cmplx_Exp [Cplx x 0%float]).
  cbn [length Nat.leb]. cbv zeta iota.
  rewrite generateFrequencies_Ok by (auto; discriminate).
  cbn [seq map]. rewrite bin_frequency_one_sample.
  assert (Hvalid : ValidateComplexSignal
                     (mkComplexSignal (Timestamp sig) [Cplx x 0%float]
                                      [(- SampleRate sig)%float]) = None).
  { apply ValidateComplexSignal_None. cbn [cValues cFrequencies cTimestamp
                                            length existsb].
    rewrite Hx in Hb. cbn [existsb] in Hb. rewrite orb_false_r in Hb.
    rewrite !orb_false_r. repeat split; auto.
    - apply bad_complex_finite. split; [|reflexivity]. cbn [re].
      now apply bad_value_finite.
    - apply bad_value_finite. rewrite is_finite_spec in *.
      rewrite FloatAxioms.opp_spec.
      destruct (Prim2SF (SampleRate sig)); cbn in *; congruence. }
  now rewrite Hvalid.
Qed.

Lemma X9_ProcessSignal_one_sample_witness :
  ValidateSignal one_sample = None
  /\ ProcessSignal Reference.cmplx_Exp one_sample = Ok one_sample_spectrum.
Proof.
  split; [reflexivity|].
  exact (@X9_ProcessSignal_one_sample Reference.cmplx_Exp one_sample 1%float eq_refl eq_refl eq_refl).
Defined.

(** X10 (the direct transform computes the defining sums).  For every slice [x]
    that is not empty (its length an [int]), [dft] returns, without error, a
    slice of the length of [x] whose bin [k] is the sum over [j = 0 .. n-1],
    added up in this order from [0 + 0i], of [x[j] * cmplx.Exp(complex(0,
    -2*pi*k*j/n))]. *)
Theorem X10_dft_computes_sums
        (cmplx_Exp : complex128 -> complex128) (x : list complex128) :
  x <> [] -> (Z.of_nat (length x) < 2 ^ 63)%Z ->
  exists y,
    dft cmplx_Exp x = Ok y
    /\ length y = length x
    /\ forall k, k < length x -> nth k y czero = dft_sum cmplx_Exp x k.
Proof.
  intros Hx Hb. eexists. split; [now apply dft_sums|].
  rewrite length_map, length_seq. split; [reflexivity|].
  intros k Hk.
  rewrite (nth_indep _ czero (dft_sum cmplx_Exp x 0))
    by (rewrite length_map, length_seq; lia).
  now rewrite map_nth, seq_nth.
Qed.

Lemma X10_dft_computes_sums_witness :
  exists y,
    dft Reference.cmplx_Exp three_complex = Ok y /\ length y = 3
    /\ nth 0 y czero = dft_sum Reference.cmplx_Exp three_complex 0.
Proof.
  destruct (@X10_dft_computes_sums Reference.cmplx_Exp three_complex) as (y & H1 & H2 & H3);
    [discriminate|reflexivity|].
  exists y. split; [exact H1|]. split; [exact H2|]. apply H3. simpl; lia.
Defined.

(** X11 (the recurrence computeFFT implements).  For every slice [x] whose
    length is an [int]: a slice of one element is returned as it is; a slice
    of odd length above one is transformed by the direct sums of [dft]; and
    for an even length [n >= 2] the transforms [E] of the samples of even
    index and [O] of the samples of odd index both succeed, and the result
    [y] has length [n] with [y[k] = E[k] + w * O[k]] and [y[k + n/2] = E[k]
    - w * O[k]] for every [k < n/2], where [w = cmplx.Exp(complex(0,
    -2*pi*k/n))]. *)
Theorem X11_computeFFT_recurrence
        (cmplx_Exp : complex128 -> complex128) (x : list complex128) :
  (Z.of_nat (length x) < 2 ^ 63)%Z ->
  (length x = 1 -> computeFFT cmplx_Exp x = Ok x)
  /\ (1 < length x -> length x mod 2 = 1 ->
      computeFFT cmplx_Exp x
      = Ok (map (dft_sum cmplx_Exp x) (seq 0 (length x))))
  /\ (1 < length x -> length x mod 2 = 0 ->
      exists evenFFT oddFFT y,
        computeFFT cmplx_Exp (even_samples x) = Ok evenFFT
        /\ computeFFT cmplx_Exp (odd_samples x) = Ok oddFFT
        /\ computeFFT cmplx_Exp x = Ok y
        /\ length y = length x
        /\ forall k, k < length x / 2 ->
             nth k y czero
             = cadd (nth k evenFFT czero)
                    (cmul (cmplx_Exp (Cplx 0%float (fft_angle (length x) k)))
                          (nth k oddFFT czero))
             /\ nth (k + length x / 2) y czero
                = csub (nth k evenFFT czero)
                       (cmul (cmplx_Exp (Cplx 0%float (fft_angle (length x) k)))
                             (nth k oddFFT czero))).
Proof.
  intros Hb. rewrite (computeFFT_source cmplx_Exp x). cbv zeta.
  repeat split.
  - intros ->. reflexivity.
  - intros H1 Hodd.
    destruct (Nat.leb_spec (length x) 0); [lia|].
    destruct (Nat.leb_spec (length x) 1); [lia|].
    rewrite Hodd. cbn [Nat.eqb negb].
    apply dft_sums; [|assumption]. destruct x; [simpl in H1; lia|discriminate].
  - intros H1 Heven.
    destruct (Nat.leb_spec (length x) 0); [lia|].
    destruct (Nat.leb_spec (length x) 1); [lia|].
    rewrite Heven. cbn [Nat.eqb negb].
    rewrite split_even_odd_samples. cbn [fst snd].
    assert (Hh : 1 <= length x / 2) by (apply Nat.div_le_lower_bound; lia).
    assert (Hle : length x / 2 <= length x)
      by (apply Nat.Div0.div_le_upper_bound; lia).
    assert (Le : length (even_samples x) = length x / 2)
      by (unfold even_samples; now rewrite length_map, length_seq).
    assert (Lo : length (odd_samples x) = length x / 2)
      by (unfold odd_samples; now rewrite length_map, length_seq).
    destruct (@computeFFT_total cmplx_Exp (even_samples x)) as [evenFFT He].
    { intros E. rewrite E in Le. cbn [length] in Le. lia. }
    { lia. }
    destruct (@computeFFT_total cmplx_Exp (odd_samples x)) as [oddFFT Ho].
    { intros E. rewrite E in Lo. cbn [length] in Lo. lia. }
    { lia. }
    rewrite He, Ho.
    destruct (@butterfly_total cmplx_Exp (length x) evenFFT oddFFT)
      as [y Hy]; [lia|assumption|].
    exists evenFFT, oddFFT, y. rewrite Hy.
    apply butterfly_values in Hy as [L V]. auto.
Qed.

Lemma X11_computeFFT_recurrence_witness :
  exists evenFFT oddFFT y,
    computeFFT Reference.cmplx_Exp (even_samples four_complex) = Ok evenFFT
    /\ computeFFT Reference.cmplx_Exp (odd_samples four_complex) = Ok oddFFT
    /\ computeFFT Reference.cmplx_Exp four_complex = Ok y
    /\ length y = 4.
Proof.
  destruct (@X11_computeFFT_recurrence Reference.cmplx_Exp four_complex) as (_ & _ & H);
    [reflexivity|].
  destruct H as (e & o & y & He & Ho & Hy & Hl & _);
    [simpl; lia|reflexivity|].
  exists e, o, y. split; [exact He|]. split; [exact Ho|].
  split; [exact Hy|exact Hl].
Defined.

(** X12 (no impedance from a single sample).  [CalculateImpedance] fails on
    every pair whose voltage signal has exactly one sample, whatever
    [cmplx.Exp] and [math.Atan2] compute. When the pair passes
    [ValidateSignals] and both transforms succeed, the failure is the
    extraction of the voltage half spectrum, which rejects the only bin, of
    frequency [-sampleRate], as a negative frequency at index 0. *)
Theorem X12_CalculateImpedance_one_sample
        (cmplx_Exp : complex128 -> complex128)
        (math_Atan2 : float64 -> float64 -> float64)
        (voltageSignal currentSignal : Signal) :
  length (Values voltageSignal) = 1 ->
  is_ok (CalculateImpedance cmplx_Exp math_Atan2 voltageSignal currentSignal)
  = false
  /\ (ValidateSignals voltageSignal currentSignal = None ->
      is_ok (ProcessSignal cmplx_Exp voltageSignal) = true ->
      is_ok (ProcessSignal cmplx_Exp currentSignal) = true ->
      CalculateImpedance cmplx_Exp math_Atan2 voltageSignal currentSignal
      = Err (ProcessingError "voltage positive frequencies"
               (ProcessingError "result validation"
                  (ValidationError "Frequencies"
                     "negative frequency found at index 0")))).
Proof.
  intros Hn. unfold CalculateImpedance.
  destruct (ValidateSignals _ _); [split; [reflexivity|discriminate]|].
  destruct (ProcessSignal cmplx_Exp voltageSignal) as [V|] eqn:EV;
    [|split; [reflexivity|discriminate]].
  destruct (ProcessSignal cmplx_Exp currentSignal) as [C|] eqn:EC;
    [|split; [reflexivity|discriminate]].
  destruct (GetPositiveFrequencies_one_sample _ _ EV Hn) as [_ ->].
  split; reflexivity.
Qed.

Lemma X12_CalculateImpedance_one_sample_witness :
  is_ok (CalculateImpedance Reference.cmplx_Exp Reference.math_Atan2
                            one_sample one_sample) = false
  /\ CalculateImpedance Reference.cmplx_Exp Reference.math_Atan2
                        one_sample one_sample
     = Err (ProcessingError "voltage positive frequencies"
              (ProcessingError "result validation"
                 (ValidationError "Frequencies"
                    "negative frequency found at index 0"))).
Proof.
  destruct (@X12_CalculateImpedance_one_sample Reference.cmplx_Exp Reference.math_Atan2
              one_sample one_sample eq_refl) as [H1 H2].
  split; [exact H1|]. apply H2; reflexivity.
Defined.

(** X13 (shape of the impedance data).  Whenever [CalculateImpedance] succeeds
    on signals of [n] samples, [n] is at least 2, the current signal has [n]
    samples too, the impedance, frequency, magnitude and phase sequences of
    the result all have [n/2] entries, the frequencies are the first [n/2]
    bins of the layout of [generateFrequencies] for the voltage sample rate,
    and both parts of every impedance value are finite. *)
Theorem X13_CalculateImpedance_result_shape
        (cmplx_Exp : complex128 -> complex128)
        (math_Atan2 : float64 -> float64 -> float64)
        (voltageSignal currentSignal : Signal) (d : ImpedanceData) :
  CalculateImpedance cmplx_Exp math_Atan2 voltageSignal currentSignal = Ok d ->
  let n := length (Values voltageSignal) in
  2 <= n
  /\ length (Values currentSignal) = n
  /\ length (Impedance d) = n / 2
  /\ length (zFrequencies d) = n / 2
  /\ length (Magnitude d) = n / 2
  /\ length (Phase d) = n / 2
  /\ zFrequencies d
     = map (bin_frequency n (SampleRate voltageSignal)) (seq 0 (n / 2))
  /\ (forall z, In z (Impedance d) ->
        PrimFloat.is_finite (re z) = true /\ PrimFloat.is_finite (im z) = true).
Proof.
  intros H n.
  apply CalculateImpedance_Ok in H
    as (V & C & imp & Hs & HV & HC & Hl & Hloop & -> & Hv).
  apply ValidateSignals_None in Hs as (Hsv & _ & Hlen & _).
  unfold halfSpectrum in HV.
  destruct (ProcessSignal cmplx_Exp voltageSignal) as [Vf|] eqn:EV;
    [|discriminate].
  apply ValidateSignal_accepts in Hsv as (Hn0 & _). fold n in Hn0.
  assert (Hn : 2 <= n).
  { destruct (Nat.eq_dec n 1) as [E1|]; [|lia].
    destruct (GetPositiveFrequencies_one_sample _ _ EV E1) as [_ E].
    congruence. }
  destruct (GetPositiveFrequencies_of_transform _ _ EV Hn)
    as (E & _ & HlV & HfV). fold n in HlV, HfV.
  rewrite E in HV. inversion HV; subst V. clear HV.
  apply impedance_loop_Ok in Hloop as Hloop'. destruct Hloop' as [Li _].
  apply impedance_loop_finite in Hloop.
  cbn [Impedance zFrequencies Magnitude Phase].
  rewrite !length_map, HfV, length_map, length_seq.
  repeat split; try lia.
  all: apply bad_complex_finite;
    apply (proj1 (existsb_false_In bad_complex imp) Hloop); assumption.
Qed.

Lemma X13_CalculateImpedance_result_shape_witness :
  CalculateImpedance Reference.cmplx_Exp Reference.math_Atan2
                     dc_voltage dc_current = Ok dc_impedance
  /\ length (Impedance dc_impedance) = 2
  /\ zFrequencies dc_impedance
     = map (bin_frequency 4 (SampleRate dc_voltage)) (seq 0 2).
Proof.
  split; [exact dc_measurement|].
  destruct (@X13_CalculateImpedance_result_shape Reference.cmplx_Exp Reference.math_Atan2
              dc_voltage dc_current dc_impedance dc_measurement)
    as (_ & _ & H1 & _ & _ & _ & H2 & _).
  split; [exact H1|exact H2].
Defined.



(** X15 (the points of ProcessEISMeasurement).  [ProcessEISMeasurement] never
    panics: the load [impedanceData.Frequencies[i]] of its conversion loop
    is always in range. When [CalculateImpedance] succeeds it returns one
    point per impedance bin, in order, holding the frequency of the bin and
    the real and imaginary part of its impedance; an error of
    [ValidateSignals] is returned wrapped once, as "signal validation", and
    any later error of [CalculateImpedance] wrapped as "impedance
    calculation". *)
Theorem X15_ProcessEISMeasurement_points
        (cmplx_Exp : complex128 -> complex128)
        (math_Atan2 : float64 -> float64 -> float64)
        (voltageSignal currentSignal : Signal) :
  ProcessEISMeasurement cmplx_Exp math_Atan2 voltageSignal currentSignal
  <> None
  /\ (forall d,
        CalculateImpedance cmplx_Exp math_Atan2 voltageSignal currentSignal
        = Ok d ->
        ProcessEISMeasurement cmplx_Exp math_Atan2 voltageSignal currentSignal
        = Some (Ok (map (impedance_point d) (seq 0 (length (Impedance d))))))
  /\ (forall err,
        ValidateSignals voltageSignal currentSignal = Some err ->
        ProcessEISMeasurement cmplx_Exp math_Atan2 voltageSignal currentSignal
        = Some (Err (ProcessingError "signal validation" err)))
  /\ (forall err,
        ValidateSignals voltageSignal currentSignal = None ->
        CalculateImpedance cmplx_Exp math_Atan2 voltageSignal currentSignal
        = Err err ->
        ProcessEISMeasurement cmplx_Exp math_Atan2 voltageSignal currentSignal
        = Some (Err (ProcessingError "impedance calculation" err))).
Proof.
  assert (K : forall d,
            CalculateImpedance cmplx_Exp math_Atan2 voltageSignal currentSignal
            = Ok d ->
            ValidateSignals voltageSignal currentSignal = None
            /\ measurement_points d
               = Some (map (impedance_point d) (seq 0 (length (Impedance d))))).
  { intros d H. apply CalculateImpedance_Ok in H
      as (V & C & imp & Hs & _ & _ & _ & _ & _ & Hv).
    split; [assumption|]. apply measurement_points_Some.
    unfold ValidateImpedanceData in Hv.
    destruct (length (Impedance d) =? 0)%nat; [discriminate|].
    destruct (length (zFrequencies d) =? 0)%nat; [discriminate|].
    destruct (Nat.eqb_spec (length (Impedance d)) (length (zFrequencies d)));
      [lia|discriminate]. }
  unfold ProcessEISMeasurement. repeat split.
  - destruct (ValidateSignals _ _); [discriminate|].
    destruct (CalculateImpedance _ _ _ _) as [d|e] eqn:Ec; [|discriminate].
    destruct (K d eq_refl) as [_ Hm]. rewrite Hm. discriminate.
  - intros d H. destruct (K d H) as [Hs Hm]. now rewrite Hs, H, Hm.
  - intros err ->. reflexivity.
  - intros err -> ->. reflexivity.
Qed.

Lemma X15_ProcessEISMeasurement_points_witness :
  ProcessEISMeasurement Reference.cmplx_Exp Reference.math_Atan2
                        dc_voltage dc_current
  = Some (Ok [mkImpedancePoint 0 2 0; mkImpedancePoint 1 2 0]%float).
Proof.
  exact (proj1 (proj2 (@X15_ProcessEISMeasurement_points Reference.cmplx_Exp Reference.math_Atan2
                         dc_voltage dc_current))
               dc_impedance dc_measurement).
Defined.

(** X16 (Signal.Duration is never negative).  [Duration] never returns a value
    below zero nor a negative zero: it returns [0] for an empty signal and
    for a sample rate that is zero or negative, and otherwise the quotient
    of a non-negative count by a rate that is positive or NaN. It returns
    NaN only for a sample rate that is NaN. *)
Theorem X16_Signal_Duration_not_negative (s : Signal) :
  (Signal_Duration s <? 0)%float = false
  /\ sign_clear (Prim2SF (Signal_Duration s)) = true
  /\ ((Z.of_nat (length (Values s)) < 2 ^ 63)%Z ->
      PrimFloat.is_nan (Signal_Duration s) = true ->
      PrimFloat.is_nan (SampleRate s) = true).
Proof.
  assert (Hs : sign_clear (Prim2SF (Signal_Duration s)) = true).
  { unfold Signal_Duration.
    destruct (SampleRate s <=? 0)%float eqn:Er; [reflexivity|].
    destruct (length (Values s) =? 0)%nat; [reflexivity|]. cbn [orb].
    rewrite FloatAxioms.div_spec. apply SFdiv_sign_clear.
    - apply float64_of_nat_sign_clear.
    - now apply leb_zero_false_sign_clear. }
  split; [now apply sign_clear_not_negative|]. split; [assumption|].
  intros Hb. unfold Signal_Duration.
  destruct (SampleRate s <=? 0)%float; [discriminate|].
  destruct (Nat.eqb_spec (length (Values s)) 0) as [|Hn]; [discriminate|].
  cbn [orb]. rewrite !is_nan_spec, FloatAxioms.div_spec.
  destruct (float64_of_nat_mag (length (Values s)) Hb) as [Hle Hge].
  specialize (Hge ltac:(lia)).
  destruct (Prim2SF (float64_of_nat (length (Values s)))) as [sx|sx| |sx mx ex];
    cbn [mag_le mag_ge] in Hle, Hge; try contradiction.
  unfold SF64div.
  destruct (SFdiv prec emax (S754_finite sx mx ex) (Prim2SF (SampleRate s)))
    eqn:Ed; try discriminate.
  apply SFdiv_finite_nan in Ed. now rewrite Ed.
Qed.

(** X17 (what Config.Validate accepts).  [Validate] returns [nil] exactly when
    the sample rate is NaN or lies in (0, 1000000], the number of samples
    per second lies in 1 .. 100000 and the target URL is not empty. A sample
    rate that is not a number passes both of its comparisons. *)
Theorem X17_Config_Validate_accepts_iff (c : config.Config) :
  config.Validate c = None
  <-> ((PrimFloat.is_nan (config.SampleRate c) = true
        \/ ((0 <? config.SampleRate c)%float = true
            /\ (config.SampleRate c <=? config.sample_rate_limit)%float = true))
       /\ (1 <= config.SamplesPerSecond c <= 100000)%Z
       /\ config.TargetURL c <> ""%string).
Proof.
  unfold config.Validate.
  destruct (config.SampleRate c <=? 0)%float eqn:E1.
  { split; [discriminate|]. intros ([Hn|[Hp _]] & _).
    - apply (float_nan_compare _ 0%float) in Hn as [Hn _]. congruence.
    - apply float_ltb_leb_false in Hp. congruence. }
  destruct (Z.leb_spec (config.SamplesPerSecond c) 0) as [E2|E2];
    [split; [discriminate|lia]|].
  destruct (String.eqb_spec (config.TargetURL c) "") as [E3|E3];
    [split; [discriminate|tauto]|].
  destruct (config.sample_rate_limit <? config.SampleRate c)%float eqn:E4.
  { split; [discriminate|]. intros ([Hn|[_ Hl]] & _).
    - apply (float_nan_compare _ config.sample_rate_limit) in Hn as [_ Hn].
      congruence.
    - apply float_leb_ltb_false in Hl. congruence. }
  destruct (Z.ltb_spec 100000 (config.SamplesPerSecond c)) as [E5|E5];
    [split; [discriminate|lia]|].
  split; [|reflexivity]. intros _. split; [|split; [lia|assumption]].
  destruct (PrimFloat.is_nan (config.SampleRate c)) eqn:En; [auto|right].
  split.
  - now apply leb_zero_false_not_nan.
  - destruct (config.SampleRate c <=? config.sample_rate_limit)%float eqn:E6;
      [reflexivity|].
    destruct (float_leb_ltb_nan E6 E4) as [H|H]; [congruence|].
    discriminate H.
Qed.

(** X18 (what parseSignalChunk returns).  [parseSignalChunk] returns a signal
    exactly when the chunk is not empty, every record has at least three
    columns, the first column of the first record parses as a time and the
    third column of every record parses as a number; the signal then has
    that time as its timestamp, the parsed numbers as its values, one per
    record and in the order of the records, and the given sample rate. The
    first column of the other records is never read. *)
Theorem X18_parseSignalChunk_accepts_iff
        (time_Parse : string -> res Time)
        (strconv_ParseFloat : string -> res float64)
        (records : list (list string)) (sampleRate : float64) (s : Signal) :
  parseSignalChunk time_Parse strconv_ParseFloat records sampleRate = Ok s
  <-> records <> []
      /\ Forall (fun record => 3 <= length record) records
      /\ time_Parse (nth 0 (hd [] records) ""%string) = Ok (Timestamp s)
      /\ Forall2 (fun record value =>
                    strconv_ParseFloat (nth 2 record ""%string) = Ok value)
                 records (Values s)
      /\ SampleRate s = sampleRate.
Proof.
  unfold parseSignalChunk. split.
  - intros H. destruct records as [|r rest]; [discriminate|].
    cbn [length Nat.eqb] in H.
    destruct (parse_records time_Parse strconv_ParseFloat 0 (r :: rest)
                (make 0%float (S (length rest))) 0%Z)
      as [[values ts]|] eqn:E; [|discriminate].
    injection H as <-.
    apply (@parse_records_Ok time_Parse strconv_ParseFloat (r :: rest) 0 []
             (make 0%float (S (length rest)))) in E;
      [|reflexivity|apply repeat_length].
    destruct E as (F & (vs & F2 & ->) & T).
    split; [discriminate|]. split; [exact F|]. split; [exact T|].
    split; [exact F2|reflexivity].
  - intros (Hne & F & T & F2 & R).
    destruct records as [|r rest]; [contradiction|].
    cbn [length Nat.eqb].
    pose proof (@parse_records_complete time_Parse strconv_ParseFloat
                  (r :: rest) 0 [] (make 0%float (S (length rest))) 0%Z
                  (Values s) (Timestamp s) eq_refl (repeat_length _ _) F F2 T)
      as E.
    cbn [app] in E. rewrite E.
    destruct s as [ts vs sr]. simpl in R. rewrite R. reflexivity.
Qed.

(** X19 (the chunks of LoadSignalFromCSV).  For a readable file with at least
    one data row and a sample rate whose integer part [n] is at least 1 (the
    row count plus [n] staying below 2^63), [LoadSignalFromCSV] returns the
    signals [signals] exactly when there are as many of them as the data
    rows divided by [n], rounded up, and the [k]-th one is what
    [parseSignalChunk] makes of the rows [k*n] up to [(k+1)*n] (fewer at the
    end of the file) and passes [ValidateSignal]. The header row is in no
    chunk. *)
Theorem X19_LoadSignalFromCSV_chunks
        (os_Open : string -> option error)
        (csv_ReadAll : string -> res (list (list string)))
        (time_Parse : string -> res Time)
        (strconv_ParseFloat : string -> res float64)
        (filename : string) (sampleRate : float64)
        (header : list string) (data : list (list string)) (n : nat)
        (signals : list Signal) :
  os_Open filename = None ->
  csv_ReadAll filename = Ok (header :: data) ->
  data <> [] ->
  int_of_float64 sampleRate = Z.of_nat n ->
  1 <= n ->
  (Z.of_nat (length data) + Z.of_nat n < 2 ^ 63)%Z ->
  LoadSignalFromCSV os_Open csv_ReadAll time_Parse strconv_ParseFloat
                    filename sampleRate
  = Returned (Ok signals)
  <-> length signals = (length data + n - 1) / n
      /\ forall k, k < length signals ->
           parseSignalChunk time_Parse strconv_ParseFloat
                            (firstn n (skipn (k * n) data)) sampleRate
           = Ok (nth k signals (mkSignal 0 [] 0))
           /\ ValidateSignal (nth k signals (mkSignal 0 [] 0)) = None.
Proof.
  intros Ho Hr Hd Hi Hn Hb.
  rewrite (@LoadSignalFromCSV_loop os_Open csv_ReadAll time_Parse
             strconv_ParseFloat filename sampleRate header data n
             Ho Hr Hd Hi Hn Hb).
  split.
  - intros H.
    apply (@load_chunks_Ok time_Parse strconv_ParseFloat data sampleRate n
             Hn Hb (length data) 0 [] signals) in H.
    destruct H as (new & -> & C). simpl in C. cbn [app]. split.
    + now apply chunked_length with (2 := C).
    + now apply chunked_nth.
  - intros [L H].
    apply (@load_chunks_complete time_Parse strconv_ParseFloat data
             sampleRate n Hn Hb signals (length data) 0 []); [|lia].
    simpl. now apply chunked_intro with (d := mkSignal 0 [] 0).
Qed.

Lemma X19_LoadSignalFromCSV_chunks_witness :
  LoadSignalFromCSV Files.os_Open Files.csv_ReadAll Files.time_Parse
                    Files.strconv_ParseFloat "voltage.csv" 2
  = Returned (Ok Files.voltage_signals)
  <-> length Files.voltage_signals = (length Files.voltage_rows + 2 - 1) / 2
      /\ forall k, k < length Files.voltage_signals ->
           parseSignalChunk Files.time_Parse Files.strconv_ParseFloat
                            (firstn 2 (skipn (k * 2) Files.voltage_rows)) 2
           = Ok (nth k Files.voltage_signals (mkSignal 0 [] 0))
           /\ ValidateSignal (nth k Files.voltage_signals (mkSignal 0 [] 0))
              = None.
Proof.
  apply (@X19_LoadSignalFromCSV_chunks Files.os_Open Files.csv_ReadAll
           Files.time_Parse Files.strconv_ParseFloat "voltage.csv" 2%float
           Files.header Files.voltage_rows 2 Files.voltage_signals);
    [reflexivity|reflexivity|discriminate|reflexivity|lia|reflexivity].
Defined.

(** X20 (no data row is lost or repeated).  When [LoadSignalFromCSV] returns
    signals (under the conditions of X19), the values of the signals, taken
    one signal after the other, are the parsed third columns of the data
    rows of the file, one per row and in the order of the file; every signal
    has between 1 and [n] values and carries the sample rate of the call,
    also when that rate is not a whole number. *)
Theorem X20_LoadSignalFromCSV_values
        (os_Open : string -> option error)
        (csv_ReadAll : string -> res (list (list string)))
        (time_Parse : string -> res Time)
        (strconv_ParseFloat : string -> res float64)
        (filename : string) (sampleRate : float64)
        (header : list string) (data : list (list string)) (n : nat)
        (signals : list Signal) :
  os_Open filename = None ->
  csv_ReadAll filename = Ok (header :: data) ->
  data <> [] ->
  int_of_float64 sampleRate = Z.of_nat n ->
  1 <= n ->
  (Z.of_nat (length data) + Z.of_nat n < 2 ^ 63)%Z ->
  LoadSignalFromCSV os_Open csv_ReadAll time_Parse strconv_ParseFloat
                    filename sampleRate
  = Returned (Ok signals) ->
  Forall2 (fun record value =>
             strconv_ParseFloat (nth 2 record ""%string) = Ok value)
          data (concat (map Values signals))
  /\ Forall (fun s => 1 <= length (Values s) <= n
                      /\ SampleRate s = sampleRate) signals.
Proof.
  intros Ho Hr Hd Hi Hn Hb H.
  rewrite (@LoadSignalFromCSV_loop os_Open csv_ReadAll time_Parse
             strconv_ParseFloat filename sampleRate header data n
             Ho Hr Hd Hi Hn Hb) in H.
  apply (@load_chunks_Ok time_Parse strconv_ParseFloat data sampleRate n
           Hn Hb (length data) 0 [] signals) in H.
  destruct H as (new & -> & C). simpl in C. cbn [app].
  now apply chunked_values with (1 := Hn) (2 := C).
Qed.

Lemma X20_LoadSignalFromCSV_values_witness :
  Forall2 (fun record value =>
             Files.strconv_ParseFloat (nth 2 record ""%string) = Ok value)
          Files.voltage_rows (concat (map Values Files.voltage_signals))
  /\ Forall (fun s => 1 <= length (Values s) <= 2
                      /\ SampleRate s = 2%float) Files.voltage_signals.
Proof.
  apply (@X20_LoadSignalFromCSV_values Files.os_Open Files.csv_ReadAll
           Files.time_Parse Files.strconv_ParseFloat "voltage.csv" 2%float
           Files.header Files.voltage_rows 2 Files.voltage_signals);
    [reflexivity|reflexivity|discriminate|reflexivity|lia|reflexivity
    |reflexivity].
Defined.

(** X21 (LoadSignalFromCSV panics below 1 Hz).  On a file that opens and reads
    with a header and at least one data row, [LoadSignalFromCSV] panics for
    every sample rate that is not at least 1: [int(sampleRate)] is then zero
    or negative, so that either the division by [samplesPerSecond] or [make]
    with a negative capacity or the slice [records[i:end]] with [end < i]
    panics. This includes the rates between 0 and 1, which [ValidateSignal]
    and [Config.Validate] accept; no error is returned for them. *)
Theorem X21_LoadSignalFromCSV_panics
        (os_Open : string -> option error)
        (csv_ReadAll : string -> res (list (list string)))
        (time_Parse : string -> res Time)
        (strconv_ParseFloat : string -> res float64)
        (filename : string) (sampleRate : float64)
        (records : list (list string)) :
  os_Open filename = None ->
  csv_ReadAll filename = Ok records ->
  2 <= length records ->
  (1 <=? sampleRate)%float = false ->
  LoadSignalFromCSV os_Open csv_ReadAll time_Parse strconv_ParseFloat
                    filename sampleRate
  = Panicked.
Proof.
  intros Ho Hr Hl Hi. apply int_of_float64_below_one in Hi.
  destruct (Z.eq_dec (int_of_float64 sampleRate) 0) as [E0|E0].
  - unfold LoadSignalFromCSV. rewrite Ho, Hr.
    destruct (length records <? 2) eqn:E2; [apply Nat.ltb_lt in E2; lia|].
    cbv zeta. rewrite E0. reflexivity.
  - now apply LoadSignalFromCSV_no_chunk with (records := records).
Qed.

Lemma X21_LoadSignalFromCSV_panics_witness :
  LoadSignalFromCSV Files.os_Open Files.csv_ReadAll Files.time_Parse
                    Files.strconv_ParseFloat "voltage.csv" 0.5
  = Panicked.
Proof.
  apply (@X21_LoadSignalFromCSV_panics Files.os_Open Files.csv_ReadAll
           Files.time_Parse Files.strconv_ParseFloat "voltage.csv" 0.5%float
           (Files.header :: Files.voltage_rows));
    [reflexivity|reflexivity|simpl; lia|reflexivity].
Defined.

(** X22 (LoadSignalFromCSV returns from 1 Hz on).  On a file that opens and
    reads with a header and at least one data row, [LoadSignalFromCSV]
    returns, with signals or with an error, and does not panic, for every
    sample rate whose integer part is at least 1 (the row count plus that
    integer part staying below 2^63). *)
Theorem X22_LoadSignalFromCSV_returns
        (os_Open : string -> option error)
        (csv_ReadAll : string -> res (list (list string)))
        (time_Parse : string -> res Time)
        (strconv_ParseFloat : string -> res float64)
        (filename : string) (sampleRate : float64)
        (header : list string) (data : list (list string)) :
  os_Open filename = None ->
  csv_ReadAll filename = Ok (header :: data) ->
  data <> [] ->
  (1 <= int_of_float64 sampleRate)%Z ->
  (Z.of_nat (length data) + int_of_float64 sampleRate < 2 ^ 63)%Z ->
  exists r,
    LoadSignalFromCSV os_Open csv_ReadAll time_Parse strconv_ParseFloat
                      filename sampleRate
    = Returned r.
Proof.
  intros Ho Hr Hd Hi Hb.
  assert (En : int_of_float64 sampleRate
               = Z.of_nat (Z.to_nat (int_of_float64 sampleRate)))
    by (rewrite Z2Nat.id; lia).
  assert (Hn : 1 <= Z.to_nat (int_of_float64 sampleRate)) by lia.
  rewrite En in Hb.
  rewrite (@LoadSignalFromCSV_loop os_Open csv_ReadAll time_Parse
             strconv_ParseFloat filename sampleRate header data _
             Ho Hr Hd En Hn Hb).
  apply (@load_chunks_returns time_Parse strconv_ParseFloat data sampleRate
           _ Hn Hb (length data) 0 []).
  lia.
Qed.

Lemma X22_LoadSignalFromCSV_returns_witness :
  exists r,
    LoadSignalFromCSV Files.os_Open Files.csv_ReadAll Files.time_Parse
                      Files.strconv_ParseFloat "voltage.csv" 2
    = Returned r.
Proof.
  apply (@X22_LoadSignalFromCSV_returns Files.os_Open Files.csv_ReadAll
           Files.time_Parse Files.strconv_ParseFloat "voltage.csv" 2%float
           Files.header Files.voltage_rows);
    [reflexivity|reflexivity|discriminate|vm_compute; discriminate
    |reflexivity].
Defined.

(** X23 (the loops of the loader end).  Whatever the files, the parsers and the
    sample rate, the chunking loop of [LoadSignalFromCSV] makes at most one
    round per data row, so that [LoadSignalFromCSV] and
    [LoadVoltageAndCurrentFromCSV] return or panic: a round that neither
    returns nor panics has parsed a chunk that is not empty, and the index
    has grown. In particular the loop does not run for ever when
    [samplesPerSecond] is zero or negative. *)
Theorem X23_loader_loops_end
        (os_Open : string -> option error)
        (csv_ReadAll : string -> res (list (list string)))
        (time_Parse : string -> res Time)
        (strconv_ParseFloat : string -> res float64)
        (voltageFile currentFile : string) (sampleRate : float64) :
  LoadSignalFromCSV os_Open csv_ReadAll time_Parse strconv_ParseFloat
                    voltageFile sampleRate
  <> OutOfFuel
  /\ LoadVoltageAndCurrentFromCSV os_Open csv_ReadAll time_Parse
                                  strconv_ParseFloat
                                  voltageFile currentFile sampleRate
     <> OutOfFuel.
Proof.
  split; [apply LoadSignalFromCSV_rounds|].
  unfold LoadVoltageAndCurrentFromCSV.
  pose proof (LoadSignalFromCSV_rounds os_Open csv_ReadAll time_Parse
                strconv_ParseFloat voltageFile sampleRate) as Hv.
  pose proof (LoadSignalFromCSV_rounds os_Open csv_ReadAll time_Parse
                strconv_ParseFloat currentFile sampleRate) as Hc.
  destruct (LoadSignalFromCSV os_Open csv_ReadAll time_Parse
              strconv_ParseFloat voltageFile sampleRate)
    as [[vs|]| |]; try discriminate; [|contradiction].
  destruct (LoadSignalFromCSV os_Open csv_ReadAll time_Parse
              strconv_ParseFloat currentFile sampleRate)
    as [[cs|]| |]; try discriminate; [|contradiction].
  destruct (negb _); [discriminate|].
  destruct (match_pairs 0 vs cs) as [[err|]|]; discriminate.
Qed.

(** X24 (the pairs of LoadVoltageAndCurrentFromCSV).  When
    [LoadVoltageAndCurrentFromCSV] returns signals, they are the signals
    that [LoadSignalFromCSV] returns for the two files, there are as many
    voltage as current signals, and every pair of the same index is accepted
    by [ValidateSignals] of the impedance calculator: both signals pass
    [ValidateSignal] and they pass [ValidateSignalsMatch]. The load
    [currentSignals[i]] is therefore in range. *)
Theorem X24_LoadVoltageAndCurrentFromCSV_pairs
        (os_Open : string -> option error)
        (csv_ReadAll : string -> res (list (list string)))
        (time_Parse : string -> res Time)
        (strconv_ParseFloat : string -> res float64)
        (voltageFile currentFile : string) (sampleRate : float64)
        (voltageSignals currentSignals : list Signal) :
  LoadVoltageAndCurrentFromCSV os_Open csv_ReadAll time_Parse
                               strconv_ParseFloat
                               voltageFile currentFile sampleRate
  = Returned (Ok (voltageSignals, currentSignals)) ->
  LoadSignalFromCSV os_Open csv_ReadAll time_Parse strconv_ParseFloat
                    voltageFile sampleRate
  = Returned (Ok voltageSignals)
  /\ LoadSignalFromCSV os_Open csv_ReadAll time_Parse strconv_ParseFloat
                       currentFile sampleRate
     = Returned (Ok currentSignals)
  /\ length voltageSignals = length currentSignals
  /\ forall k, k < length voltageSignals ->
       ValidateSignals (nth k voltageSignals (mkSignal 0 [] 0))
                       (nth k currentSignals (mkSignal 0 [] 0))
       = None.
Proof.
  unfold LoadVoltageAndCurrentFromCSV. intros H.
  destruct (LoadSignalFromCSV os_Open csv_ReadAll time_Parse
              strconv_ParseFloat voltageFile sampleRate)
    as [[vs|]| |] eqn:Ev; try discriminate.
  destruct (LoadSignalFromCSV os_Open csv_ReadAll time_Parse
              strconv_ParseFloat currentFile sampleRate)
    as [[cs|]| |] eqn:Ec; try discriminate.
  destruct (length vs =? length cs) eqn:El; [|discriminate].
  apply Nat.eqb_eq in El. cbn [negb] in H.
  destruct (match_pairs 0 vs cs) as [[err|]|] eqn:Em; try discriminate.
  injection H as <- <-.
  split; [reflexivity|]. split; [reflexivity|]. split; [exact El|].
  intros k Hk.
  apply LoadSignalFromCSV_valid in Ev, Ec.
  destruct (match_pairs_None vs cs (mkSignal 0 [] 0) 0 Em Hk)
    as (c & Hc & Hm).
  apply nth_error_nth with (d := mkSignal 0 [] 0) in Hc. simpl in Hc.
  unfold ValidateSignals.
  rewrite (proj1 (Forall_nth _ vs) Ev k (mkSignal 0 [] 0) Hk).
  rewrite (proj1 (Forall_nth _ cs) Ec k (mkSignal 0 [] 0)) by lia.
  rewrite Hc. exact Hm.
Qed.

Lemma X24_LoadVoltageAndCurrentFromCSV_pairs_witness :
  LoadSignalFromCSV Files.os_Open Files.csv_ReadAll Files.time_Parse
                    Files.strconv_ParseFloat "voltage.csv" 2
  = Returned (Ok Files.voltage_signals)
  /\ LoadSignalFromCSV Files.os_Open Files.csv_ReadAll Files.time_Parse
                       Files.strconv_ParseFloat "current.csv" 2
     = Returned (Ok Files.current_signals)
  /\ length Files.voltage_signals = length Files.current_signals
  /\ forall k, k < length Files.voltage_signals ->
       ValidateSignals (nth k Files.voltage_signals (mkSignal 0 [] 0))
                       (nth k Files.current_signals (mkSignal 0 [] 0))
       = None.
Proof.
  apply (@X24_LoadVoltageAndCurrentFromCSV_pairs Files.os_Open Files.csv_ReadAll
           Files.time_Parse Files.strconv_ParseFloat
           "voltage.csv" "current.csv" 2%float
           Files.voltage_signals Files.current_signals).
  reflexivity.
Defined.
